(** * Transpose elimination in nntool: a shallow embedding

    Source: tools/nntool/graph/manipulations/eliminate_transposes/eliminate_transposes.py

    The file has three parts.  Part I embeds the data model and the
    functions of the pass (visit bookkeeping, axis helpers, the two
    explorers, the scoring functions, the cleanup step and the driver).
    Part II states and proves the properties C1 to C10 of these
    definitions.  Part III proves further properties of the same
    definitions, numbered from X1: edge cases and errors, invariants of
    the explorers and of the driver, and how the operations compose.

    Conventions of the embedding:
    - a Python node object is identified by its name; the graph maps names
      to the attributes of the nodes, and edges and actions refer to nodes
      by name, so that a mutation of a node is seen through every reference;
    - a permutation is a Python sequence, a list or a tuple: the source
      compares permutations with [==], which never holds between a list and
      a tuple, so that a permutation carries its kind ([pyseq]).  Shapes are
      Python lists (the shape of a Dim, what apply_transpose returns: the
      source concatenates them to lists and calls [copy] on them) and are
      lists of integers; the one tuple among the shapes that is compared,
      the result of strip_leading_dim, is marked as a tuple where the
      comparison is made;
    - exceptions are values of the result type [Res]; recursion over the
      graph carries a depth bound and reports [OutOfFuel] when it is
      exhausted;
    - functions of modules that are imported by the source but are not part
      of it (transpose_helpers, compatible_transposes, the execution of
      actions, shape inference) are parameters of the sections that embed
      their callers. *)

From stdpp Require Import gmap strings list fin_maps pretty sorting.
From Stdlib Require Import ZArith Lia.

#[local] Set Warnings "-clear-no-such-hyp".

Local Open Scope Z_scope.

(* ================================================================== *)
(** * Part I: the embedding                                             *)
(* ================================================================== *)

(** ** Exceptions and results *)

Inductive exn : Type :=
| CantContinueError
| ValueError (msg : string)
| IndexError
| KeyError
| TypeError
| AttributeError.

Inductive Res (A : Type) : Type :=
| Ok (a : A)
| Raise (e : exn)
| OutOfFuel.

Arguments Ok {A} a.
Arguments Raise {A} e.
Arguments OutOfFuel {A}.

#[global] Instance Res_ret : MRet Res := λ A a, Ok a.
#[global] Instance Res_bind : MBind Res := λ A B f m,
  match m with
  | Ok a => f a
  | Raise e => Raise e
  | OutOfFuel => OutOfFuel
  end.
#[global] Instance Res_fmap : FMap Res := λ A B f m,
  match m with
  | Ok a => Ok (f a)
  | Raise e => Raise e
  | OutOfFuel => OutOfFuel
  end.

(** [l[i]] of Python for a natural index: IndexError out of range. *)
Definition py_nth {A} (l : list A) (i : nat) : Res A :=
  match l !! i with
  | Some a => Ok a
  | None => Raise IndexError
  end.

(** [l[-1]] of Python. *)
Definition py_last {A} (l : list A) : Res A :=
  match last l with
  | Some a => Ok a
  | None => Raise IndexError
  end.

(** A for loop whose body may raise: the accumulator is threaded through
    the elements in order and the first exception ends the loop. *)
Fixpoint for_each {A S} (l : list A) (body : S → A → Res S) (s : S) : Res S :=
  match l with
  | [] => Ok s
  | a :: l' => s' ← body s a; for_each l' body s'
  end.

(** ** Data model *)

(** A Python sequence of integers.  A list and a tuple are different
    values, also when they hold the same items: [==] between a list and a
    tuple is False. *)
Inductive pyseq : Type :=
| py_list (l : list Z)
| py_tuple (l : list Z).

#[global] Instance pyseq_eq_dec : EqDecision pyseq.
Proof. solve_decision. Defined.

(** The items of a sequence: what iteration, indexing, [len] and [tuple(s)]
    read. *)
Definition items (s : pyseq) : list Z :=
  match s with py_list l | py_tuple l => l end.

(** A permutation that is being propagated; [None] is Python's None. *)
Abbreviation perm := (option pyseq).

Module Dim.
Record t : Type := mk { shape : list Z }.
Definition rank (d : t) : nat := length (shape d).
End Dim.

Module Edge.
Record t : Type := mk {
  from_node : string;
  from_idx : nat;
  to_node : string;
  to_idx : nat
}.
#[global] Instance eq_dec : EqDecision t.
Proof. solve_decision. Defined.
End Edge.

(** The classes of graph.types that the pass tests with isinstance.
    [OtherParameters] stands for every other operator class. *)
Inductive NodeClass : Type :=
| TransposeParameters
| ReshapeParameters
| PadParameters
| ReverseParameters
| StridedSliceParameters
| ConcatParameters
| BinaryOpParameters
| PowOpParameters
| FcParameters
| LinearFusionParameters
| InputParameters
| OutputParameters
| ConstantInputParameters
| CopyParameters
| UnaryOpParameters
| ActivationParameters
| GlobalPoolingParameters
| OtherParameters.

#[global] Instance NodeClass_eq_dec : EqDecision NodeClass.
Proof. solve_decision. Defined.

Module Node.
(** The attributes of a node that the pass reads.  [SensitiveToOrder] and
    [Broadcastable] are the two marker classes of graph.types: whether a
    node is an instance of them is part of its class description.
    [contained_filters] lists the batch sizes of the filters contained in
    a LinearFusion. *)
Record t : Type := mk {
  name : string;
  cls : NodeClass;
  SensitiveToOrder : bool;
  Broadcastable : bool;
  in_dims : list Dim.t;
  out_dims : list Dim.t;
  step_idx : Z;
  transpose : pyseq;
  old_shape : Dim.t;
  shape : Dim.t;
  fixed_order : bool;
  batch_size : Z;
  contained_filters : list Z;
  slice_shape : list Z;
  out_shape : list Z;
  changes_shape : bool
}.
End Node.

(** Quantization records are opaque to the pass. *)
Definition QRec : Type := Z.

Record Graph : Type := mkGraph {
  nodes : gmap string Node.t;
  edges : list Edge.t;
  quantization : option (gmap string QRec)
}.

(** Modelled from the spec: the graph container (utils.graph), which
    "provides node/edge iteration, neighbour lookup by edge index, and
    structural mutation".  Edges are kept in insertion order. *)
Definition get_node (G : Graph) (n : string) : Res Node.t :=
  match nodes G !! n with
  | Some node => Ok node
  | None => Raise KeyError
  end.

Definition in_edges (G : Graph) (n : string) : list Edge.t :=
  filter (λ e, Edge.to_node e = n) (edges G).

Definition out_edges (G : Graph) (n : string) : list Edge.t :=
  filter (λ e, Edge.from_node e = n) (edges G).

Definition indexed_in_edges (G : Graph) (n : string) (idx : nat) : Res Edge.t :=
  match filter (λ e, Edge.to_idx e = idx) (in_edges G n) with
  | e :: _ => Ok e
  | [] => Raise IndexError
  end.

Definition nodes_of_class (G : Graph) (c : NodeClass) : list Node.t :=
  filter (λ node, Node.cls node = c) (map_to_list (nodes G)).*2.

(** Modelled from the spec: remove_and_reconnect of the graph container,
    which removes a node "and reconnects its single input to its
    consumer(s)".  Every edge at the node disappears with it; a node
    without an in-edge is removed without new edges. *)
Definition remove_and_reconnect (G : Graph) (n : string) : Graph :=
  let rest := filter (λ e, Edge.from_node e ≠ n ∧ Edge.to_node e ≠ n) (edges G) in
  let added :=
    match in_edges G n with
    | i :: _ =>
        (λ o, Edge.mk (Edge.from_node i) (Edge.from_idx i)
                      (Edge.to_node o) (Edge.to_idx o)) <$> out_edges G n
    | [] => []
    end in
  mkGraph (delete n (nodes G)) (rest ++ added) (quantization G).

(** ** Visit bookkeeping: class VisitedNodes *)

Module VisitedNodes.

(** The dictionary [_nodes]: node -> set of tags "down<i>", "up<i>". *)
Record t : Type := mk { nodes : gmap string (gset string) }.

(** The right operand of [|] and [|=]: a VisitedNodes or any other
    iterable of nodes (a plain set, a list). *)
Inductive operand : Type :=
| Visited (s : t)
| Plain (s : list string).

(** [VisitedNodes()]. *)
Definition empty : t := mk ∅.

(** Truth value of a Python string: non-empty. *)
Definition truthy (k : string) : Prop := k ≠ "".

(** [__contains__]: x in self._nodes and any(self._nodes[x]). *)
Definition contains (self : t) (x : string) : bool :=
  match nodes self !! x with
  | Some visit => bool_decide (set_Exists truthy visit)
  | None => false
  end.

(** [__iter__]: the nodes whose tag set is not empty. *)
Definition iter (self : t) : list string :=
  (filter (λ item : string * gset string, item.2 ≠ ∅)
          (map_to_list (nodes self))).*1.

(** [__len__]. *)
Definition len (self : t) : nat :=
  length (filter (λ item : string * gset string, item.2 ≠ ∅)
                 (map_to_list (nodes self))).

(** [add]: self._nodes[value] = set(). *)
Definition add (self : t) (value : string) : t :=
  mk (<[value := ∅]> (nodes self)).

(** [discard]: del self._nodes[value], a KeyError when absent. *)
Definition discard (self : t) (value : string) : Res t :=
  match nodes self !! value with
  | Some _ => Ok (mk (delete value (nodes self)))
  | None => Raise KeyError
  end.

(** [setdefault(node, set()).add(tag)]. *)
Definition add_tag (self : t) (node : string) (tag : string) : t :=
  mk (<[node := default ∅ (nodes self !! node) ∪ {[tag]}]> (nodes self)).

Definition visit_down (self : t) (node : string) (idx : nat) : t :=
  add_tag self node ("down" +:+ pretty idx).

Definition visited_down (self : t) (node : string) (idx : option nat) : bool :=
  let visited := default ∅ (nodes self !! node) in
  match idx with
  | None => bool_decide (set_Exists (λ k, String.prefix "down" k = true) visited)
  | Some idx =>
      bool_decide ("down" +:+ pretty idx ∈ visited) || bool_decide ("down*" ∈ visited)
  end.

Definition visit_up (self : t) (node : string) (idx : nat) : t :=
  add_tag self node ("up" +:+ pretty idx).

Definition visited_up (self : t) (node : string) (idx : option nat) : bool :=
  let visited := default ∅ (nodes self !! node) in
  match idx with
  | None => bool_decide (set_Exists (λ k, String.prefix "up" k = true) visited)
  | Some idx =>
      bool_decide ("up" +:+ pretty idx ∈ visited) || bool_decide ("up*" ∈ visited)
  end.

Definition visited_direction (self : t) (direction : string) (idx : nat)
    (node : string) : bool :=
  bool_decide (direction +:+ pretty idx ∈ default ∅ (nodes self !! node)).

(** [copy]: a deep copy; values are immutable here. *)
Definition copy (self : t) : t := mk (nodes self).

(** [__or_nodes]: the loop over [s.nodes.items()], or over the elements of
    a plain iterable. *)
Definition or_nodes (s : operand) (res : gmap string (gset string))
    : gmap string (gset string) :=
  match s with
  | Visited s =>
      map_fold (λ node visited res,
                  match res !! node with
                  | Some old => <[node := old ∪ visited]> res
                  | None => <[node := visited]> res
                  end) res (nodes s)
  | Plain s =>
      foldl (λ res node, <[node := {["up*"; "down*"]}]> res) res s
  end.

(** [__or__]: the tag sets of self are copied, then [__or_nodes]. *)
Definition or_ (self : t) (s : operand) : t := mk (or_nodes s (nodes self)).

(** [__ior__]. *)
Definition ior (self : t) (s : operand) : t := mk (or_nodes s (nodes self)).

End VisitedNodes.

Infix "|ᵥ" := VisitedNodes.or_ (at level 50, left associativity).

(** ** check_for_null_transpose and check_continue *)

Definition check_for_null_transpose (node : Node.t) (transpose : perm) : Res unit :=
  match transpose with
  | None => Raise CantContinueError
  | Some _ => Ok ()
  end.

(** Returns [true] to skip the node and [false] to visit it. *)
Definition check_continue (visited_nodes cur_visited_nodes : VisitedNodes.t)
    (exclude_nodes : gset string) (node : Node.t) (direction : string)
    (idx : nat) : Res bool :=
  let all_visited := visited_nodes |ᵥ VisitedNodes.Visited cur_visited_nodes in
  if negb (Node.SensitiveToOrder node) &&
     ((bool_decide (direction = "up") &&
       VisitedNodes.visited_down all_visited (Node.name node) None) ||
      (bool_decide (direction = "down") &&
       VisitedNodes.visited_up all_visited (Node.name node) None))
  then Ok true
  else if VisitedNodes.visited_direction all_visited direction idx (Node.name node)
  then Raise CantContinueError
  else if bool_decide (Node.name node ∈ exclude_nodes)
  then Raise CantContinueError
  else Ok false.

(** ** Shape and axis helpers *)

(** The while loop pops leading elements equal to [dim] as long as more
    than one element is left. *)
Fixpoint strip_leading_dim (shape : list Z) (dim : Z) : list Z :=
  match shape with
  | x :: (_ :: _) as rest =>
      if bool_decide (x = dim) then strip_leading_dim rest dim else shape
  | _ => shape
  end.

(** [dims[0]] for a single output; otherwise the element-wise maximum of
    the shapes, as long as the shortest of them (zip). *)
Definition compute_max_shape (dims : list Dim.t) : list Z :=
  match dims with
  | [d] => Dim.shape d
  | [] => []
  | d :: rest => foldl (λ acc d', zip_with Z.max acc (Dim.shape d')) (Dim.shape d) rest
  end.

(** [range(n)] as a list of Python integers. *)
Definition range (n : nat) : list Z := Z.of_nat <$> seq 0 n.

Definition broadcasted_axes (shape full_shape : list Z) : list Z :=
  range (length full_shape - length shape).

Definition reduce_dimension (axis : Z) (stripped_axes : list Z) : Z :=
  axis - foldr Z.add 0
           ((λ stripped_axis, if bool_decide (stripped_axis < axis) then 1 else 0)
              <$> stripped_axes).

Definition expand_axes_in_transpose (transpose : list Z) (num_new_axes : nat)
    : list Z :=
  range num_new_axes ++ ((λ axis, axis + Z.of_nat num_new_axes) <$> transpose).

Definition strip_axes_from_transpose (transpose stripped_axes : list Z) : list Z :=
  (λ axis, reduce_dimension axis stripped_axes)
    <$> filter (λ axis, axis ∉ stripped_axes) transpose.

(** ** TransposeHistory and the actions *)

Module TransposeHistory.
Record t : Type := mk {
  node : string;
  from_shape : option (list Z);
  transpose : perm;
  to_shape : option (list Z)
}.
End TransposeHistory.

(** Modelled from the spec: the action variants of
    eliminate_transposes_actions, with the payload each constructor call of
    the source passes.  The [from_history] class methods are constructors
    that keep the history they are given. *)
Inductive Action : Type :=
| DeleteTransposeAction (node : string) (reshape : option (list Z * list Z))
| InsertTransposeAction (node : string) (direction : string) (idx : nat)
    (out_edge : option Edge.t) (transpose : perm)
| SetTransposeAction (node : string) (transpose : list Z)
| DeleteReshapeAction (node : string)
| SetReshapeAction (node : string) (in_shape out_shape : option (list Z))
| InsertReshapeAction (node : string) (direction : string) (idx : nat)
    (out_edge : option Edge.t) (in_shape out_shape : list Z)
| ReorderConstantInput (node : string) (history : list TransposeHistory.t)
    (transpose : perm)
| ReorderInputDims (node : string) (history : list TransposeHistory.t)
    (transpose : perm)
| ReorderLinearAction (node : string) (direction : string)
    (history : list TransposeHistory.t) (qrec : option QRec)
| SwitchBatchLinearAction (node : string)
| TransposePad (node : string) (transpose : perm) (dir : string)
| TransposeReverse (node : string) (transpose : perm) (dir : string)
| TransposeSlidedSlice (node : string) (transpose : perm)
    (out_shape : option (list Z)) (dir : option string)
| EndActionUp (node : string)
| EndActionDown (node : string).

Definition is_DeleteTransposeAction (a : Action) : bool :=
  match a with DeleteTransposeAction _ _ => true | _ => false end.

Definition is_InsertTransposeAction (a : Action) : bool :=
  match a with InsertTransposeAction _ _ _ _ _ => true | _ => false end.

(** [TRANSIENT_ACTIONS]: the table from the exact class of a node to the
    action that rewrites its axis attributes. *)
Definition TRANSIENT_ACTIONS (c : NodeClass)
    : option (string → perm → string → Action) :=
  match c with
  | PadParameters => Some TransposePad
  | ReverseParameters => Some TransposeReverse
  | StridedSliceParameters =>
      Some (λ node transpose dir, TransposeSlidedSlice node transpose None (Some dir))
  | _ => None
  end.

(** [NODES_TO_EXPLORE_UP]: any(isinstance(node, cls) for cls in ...). *)
Definition in_NODES_TO_EXPLORE_UP (node : Node.t) : bool :=
  bool_decide (Node.cls node = ConcatParameters) ||
  bool_decide (Node.cls node = BinaryOpParameters) ||
  Node.Broadcastable node.

(** [set(edges) - {edge}]; the iteration order of a Python set is not
    specified, the order of the graph is taken. *)
Definition edges_except (es : list Edge.t) (e : Edge.t) : list Edge.t :=
  remove_dups (filter (λ e', e' ≠ e) es).

(** [G.quantization and G.quantization[NodeId(node)]]. *)
Definition lookup_qrec (G : Graph) (node : Node.t) : Res (option QRec) :=
  match quantization G with
  | None => Ok None
  | Some q =>
      if bool_decide (q = ∅) then Ok None
      else match q !! Node.name node with
           | Some r => Ok (Some r)
           | None => Raise KeyError
           end
  end.

(** Truth value of an optional sequence: neither None nor empty. *)
Definition truthy_seq {A} (s : option (list A)) : bool :=
  match s with
  | Some (_ :: _) => true
  | _ => false
  end.

(** The batch size of [node.contained_filters()[0]] for a LinearFusion and
    of the node itself for a FullyConnected. *)
Definition filter_batch_size (node : Node.t) : Res Z :=
  if bool_decide (Node.cls node = LinearFusionParameters)
  then py_nth (Node.contained_filters node) 0
  else Ok (Node.batch_size node).

Definition is_linear (node : Node.t) : bool :=
  bool_decide (Node.cls node = FcParameters) ||
  bool_decide (Node.cls node = LinearFusionParameters).

(** ** The explorers: search_down, search_up, continue_down, continue_up *)

Definition search_result : Type := list Action * VisitedNodes.operand.

(** [transpose is not None and len(transpose) == 1]. *)
Definition is_single_axis (transpose : perm) : bool :=
  match items <$> transpose with
  | Some [_] => true
  | _ => false
  end.

(** The items of a permutation that is iterated over; iterating over None
    is a TypeError. *)
Definition the_perm (transpose : perm) : Res (list Z) :=
  match transpose with
  | Some t => Ok (items t)
  | None => Raise TypeError
  end.

(** try ... except CantContinueError. *)
Definition try_except {A} (body : Res A) (handler : Res A) : Res A :=
  match body with
  | Raise CantContinueError => handler
  | r => r
  end.

(** The functions of transpose_helpers and compatible_transposes, and the
    two members of Dim that requires_reshape reads: the interface of the
    explorers to the modules that are not part of the source.
    apply_transpose returns a list: strip_leading_dim calls [copy] on what
    it returns, which a tuple does not have. *)
Class TransposeHelpers : Type := {
  apply_transpose : list Z → perm → Res (list Z);
  reverse_transpose : perm → Res perm;
  transpose_does_nothing : perm → list Z → Res bool;
  identity_transpose : perm → Res bool;
  reverses_transpose_up : perm → pyseq → Dim.t → Res (bool * option (list Z));
  reverse_reshape :
    perm → list Z → list Z → bool → Res (perm * option (list Z) * option (list Z));
  layout_shape : Dim.t → list Z;
  calc_transpose : Dim.t → list Z → Res Dim.t
}.

Section Explorers.

Context `{!TransposeHelpers}.

Definition requires_reshape (trans1 trans2 : list Z) (dim : Dim.t)
    : Res (option (list Z * list Z)) :=
  if bool_decide (Dim.shape dim ≠ layout_shape dim) then
    d1 ← calc_transpose dim trans1;
    d12 ← calc_transpose d1 trans2;
    if bool_decide (layout_shape dim = layout_shape d12) then
      from_shape ← calc_transpose dim trans1;
      to_shape ← calc_transpose dim trans2;
      if bool_decide (Dim.shape from_shape ≠ Dim.shape to_shape)
      then Ok (Some (Dim.shape from_shape, Dim.shape to_shape))
      else Ok None
    else Ok None
  else Ok None.

(** The reshape that a broadcasted input edge needs when the transpose
    passes the node: shared text of search_down and continue_up.  Returns
    the transpose without the broadcasted axes, the two shapes and the
    broadcasted shape.  strip_axes_from_transpose and strip_leading_dim
    return tuples; from_shape is the list that apply_transpose returns. *)
Definition broadcast_shapes (transpose : perm) (edge_in_shape max_shape : list Z)
    : Res (pyseq * pyseq * pyseq * list Z) :=
  let b_axes := broadcasted_axes edge_in_shape max_shape in
  t ← the_perm transpose;
  let transpose_without_broadcast := py_tuple (strip_axes_from_transpose t b_axes) in
  r ← reverse_transpose (Some transpose_without_broadcast);
  from_shape ← apply_transpose edge_in_shape r;
  let broadcasted_shape := replicate (length b_axes) 1 ++ edge_in_shape in
  r' ← reverse_transpose transpose;
  to_shape ← apply_transpose broadcasted_shape r';
  Ok (transpose_without_broadcast, py_list from_shape,
      py_tuple (strip_leading_dim to_shape 1), broadcasted_shape).

Definition explorer : Type :=
  Graph → Node.t → gset string → VisitedNodes.t → Edge.t →
  list TransposeHistory.t → Res search_result.

(** continue_down, over the explorer it recurses into.  The parameter
    [transpose] is not read, as in the source. *)
Definition continue_down_with (search_down : explorer) (G : Graph) (node : Node.t)
    (exclude_nodes : gset string) (visited_nodes cur_visited_nodes : VisitedNodes.t)
    (cur_actions : list Action) (transpose_history : list TransposeHistory.t)
    (transpose : perm) : Res (list Action * VisitedNodes.t) :=
  for_each (out_edges G (Node.name node))
    (λ '(cur_actions, cur_visited_nodes) edge,
       to_node ← get_node G (Edge.to_node edge);
       skip ← check_continue visited_nodes cur_visited_nodes exclude_nodes
                to_node "down" (Edge.to_idx edge);
       if skip : bool then Ok (cur_actions, cur_visited_nodes)
       else
         '(new_actions, visited_down_nodes) ←
            search_down G to_node exclude_nodes
              (visited_nodes |ᵥ VisitedNodes.Visited cur_visited_nodes)
              edge transpose_history;
         Ok (cur_actions ++ new_actions,
             VisitedNodes.ior cur_visited_nodes visited_down_nodes))
    (cur_actions, cur_visited_nodes).

(** continue_up, over the explorer it recurses into. *)
Definition continue_up_with (search_up : explorer) (G : Graph) (node : Node.t)
    (exclude_nodes : gset string) (visited_nodes cur_visited_nodes : VisitedNodes.t)
    (cur_actions : list Action) (transpose_history : list TransposeHistory.t)
    (transpose : perm) : Res (list Action * VisitedNodes.t) :=
  for_each (in_edges G (Node.name node))
    (λ '(cur_actions, cur_visited_nodes) edge,
       from_node ← get_node G (Edge.from_node edge);
       skip ← check_continue visited_nodes cur_visited_nodes exclude_nodes
                from_node "up" (Edge.from_idx edge);
       if skip : bool then Ok (cur_actions, cur_visited_nodes)
       else
         edge_in_dim ← py_nth (Node.in_dims node) (Edge.to_idx edge);
         let edge_in_shape := Dim.shape edge_in_dim in
         '(cur_actions, extra_history) ←
            (if Node.Broadcastable node ||
                bool_decide (Node.cls node = PowOpParameters) then
               out0 ← py_nth (Node.out_dims node) 0;
               if bool_decide (length edge_in_shape ≠ Dim.rank out0) then
                 let max_shape := compute_max_shape (Node.out_dims node) in
                 '(transpose_without_broadcast, from_shape, to_shape,
                   broadcasted_shape) ←
                    broadcast_shapes transpose edge_in_shape max_shape;
                 if bool_decide (from_shape ≠ to_shape) then
                   Ok (cur_actions ++
                         [InsertReshapeAction (Node.name node) "in"
                            (Edge.to_idx edge) None (items from_shape)
                            (items to_shape)],
                       [TransposeHistory.mk (Node.name node)
                          (Some broadcasted_shape)
                          (Some transpose_without_broadcast)
                          (Some edge_in_shape)])
                 else Ok (cur_actions, [])
               else Ok (cur_actions, [])
             else Ok (cur_actions, []));
         '(new_actions, visited_up_nodes) ←
            search_up G from_node exclude_nodes
              (visited_nodes |ᵥ VisitedNodes.Visited cur_visited_nodes)
              edge (transpose_history ++ extra_history);
         Ok (cur_actions ++ new_actions,
             VisitedNodes.ior cur_visited_nodes visited_up_nodes))
    (cur_actions, cur_visited_nodes).

(** The first loop of search_up, over the explorer it recurses into: all
    the other out-edges of the node are visited downwards. *)
Definition other_out_edges_with (search_down : explorer) (G : Graph) (node : Node.t)
    (exclude_nodes : gset string) (visited_nodes cur_visited_nodes : VisitedNodes.t)
    (out_edge : Edge.t) (transpose : perm) : Res (list Action * VisitedNodes.t) :=
  for_each (edges_except (out_edges G (Node.name node)) out_edge)
    (λ '(cur_actions, cur_visited_nodes) edge,
       _ ← check_for_null_transpose node transpose;
       to_node ← get_node G (Edge.to_node edge);
       skip ← check_continue visited_nodes cur_visited_nodes exclude_nodes
                to_node "down" (Edge.to_idx edge);
       if skip : bool then Ok (cur_actions, cur_visited_nodes)
       else
         out_dim ← py_nth (Node.out_dims node) (Edge.from_idx edge);
         to_shape ← apply_transpose (Dim.shape out_dim) transpose;
         '(new_actions, visited_down_nodes) ←
            search_down G to_node exclude_nodes
              (visited_nodes |ᵥ VisitedNodes.Visited cur_visited_nodes) edge
              [TransposeHistory.mk (Node.name node) (Some (Dim.shape out_dim))
                 transpose (Some to_shape)];
         Ok (cur_actions ++ new_actions,
             VisitedNodes.ior cur_visited_nodes visited_down_nodes))
    ([], cur_visited_nodes).

(** The pair of shapes of a residual reshape when [old_shape] is true. *)
Definition residual_reshape (old_shape : option (list Z)) (out_shape : list Z)
    : option (list Z * list Z) :=
  if truthy_seq old_shape then (λ s, (s, out_shape)) <$> old_shape else None.

Fixpoint search_down (fuel : nat) (G : Graph) (node : Node.t)
    (exclude_nodes : gset string) (visited_nodes : VisitedNodes.t)
    (in_edge : Edge.t) (transpose_history : list TransposeHistory.t)
    {struct fuel} : Res search_result :=
  match fuel with
  | O => OutOfFuel
  | S fuel =>
  let name := Node.name node in
  let idx := Edge.to_idx in_edge in
  let done (actions : list Action) (v : VisitedNodes.t) : Res search_result :=
    Ok (actions, VisitedNodes.Visited v) in
  let insert_transpose (transpose : perm) (v : VisitedNodes.t) :=
    done [InsertTransposeAction name "in" idx None transpose; EndActionDown name] v in
  let cur_visited_nodes := VisitedNodes.visit_down VisitedNodes.empty name idx in
  last_history ← py_last transpose_history;
  let transpose := TransposeHistory.transpose last_history in
  in_dim ← py_nth (Node.in_dims node) idx;
  let in_shape := Dim.shape in_dim in
  if is_single_axis transpose then
    Ok ([EndActionDown name], VisitedNodes.Plain [])
  else if Node.SensitiveToOrder node then
    r ← reverse_transpose transpose;
    nothing ← transpose_does_nothing r in_shape;
    if nothing : bool then
      _ ← check_for_null_transpose node transpose;
      r ← reverse_transpose transpose;
      new_shape ← apply_transpose in_shape r;
      if bool_decide (new_shape = in_shape) then
        done [EndActionDown name] cur_visited_nodes
      else
        done [InsertReshapeAction name "in" idx None new_shape in_shape;
              EndActionDown name] cur_visited_nodes
    else
      _ ← check_for_null_transpose node transpose;
      insert_transpose transpose cur_visited_nodes
  else
  (* arriving on a broadcasted input: the transpose is expanded *)
  '(transpose, in_shape, transpose_history) ←
     (if Node.Broadcastable node || bool_decide (Node.cls node = PowOpParameters) then
        out0 ← py_nth (Node.out_dims node) 0;
        if bool_decide (length in_shape ≠ Dim.rank out0) then
          _ ← check_for_null_transpose node transpose;
          t ← the_perm transpose;
          let max_shape := compute_max_shape (Node.out_dims node) in
          let b_axes := broadcasted_axes in_shape max_shape in
          let new_transpose := py_tuple (expand_axes_in_transpose t (length b_axes)) in
          let new_shape := replicate (length b_axes) 1 ++ in_shape in
          Ok (Some new_transpose, new_shape,
              transpose_history ++
                [TransposeHistory.mk name (Some in_shape) (Some new_transpose)
                   (Some new_shape)])
        else Ok (transpose, in_shape, transpose_history)
      else Ok (transpose, in_shape, transpose_history));
  (* nodes whose inputs must all have the same transpose applied *)
  '(cur_actions, cur_visited_nodes) ←
     (if in_NODES_TO_EXPLORE_UP node then
        _ ← check_for_null_transpose node transpose;
        let max_shape := compute_max_shape (Node.out_dims node) in
        for_each (edges_except (in_edges G name) in_edge)
          (λ '(cur_actions, cur_visited_nodes) edge,
             from_node ← get_node G (Edge.from_node edge);
             skip ← check_continue visited_nodes cur_visited_nodes exclude_nodes
                      from_node "up" (Edge.from_idx edge);
             if skip : bool then Ok (cur_actions, cur_visited_nodes)
             else
               edge_in_dim ← py_nth (Node.in_dims node) (Edge.to_idx edge);
               let edge_in_shape := Dim.shape edge_in_dim in
               '(cur_actions, new_transpose) ←
                  (if bool_decide (length edge_in_shape ≠ length max_shape) then
                     '(transpose_without_broadcast, from_shape, to_shape, _) ←
                        broadcast_shapes transpose edge_in_shape max_shape;
                     Ok (if bool_decide (from_shape ≠ to_shape)
                         then cur_actions ++
                                [InsertReshapeAction name "in" (Edge.to_idx edge)
                                   None (items from_shape) (items to_shape)]
                         else cur_actions,
                         Some transpose_without_broadcast)
                   else Ok (cur_actions, transpose));
               let new_history :=
                 [TransposeHistory.mk name (Some edge_in_shape) new_transpose
                    (Some edge_in_shape)] in
               '(new_actions, visited_up_nodes) ←
                  search_up fuel G from_node exclude_nodes
                    (visited_nodes |ᵥ VisitedNodes.Visited cur_visited_nodes)
                    edge new_history;
               Ok (cur_actions ++ new_actions,
                   VisitedNodes.ior cur_visited_nodes visited_up_nodes))
          ([], cur_visited_nodes)
      else Ok ([], cur_visited_nodes));
  (* conditions that can absorb the transpose *)
  if is_linear node then
    batch ← filter_batch_size node;
    if bool_decide (batch > 1) then insert_transpose transpose cur_visited_nodes
    else
      qrec ← lookup_qrec G node;
      done (cur_actions ++
              [ReorderLinearAction name "in" transpose_history qrec;
               EndActionDown name]) cur_visited_nodes
  else if bool_decide (Node.cls node = TransposeParameters) then
    _ ← check_for_null_transpose node transpose;
    out0 ← py_nth (Node.out_dims node) 0;
    '(reverses_transpose, old_shape) ←
       reverses_transpose_up transpose (Node.transpose node) out0;
    if reverses_transpose : bool then
      done [DeleteTransposeAction name (residual_reshape old_shape (Dim.shape out0));
            EndActionDown name] cur_visited_nodes
    else
      t ← the_perm transpose;
      new_transpose ← apply_transpose t (Some (Node.transpose node));
      done [SetTransposeAction name new_transpose; EndActionDown name]
        cur_visited_nodes
  else if bool_decide (Node.cls node = OutputParameters) then
    _ ← check_for_null_transpose node transpose;
    if Node.fixed_order node then insert_transpose transpose cur_visited_nodes
    else done [EndActionDown name] cur_visited_nodes
  else if bool_decide (Node.cls node = StridedSliceParameters) &&
          bool_decide (Node.slice_shape node ≠ Node.out_shape node) then
    (* strided slice that is also reshaping *)
    _ ← check_for_null_transpose node transpose;
    '(new_transpose, from_shape, to_shape) ←
       reverse_reshape transpose (Node.slice_shape node) (Node.out_shape node) false;
    if bool_decide (new_transpose = None) then
      insert_transpose transpose cur_visited_nodes
    else
      let cur_actions :=
        cur_actions ++ [TransposeSlidedSlice name transpose to_shape (Some "down")] in
      is_id ← identity_transpose new_transpose;
      if is_id : bool then
        done (cur_actions ++ [EndActionDown name]) cur_visited_nodes
      else
        let transpose_history :=
          transpose_history ++
            [TransposeHistory.mk name (Some (Node.slice_shape node)) new_transpose
               (Some (Node.out_shape node))] in
        '(actions, v) ←
           continue_down_with (search_down fuel) G node exclude_nodes visited_nodes
             cur_visited_nodes cur_actions transpose_history new_transpose;
        done actions v
  else
  match TRANSIENT_ACTIONS (Node.cls node) with
  | Some action =>
      _ ← check_for_null_transpose node transpose;
      r ← reverse_transpose transpose;
      '(actions, v) ←
         continue_down_with (search_down fuel) G node exclude_nodes visited_nodes
           cur_visited_nodes (cur_actions ++ [action name r "down"])
           transpose_history transpose;
      done actions v
  | None =>
  if bool_decide (Node.cls node = ReshapeParameters) then
    _ ← check_for_null_transpose node transpose;
    '(new_transpose, from_shape, to_shape) ←
       reverse_reshape transpose (Dim.shape (Node.old_shape node))
         (Dim.shape (Node.shape node)) false;
    if bool_decide (new_transpose = None) &&
       bool_decide (1 < Dim.rank (Node.shape node))%nat then
      insert_transpose transpose cur_visited_nodes
    else
      (* an action to rewrite the reshape shapes *)
      let cur_actions :=
        cur_actions ++
          [if bool_decide (from_shape = None) || bool_decide (to_shape = None) ||
              bool_decide (from_shape ≠ to_shape)
           then SetReshapeAction name from_shape to_shape
           else DeleteReshapeAction name] in
      is_id ← identity_transpose new_transpose;
      if is_id : bool then
        done (cur_actions ++ [EndActionDown name]) cur_visited_nodes
      else
        let transpose_history :=
          transpose_history ++
            [TransposeHistory.mk name (Some (Dim.shape (Node.old_shape node)))
               new_transpose (Some (Dim.shape (Node.shape node)))] in
        if bool_decide (new_transpose = None) then
          try_except
            ('(actions, v) ←
               continue_down_with (search_down fuel) G node exclude_nodes
                 visited_nodes (VisitedNodes.copy cur_visited_nodes) cur_actions
                 transpose_history new_transpose;
             done actions v)
            (if bool_decide (transpose = None) then Raise CantContinueError
             else insert_transpose transpose cur_visited_nodes)
        else
          '(actions, v) ←
             continue_down_with (search_down fuel) G node exclude_nodes visited_nodes
               cur_visited_nodes cur_actions transpose_history new_transpose;
          done actions v
  else
    '(actions, v) ←
       continue_down_with (search_down fuel) G node exclude_nodes visited_nodes
         cur_visited_nodes cur_actions transpose_history transpose;
    done actions v
  end
  end
with search_up (fuel : nat) (G : Graph) (node : Node.t)
    (exclude_nodes : gset string) (visited_nodes : VisitedNodes.t)
    (out_edge : Edge.t) (transpose_history : list TransposeHistory.t)
    {struct fuel} : Res search_result :=
  match fuel with
  | O => OutOfFuel
  | S fuel =>
  let name := Node.name node in
  let idx := Edge.from_idx out_edge in
  let done (actions : list Action) (v : VisitedNodes.t) : Res search_result :=
    Ok (actions, VisitedNodes.Visited v) in
  let insert_transpose (transpose : perm) (v : VisitedNodes.t) :=
    r ← reverse_transpose transpose;
    done [InsertTransposeAction name "out" idx (Some out_edge) r; EndActionUp name] v in
  last_history ← py_last transpose_history;
  let transpose := TransposeHistory.transpose last_history in
  let cur_visited_nodes := VisitedNodes.visit_up VisitedNodes.empty name idx in
  if is_single_axis transpose then done [EndActionUp name] cur_visited_nodes
  else if Node.SensitiveToOrder node then
    r ← reverse_transpose transpose;
    out_dim ← py_nth (Node.out_dims node) idx;
    let out_shape := Dim.shape out_dim in
    nothing ← transpose_does_nothing r out_shape;
    if nothing : bool then
      r ← reverse_transpose transpose;
      new_shape ← apply_transpose out_shape r;
      if bool_decide (new_shape = out_shape) then
        done [EndActionUp name] cur_visited_nodes
      else
        done [InsertReshapeAction name "out" idx (Some out_edge) out_shape new_shape;
              EndActionUp name] cur_visited_nodes
    else
      _ ← check_for_null_transpose node transpose;
      insert_transpose transpose cur_visited_nodes
  else
  (* first visit all other out edges on this node *)
  '(cur_actions, cur_visited_nodes) ←
     other_out_edges_with (search_down fuel) G node exclude_nodes visited_nodes
       cur_visited_nodes out_edge transpose;
  (* linear layers can absorb the transpose by shuffling their weights *)
  if is_linear node then
    batch ← filter_batch_size node;
    if bool_decide (batch > 1) then
      if bool_decide (transpose = Some (py_tuple [1; 0])) then
        done (cur_actions ++ [SwitchBatchLinearAction name; EndActionUp name])
          cur_visited_nodes
      else insert_transpose transpose cur_visited_nodes
    else
      qrec ← lookup_qrec G node;
      done (cur_actions ++
              [ReorderLinearAction name "out" transpose_history qrec;
               EndActionUp name]) cur_visited_nodes
  else if bool_decide (Node.cls node = TransposeParameters) then
    (* the transpose may reverse the propagated transpose or be reordered *)
    _ ← check_for_null_transpose node transpose;
    t ← the_perm transpose;
    if bool_decide (items (Node.transpose node) = t) then
      out0 ← py_nth (Node.out_dims node) 0;
      reshape ← requires_reshape (items (Node.transpose node)) t out0;
      done (cur_actions ++ [DeleteTransposeAction name reshape; EndActionUp name])
        cur_visited_nodes
    else
      r ← reverse_transpose transpose;
      new_transpose ← apply_transpose (items (Node.transpose node)) r;
      done [SetTransposeAction name new_transpose; EndActionDown name]
        cur_visited_nodes
  else if bool_decide (Node.cls node = InputParameters) then
    (* an input can be reordered if it is not frozen *)
    _ ← check_for_null_transpose node transpose;
    if Node.fixed_order node then
      done [InsertTransposeAction name "out" idx (Some out_edge) transpose;
            EndActionUp name] cur_visited_nodes
    else
      r ← reverse_transpose transpose;
      done (cur_actions ++ [ReorderInputDims name transpose_history r; EndActionUp name])
        cur_visited_nodes
  else if bool_decide (Node.cls node = ConstantInputParameters) then
    _ ← check_for_null_transpose node transpose;
    r ← reverse_transpose transpose;
    done (cur_actions ++ [ReorderConstantInput name transpose_history r; EndActionUp name])
      cur_visited_nodes
  else if bool_decide (Node.cls node = StridedSliceParameters) &&
          Node.changes_shape node then
    (* a strided slice that also has a reshape *)
    _ ← check_for_null_transpose node transpose;
    '(new_transpose, from_shape, to_shape) ←
       reverse_reshape transpose (Node.slice_shape node) (Node.out_shape node) true;
    if bool_decide (new_transpose = None) then
      r ← reverse_transpose transpose;
      done [InsertTransposeAction name "out" 0 None r; EndActionDown name]
        cur_visited_nodes
    else
      r ← reverse_transpose transpose;
      let cur_actions := cur_actions ++ [TransposeSlidedSlice name r to_shape None] in
      is_id ← identity_transpose new_transpose;
      if is_id : bool then
        done (cur_actions ++ [EndActionUp name]) cur_visited_nodes
      else
        in0 ← py_nth (Node.in_dims node) 0;
        let transpose_history :=
          transpose_history ++
            [TransposeHistory.mk name (Some (Node.out_shape node)) new_transpose
               (Some (Dim.shape in0))] in
        '(actions, v) ←
           continue_up_with (search_up fuel) G node exclude_nodes visited_nodes
             cur_visited_nodes cur_actions transpose_history new_transpose;
        done actions v
  else
  match TRANSIENT_ACTIONS (Node.cls node) with
  | Some action =>
      _ ← check_for_null_transpose node transpose;
      r ← reverse_transpose transpose;
      '(actions, v) ←
         continue_up_with (search_up fuel) G node exclude_nodes visited_nodes
           cur_visited_nodes (cur_actions ++ [action name r "up"])
           transpose_history transpose;
      done actions v
  | None =>
  if bool_decide (Node.cls node = ReshapeParameters) then
    _ ← check_for_null_transpose node transpose;
    (* the reversed transpose is being propagated up *)
    '(new_transpose, from_shape, to_shape) ←
       reverse_reshape transpose (Dim.shape (Node.old_shape node))
         (Dim.shape (Node.shape node)) true;
    if bool_decide (new_transpose = None) &&
       bool_decide (1 < Dim.rank (Node.old_shape node))%nat then
      insert_transpose transpose cur_visited_nodes
    else
      let transpose_history :=
        transpose_history ++
          [TransposeHistory.mk name (Some (Dim.shape (Node.shape node)))
             new_transpose (Some (Dim.shape (Node.old_shape node)))] in
      let cur_actions :=
        cur_actions ++
          [if bool_decide (from_shape = None) || bool_decide (to_shape = None) ||
              bool_decide (from_shape ≠ to_shape)
           then SetReshapeAction name from_shape to_shape
           else DeleteReshapeAction name] in
      is_id ← identity_transpose new_transpose;
      if is_id : bool then
        done (cur_actions ++ [EndActionUp name]) cur_visited_nodes
      else if bool_decide (new_transpose = None) then
        try_except
          ('(actions, v) ←
             continue_up_with (search_up fuel) G node exclude_nodes visited_nodes
               (VisitedNodes.copy cur_visited_nodes) cur_actions transpose_history
               transpose;
           done actions v)
          (if bool_decide (transpose = None) then Raise CantContinueError
           else insert_transpose transpose cur_visited_nodes)
      else
        '(actions, v) ←
           continue_up_with (search_up fuel) G node exclude_nodes visited_nodes
             cur_visited_nodes cur_actions transpose_history new_transpose;
        done actions v
  else
    '(actions, v) ←
       continue_up_with (search_up fuel) G node exclude_nodes visited_nodes
         cur_visited_nodes cur_actions transpose_history transpose;
    done actions v
  end
  end.

Definition continue_down (fuel : nat) := continue_down_with (search_down fuel).
Definition continue_up (fuel : nat) := continue_up_with (search_up fuel).

End Explorers.

(** ** Scoring: count_eliminated and transpose_moved *)

Definition count_eliminated (actions : option (list Action)) : Z :=
  match actions with
  | None => -1
  | Some actions =>
      let deleted := Z.of_nat (length (filter is_DeleteTransposeAction actions)) in
      let added := Z.of_nat (length (filter is_InsertTransposeAction actions)) in
      deleted - added
  end.

(** The while loop of insert_step_idx, which skips past transposes.  A
    chain of transposes longer than the number of nodes of the graph comes
    back to a node, and the loop does not end. *)
Fixpoint skip_transposes (fuel : nat) (G : Graph) (edge : Edge.t) : Res Edge.t :=
  from_node ← get_node G (Edge.from_node edge);
  if bool_decide (Node.cls from_node = TransposeParameters) then
    match fuel with
    | O => OutOfFuel
    | S fuel =>
        edge ← py_nth (in_edges G (Edge.from_node edge)) 0;
        skip_transposes fuel G edge
    end
  else Ok edge.

Definition insert_step_idx (G : Graph) (action : Action) : Res Z :=
  match action with
  | InsertTransposeAction node direction idx _ _ =>
      if bool_decide (direction = "in") then
        edge ← indexed_in_edges G node idx;
        edge ← skip_transposes (size (nodes G)) G edge;
        from_node ← get_node G (Edge.from_node edge);
        Ok (Node.step_idx from_node)
      else
        node ← get_node G node;
        Ok (Node.step_idx node)
  | _ => Raise TypeError
  end.

Definition delete_step_idx (G : Graph) (action : Action) : Res Z :=
  match action with
  | DeleteTransposeAction node _ =>
      edge ← py_nth (in_edges G node) 0;
      from_node ← get_node G (Edge.from_node edge);
      Ok (Node.step_idx from_node)
  | _ => Raise TypeError
  end.

(** sum(f(action) for action in actions). *)
Definition sum_steps (f : Action → Res Z) (actions : list Action) : Res Z :=
  for_each actions (λ acc action, z ← f action; Ok (acc + z)) 0.

Definition transpose_moved (G : Graph) (actions : option (list Action)) : Res bool :=
  match actions with
  | None => Ok false
  | Some actions =>
      insert_steps ← sum_steps (insert_step_idx G) (filter is_InsertTransposeAction actions);
      delete_steps ← sum_steps (delete_step_idx G) (filter is_DeleteTransposeAction actions);
      Ok (bool_decide (insert_steps > delete_steps))
  end.

(** The evaluation of the two results in the driver: which of them, if
    any, is committed for the transpose. *)
Inductive choice : Type :=
| CommitUp
| CommitDown
| CommitNothing.

#[global] Instance choice_eq_dec : EqDecision choice.
Proof. solve_decision. Defined.

Definition evaluate_results (G : Graph) (cur_actions_up cur_actions_down : option (list Action))
    : Res choice :=
  let up_count := count_eliminated cur_actions_up in
  let down_count := count_eliminated cur_actions_down in
  if bool_decide (up_count > 0) && bool_decide (up_count >= down_count) then
    Ok CommitUp
  else if bool_decide (down_count > 0) then Ok CommitDown
  else if bool_decide (down_count = 0) then
    moved ← transpose_moved G cur_actions_down;
    Ok (if moved : bool then CommitDown else CommitNothing)
  else Ok CommitNothing.

(** ** Cleanup: remove_silly_reshapes, combine_reshapes, combine_transposes *)

Definition is_silly_reshape (node : Node.t) : Prop :=
  Dim.shape (Node.old_shape node) = Dim.shape (Node.shape node).

#[global] Instance is_silly_reshape_dec node : Decision (is_silly_reshape node).
Proof. unfold is_silly_reshape. apply _. Defined.

Definition remove_silly_reshapes (G : Graph) : Graph :=
  let silly_reshapes := filter is_silly_reshape (nodes_of_class G ReshapeParameters) in
  foldl (λ G reshape, remove_and_reconnect G (Node.name reshape)) G silly_reshapes.

Definition is_pass_class (c : NodeClass) : bool :=
  bool_decide (c = CopyParameters) || bool_decide (c = UnaryOpParameters) ||
  bool_decide (c = ActivationParameters).

(** search_edge_down with the classes the two callers pass: the middle
    classes are Copy, UnaryOp and Activation.  The recursion follows the
    single out-edge of each middle node. *)
Fixpoint search_edge_down (fuel : nat) (G : Graph) (edge : Edge.t)
    (stop_class : NodeClass) : Res (option string) :=
  match fuel with
  | O => OutOfFuel
  | S fuel =>
      node ← get_node G (Edge.to_node edge);
      if bool_decide (Node.cls node = stop_class) then Ok (Some (Node.name node))
      else if is_pass_class (Node.cls node) then
        match out_edges G (Node.name node) with
        | [edge] => search_edge_down fuel G edge stop_class
        | _ => Ok None
        end
      else Ok None
  end.

(** find_sequences: the set of end nodes is popped from the front; the
    order in which a Python set pops is not specified. *)
Fixpoint find_sequences (fuel : nat) (G : Graph) (end_node_class : NodeClass)
    (todo : list string) : Res (list (string * string)) :=
  match todo with
  | [] => Ok []
  | node :: todo =>
      match fuel with
      | O => OutOfFuel
      | S fuel =>
          match out_edges G node with
          | [edge] =>
              end_node ← search_edge_down (S (size (nodes G))) G edge end_node_class;
              match end_node with
              | None => find_sequences fuel G end_node_class todo
              | Some end_node =>
                  pairs ← find_sequences fuel G end_node_class
                             (filter (λ n, n ≠ end_node) todo);
                  Ok ((node, end_node) :: pairs)
              end
          | _ => find_sequences fuel G end_node_class todo
          end
      end
  end.

Definition sequences_of (G : Graph) (c : NodeClass) : Res (list (string * string)) :=
  let todo := remove_dups (Node.name <$> nodes_of_class G c) in
  find_sequences (length todo) G c todo.

Definition set_node (G : Graph) (node : Node.t) : Graph :=
  mkGraph (<[Node.name node := node]> (nodes G)) (edges G) (quantization G).

Definition with_transpose (node : Node.t) (transpose : pyseq) : Node.t :=
  Node.mk (Node.name node) (Node.cls node) (Node.SensitiveToOrder node)
    (Node.Broadcastable node) (Node.in_dims node) (Node.out_dims node)
    (Node.step_idx node) transpose (Node.old_shape node) (Node.shape node)
    (Node.fixed_order node) (Node.batch_size node) (Node.contained_filters node)
    (Node.slice_shape node) (Node.out_shape node) (Node.changes_shape node).

Definition with_shape (node : Node.t) (shape : Dim.t) : Node.t :=
  Node.mk (Node.name node) (Node.cls node) (Node.SensitiveToOrder node)
    (Node.Broadcastable node) (Node.in_dims node) (Node.out_dims node)
    (Node.step_idx node) (Node.transpose node) (Node.old_shape node) shape
    (Node.fixed_order node) (Node.batch_size node) (Node.contained_filters node)
    (Node.slice_shape node) (Node.out_shape node) (Node.changes_shape node).

(** ** The driver: eliminate_transposes *)

(** The lines the driver writes to the log, as events. *)
Inductive event : Type :=
| LogStep (pass_count : Z)
| LogTrying (transpose_node : string)
| LogFoundUp (transpose_node : string) (up_count : Z)
| LogFoundDown (transpose_node : string) (down_count : Z)
| LogNoElimination (transpose_node : string)
| LogEliminate
| LogNothingFound
| LogDebug
| LogFinished.

(** The graph is mutated in place and the log is appended to: both are
    the state of the driver and survive an exception. *)
Record DriverState : Type := mkState {
  graph : Graph;
  log : list event
}.

Definition M (A : Type) : Type := DriverState → Res A * DriverState.

#[global] Instance M_ret : MRet M := λ A a st, (Ok a, st).
#[global] Instance M_bind : MBind M := λ A B f m st,
  match m st with
  | (Ok a, st') => f a st'
  | (Raise e, st') => (Raise e, st')
  | (OutOfFuel, st') => (OutOfFuel, st')
  end.

Definition lift {A} (r : Res A) : M A := λ st, (r, st).
Definition get_graph : M Graph := λ st, (Ok (graph st), st).
Definition put_graph (G : Graph) : M unit := λ st, (Ok (), mkState G (log st)).
Definition info (e : event) : M unit :=
  λ st, (Ok (), mkState (graph st) (log st ++ [e])).

(** A for loop whose body mutates the graph. *)
Fixpoint for_each_M {A} (l : list A) (body : A → M unit) : M unit :=
  match l with
  | [] => mret ()
  | a :: l' => _ ← body a; for_each_M l' body
  end.

(** The execution of actions and the shape inference of the graph are not
    part of the source.  [action.execute(G)] changes the graph in place:
    [execute] gives the result of the call and the graph as the call
    leaves it, also when it raises. *)
Class GraphBackend : Type := {
  execute : Action → Graph → Res unit * Graph;
  add_dimensions : Graph → Res Graph
}.

(** A call that changes the graph in place. *)
Definition in_place (f : Graph → Res unit * Graph) : M unit :=
  λ st, let '(r, G) := f (graph st) in (r, mkState G (log st)).

(** The key of [sorted(..., key=lambda node: node.name)]. *)
Definition name_le (a b : Node.t) : Prop :=
  String.leb (Node.name a) (Node.name b) = true.

#[global] Instance name_le_dec : RelDecision name_le.
Proof. intros a b. unfold name_le. apply _. Defined.

Definition as_visited (v : VisitedNodes.operand) : Res VisitedNodes.t :=
  match v with
  | VisitedNodes.Visited v => Ok v
  | VisitedNodes.Plain _ => Raise AttributeError
  end.

Section Driver.

Context `{!TransposeHelpers} `{!GraphBackend}.

Definition apply_actions (results : list Action) : M unit :=
  for_each_M results (λ action, in_place (execute action)).

Definition combine_transposes : M unit :=
  G ← get_graph;
  trans_pairs ← lift (sequences_of G TransposeParameters);
  for_each_M trans_pairs
    (λ '(tstart, tend),
       G ← get_graph;
       tstart ← lift (get_node G tstart);
       tend ← lift (get_node G tend);
       new_transpose ← lift (apply_transpose (items (Node.transpose tstart))
                               (Some (Node.transpose tend)));
       put_graph (remove_and_reconnect
                    (set_node G (with_transpose tstart (py_list new_transpose)))
                    (Node.name tend))).

Definition combine_reshapes : M unit :=
  G ← get_graph;
  reshape_pairs ← lift (sequences_of G ReshapeParameters);
  for_each_M reshape_pairs
    (λ '(rstart, rend),
       G ← get_graph;
       rstart ← lift (get_node G rstart);
       rend ← lift (get_node G rend);
       put_graph (remove_and_reconnect (set_node G (with_shape rstart (Node.shape rend)))
                    (Node.name rend))).

(** The arguments of eliminate_transposes other than the graph.
    [debug_function] tells whether a hook is given; its call after a pass
    is a line of the log. *)
Record Options : Type := mkOptions {
  debug_function : bool;
  steps : option Z;
  single_step : bool;
  do_silly : bool;
  only_up : bool
}.

Variable fuel : nat.
Variable opts : Options.

(** The first try block of the driver: search up for elimination. *)
Definition search_upwards (G : Graph) (transpose_node : Node.t)
    (visited_nodes : gset string) : Res (option (list Action * VisitedNodes.t)) :=
  let name := Node.name transpose_node in
  try_except
    (in_edge ← py_nth (in_edges G name) 0;
     if bool_decide (Edge.from_node in_edge ∈ visited_nodes) then Raise CantContinueError
     else
       let cur_visited_up := VisitedNodes.visit_up VisitedNodes.empty name 0 in
       from_node ← get_node G (Edge.from_node in_edge);
       out0 ← py_nth (Node.out_dims transpose_node) 0;
       r ← reverse_transpose (Some (Node.transpose transpose_node));
       in0 ← py_nth (Node.in_dims transpose_node) 0;
       '(cur_actions_up, cur_visited_up) ←
          search_up fuel G from_node visited_nodes cur_visited_up in_edge
            [TransposeHistory.mk name (Some (Dim.shape out0)) r (Some (Dim.shape in0))];
       cur_visited_up ← as_visited cur_visited_up;
       Ok (Some (DeleteTransposeAction name None :: cur_actions_up, cur_visited_up)))
    (Ok None).

(** The second try block of the driver: search down for elimination. *)
Definition search_downwards (G : Graph) (transpose_node : Node.t)
    (visited_nodes : gset string) : Res (option (list Action * VisitedNodes.t)) :=
  let name := Node.name transpose_node in
  try_except
    (if only_up opts then Raise CantContinueError
     else
       let cur_visited_down := VisitedNodes.visit_down VisitedNodes.empty name 0 in
       '(cur_actions_down, cur_visited_down) ←
          for_each (out_edges G name)
            (λ '(cur_actions_down, cur_visited_down) edge,
               if bool_decide (Edge.to_node edge ∈ visited_nodes) then
                 Raise CantContinueError
               else if VisitedNodes.contains cur_visited_down (Edge.to_node edge) then
                 Ok (cur_actions_down, cur_visited_down)
               else
                 to_node ← get_node G (Edge.to_node edge);
                 in0 ← py_nth (Node.in_dims transpose_node) 0;
                 out0 ← py_nth (Node.out_dims transpose_node) 0;
                 '(this_actions_down, this_visited_down) ←
                    search_down fuel G to_node visited_nodes cur_visited_down edge
                      [TransposeHistory.mk name (Some (Dim.shape in0))
                         (Some (Node.transpose transpose_node))
                         (Some (Dim.shape out0))];
                 Ok (cur_actions_down ++ this_actions_down,
                     VisitedNodes.ior cur_visited_down this_visited_down))
            ([], cur_visited_down);
       Ok (Some (DeleteTransposeAction name None :: cur_actions_down, cur_visited_down)))
    (Ok None).

(** The loop [while transposes] of one pass.  It returns found_results
    and the actions collected so far. *)
Fixpoint examine_transposes (transposes : list Node.t) (found_results : bool)
    (actions : list Action) (visited_nodes : gset string) : M (bool * list Action) :=
  match transposes with
  | [] => mret (found_results, actions)
  | transpose_node :: transposes =>
      let name := Node.name transpose_node in
      if bool_decide (name ∈ visited_nodes) then
        examine_transposes transposes found_results actions visited_nodes
      else
        _ ← info (LogTrying name);
        G ← get_graph;
        up ← lift (search_upwards G transpose_node visited_nodes);
        down ← lift (search_downwards G transpose_node visited_nodes);
        c ← lift (evaluate_results G (fst <$> up) (fst <$> down));
        let commit (result : option (list Action * VisitedNodes.t)) : M (bool * list Action) :=
          '(cur_actions, cur_visited) ← lift (match result with
                                              | Some r => Ok r
                                              | None => Raise TypeError
                                              end);
          let actions := actions ++ cur_actions in
          let visited_nodes :=
            visited_nodes ∪ dom (VisitedNodes.nodes cur_visited) ∪ {[name]} in
          if single_step opts || bool_decide (steps opts ≠ None) then mret (true, actions)
          else examine_transposes transposes true actions visited_nodes in
        match c with
        | CommitUp =>
            _ ← info (LogFoundUp name (count_eliminated (fst <$> up)));
            commit up
        | CommitDown =>
            _ ← info (LogFoundDown name (count_eliminated (fst <$> down)));
            commit down
        | CommitNothing =>
            _ ← info (LogNoElimination name);
            examine_transposes transposes found_results actions visited_nodes
        end
  end.

(** The body of the loop [while found_results], after the test of the
    number of passes.  It returns found_results. *)
Definition driver_pass (pass_count : Z) : M bool :=
  _ ← info (LogStep pass_count);
  G ← get_graph;
  let transposes :=
    merge_sort name_le (nodes_of_class G TransposeParameters) in
  '(found_results, actions) ← examine_transposes transposes false [] ∅;
  _ ← (if found_results : bool
       then _ ← info LogEliminate; apply_actions actions
       else info LogNothingFound);
  _ ← (if do_silly opts then
         G ← get_graph;
         _ ← put_graph (remove_silly_reshapes G);
         _ ← combine_reshapes;
         combine_transposes
       else (mret () : M unit));
  G ← get_graph;
  G ← lift (add_dimensions G);
  _ ← put_graph G;
  _ ← (if debug_function opts then info LogDebug else (mret () : M unit));
  (mret found_results : M bool).

Definition stuck_message : string :=
  "Sorry, eliminate transposes seems to be stuck in a loop. Please report to GreenWaves.".

(** The loop [while found_results] over the body [pass]; [loop_fuel]
    bounds the number of iterations of the model. *)
Fixpoint while_found_results (pass : Z → M bool) (steps : option Z)
    (loop_fuel : nat) (found_results : bool) (pass_count : Z) : M Z :=
  if found_results then
    let continue : M Z :=
      match loop_fuel with
      | O => lift OutOfFuel
      | S loop_fuel =>
          let pass_count := pass_count + 1 in
          found_results ← pass pass_count;
          while_found_results pass steps loop_fuel found_results pass_count
      end in
    match steps with
    | Some steps => if bool_decide (pass_count >= steps) then mret pass_count else continue
    | None =>
        if bool_decide (pass_count >= 50) then lift (Raise (ValueError stuck_message))
        else continue
    end
  else mret pass_count.

(** eliminate_transposes; the model returns the number of passes made. *)
Definition eliminate_transposes (loop_fuel : nat) : M Z :=
  pass_count ← while_found_results driver_pass (steps opts) loop_fuel true 0;
  _ ← info LogFinished;
  mret pass_count.

End Driver.

(** ** The modules outside the source, modelled from the spec *)

Module SpecModel.

(** Python's [elems[i]] for an integer index: negative indices count from
    the end. *)
Definition py_index {A} (elems : list A) (i : Z) : Res A :=
  if bool_decide (0 ≤ i) then py_nth elems (Z.to_nat i)
  else if bool_decide (- Z.of_nat (length elems) ≤ i)
  then py_nth elems (Z.to_nat (Z.of_nat (length elems) + i))
  else Raise IndexError.

(** Modelled from the spec: apply_transpose of transpose_helpers.
    "apply(permutation, shape) produces a shape of the same rank whose i-th
    element is shape[permutation[i]]"; the source passes the elements first
    and the permutation second. *)
Definition apply_transpose (elems : list Z) (transpose : perm) : Res (list Z) :=
  t ← the_perm transpose;
  mapM (py_index elems) t.

(** [trans.index(i)]. *)
Fixpoint index_of (i : Z) (trans : list Z) : Res Z :=
  match trans with
  | [] => Raise (ValueError "is not in list")
  | x :: trans => if bool_decide (x = i) then Ok 0 else Z.succ <$> index_of i trans
  end.

(** Modelled from the spec: reverse_transpose of transpose_helpers.
    "reverse(p) is the inverse permutation"; None is passed through, and
    the inverse is built as a list. *)
Definition reverse_transpose (transpose : perm) : Res perm :=
  match transpose with
  | None => Ok None
  | Some t =>
      r ← mapM (λ i, index_of i (items t)) (range (length (items t)));
      Ok (Some (py_list r))
  end.

(** Modelled from the spec: identity_transpose of transpose_helpers.
    "is_identity(p): true iff p[i] == i for all i". *)
Definition identity_transpose (transpose : perm) : Res bool :=
  match transpose with
  | None => Ok false
  | Some t => Ok (bool_decide (items t = range (length (items t))))
  end.

(** Modelled from the spec: transpose_does_nothing of transpose_helpers.
    "does_nothing(p, shape): true iff every axis i with p[i] ≠ i has
    shape[p[i]] == 1 and shape[i] == 1". *)
Definition transpose_does_nothing (transpose : perm) (shape : list Z) : Res bool :=
  match transpose with
  | None => Ok false
  | Some t =>
      checks ← mapM (λ i,
                  p_i ← py_index (items t) i;
                  if bool_decide (p_i = i) then Ok true
                  else
                    a ← py_index shape p_i;
                    b ← py_index shape i;
                    Ok (bool_decide (a = 1) && bool_decide (b = 1)))
                (range (length (items t)));
      Ok (forallb id checks)
  end.

(** Modelled from the spec: reverses_transpose_up of transpose_helpers, the
    test of the downward explorer at a Transpose node, "if the incoming
    permutation is the inverse of this node's permutation": the items of
    the two are compared.  No residual reshape is reported. *)
Definition reverses_transpose_up (transpose : perm) (node_transpose : pyseq)
    (dim : Dim.t) : Res (bool * option (list Z)) :=
  r ← reverse_transpose (Some node_transpose);
  Ok (bool_decide (items <$> transpose = items <$> r), None).

(** Modelled from the spec: reverse_reshape of compatible_transposes, which
    returns "(null, …, …) when no compatible permutation exists".  The
    reshape reasoner itself is not modelled: this one finds no compatible
    permutation for any reshape. *)
Definition reverse_reshape (transpose : perm) (old_shape new_shape : list Z)
    (going_up : bool) : Res (perm * option (list Z) * option (list Z)) :=
  Ok (None, None, None).

(** Modelled from the spec: the layout shape of a Dim, the shape "where
    unit axes have been elided". *)
Definition layout_shape (dim : Dim.t) : list Z :=
  filter (λ d, d ≠ 1) (Dim.shape dim).

(** Modelled from the spec: calc_transpose of a Dim, the Dim with the
    permutation applied to its shape. *)
Definition calc_transpose (dim : Dim.t) (transpose : list Z) : Res Dim.t :=
  Dim.mk <$> apply_transpose (Dim.shape dim) (Some (py_list transpose)).

#[global] Instance helpers : TransposeHelpers :=
  Build_TransposeHelpers apply_transpose reverse_transpose transpose_does_nothing
    identity_transpose reverses_transpose_up reverse_reshape layout_shape
    calc_transpose.

End SpecModel.

Module SpecBackend.

Definition with_class (node : Node.t) (c : NodeClass) : Node.t :=
  Node.mk (Node.name node) c (Node.SensitiveToOrder node)
    (Node.Broadcastable node) (Node.in_dims node) (Node.out_dims node)
    (Node.step_idx node) (Node.transpose node) (Node.old_shape node) (Node.shape node)
    (Node.fixed_order node) (Node.batch_size node) (Node.contained_filters node)
    (Node.slice_shape node) (Node.out_shape node) (Node.changes_shape node).

Definition with_reshape (node : Node.t) (old_shape shape : Dim.t) : Node.t :=
  Node.mk (Node.name node) (Node.cls node) (Node.SensitiveToOrder node)
    (Node.Broadcastable node) (Node.in_dims node) (Node.out_dims node)
    (Node.step_idx node) (Node.transpose node) old_shape shape
    (Node.fixed_order node) (Node.batch_size node) (Node.contained_filters node)
    (Node.slice_shape node) (Node.out_shape node) (Node.changes_shape node).

(** A new single-input node of class [c] on the way of [edge]. *)
Definition splice (G : Graph) (edge : Edge.t) (new_name : string) (c : NodeClass)
    (transpose : pyseq) (in_shape out_shape : list Z) : Graph :=
  let new_node :=
    Node.mk new_name c false false [Dim.mk in_shape] [Dim.mk out_shape] 0 transpose
      (Dim.mk in_shape) (Dim.mk out_shape) false 0 [] [] [] false in
  mkGraph (<[new_name := new_node]> (nodes G))
    (filter (λ e, e ≠ edge) (edges G) ++
       [Edge.mk (Edge.from_node edge) (Edge.from_idx edge) new_name 0;
        Edge.mk new_name 0 (Edge.to_node edge) (Edge.to_idx edge)])
    (quantization G).

(** The edge an Insert action names: the in-edge at [idx], the out-edge it
    carries, or the first out-edge at [idx]. *)
Definition target_edge (G : Graph) (node direction : string) (idx : nat)
    (out_edge : option Edge.t) : Res Edge.t :=
  if bool_decide (direction = "in") then indexed_in_edges G node idx
  else match out_edge with
       | Some e => Ok e
       | None => py_nth (filter (λ e, Edge.from_idx e = idx) (out_edges G node)) 0
       end.

(** The shape on an edge: the shape of the output of its source. *)
Definition edge_shape (G : Graph) (edge : Edge.t) : Res (list Z) :=
  from_node ← get_node G (Edge.from_node edge);
  Dim.shape <$> py_nth (Node.out_dims from_node) (Edge.from_idx edge).

(** Modelled from the spec: the execute method of the actions.  "Delete*:
    removes the node and reconnects its single input to its consumer(s).  If
    a residual shape mismatch exists a replacement reshape is spliced in.
    Insert*: creates a new node, splices it on a given edge.  Set*: mutates
    the target node's attributes in place."  The reorder and switch actions
    and the rewrites of transient operators change tensors and axis
    attributes, which the model does not carry, and End* "carry no graph
    effect": they leave the graph as it is. *)
Definition executed (action : Action) (G : Graph) : Res Graph :=
  match action with
  | DeleteTransposeAction node None | DeleteReshapeAction node =>
      _ ← get_node G node;
      Ok (remove_and_reconnect G node)
  | DeleteTransposeAction node (Some (old_shape, shape)) =>
      n ← get_node G node;
      Ok (set_node G (with_reshape (with_class n ReshapeParameters)
                        (Dim.mk old_shape) (Dim.mk shape)))
  | SetTransposeAction node transpose =>
      n ← get_node G node;
      Ok (set_node G (with_transpose n (py_list transpose)))
  | SetReshapeAction node in_shape out_shape =>
      n ← get_node G node;
      Ok (set_node G (with_reshape n
                        (default (Node.old_shape n) (Dim.mk <$> in_shape))
                        (default (Node.shape n) (Dim.mk <$> out_shape))))
  | InsertTransposeAction node direction idx out_edge transpose =>
      edge ← target_edge G node direction idx out_edge;
      t ← match transpose with Some t => Ok t | None => Raise TypeError end;
      in_shape ← edge_shape G edge;
      out_shape ← SpecModel.apply_transpose in_shape transpose;
      Ok (splice G edge (node +:+ "_trans_" +:+ direction +:+ pretty idx)
            TransposeParameters t in_shape out_shape)
  | InsertReshapeAction node direction idx out_edge in_shape out_shape =>
      edge ← target_edge G node direction idx out_edge;
      Ok (splice G edge (node +:+ "_reshape_" +:+ direction +:+ pretty idx)
            ReshapeParameters (py_list []) in_shape out_shape)
  | _ => Ok G
  end.

(** The call [action.execute(G)] of the model: an action that raises has
    not changed the graph. *)
Definition execute (action : Action) (G : Graph) : Res unit * Graph :=
  match executed action G with
  | Ok G' => (Ok (), G')
  | Raise e => (Raise e, G)
  | OutOfFuel => (OutOfFuel, G)
  end.

(** Modelled from the spec: add_dimensions, the re-run of shape inference.
    The shapes of the model are those the actions leave. *)
Definition add_dimensions (G : Graph) : Res Graph := Ok G.

#[global] Instance backend : GraphBackend :=
  Build_GraphBackend execute add_dimensions.

(** A backend whose actions have no effect on the graph: a graph on which
    every pass finds again what the pass before found. *)
Definition stuck : GraphBackend :=
  Build_GraphBackend (λ _ G, (Ok (), G)) add_dimensions.

End SpecBackend.

(** ** Vocabulary of the properties *)

(** The tags of a node, the empty set when it has no entry. *)
Definition tags_of (s : VisitedNodes.t) (n : string) : gset string :=
  default ∅ (VisitedNodes.nodes s !! n).

(** A tag of the given direction is present: what [visited_down(node)] and
    [visited_up(node)] test without an index. *)
Definition visited_in (tags : gset string) (direction : string) : Prop :=
  ∃ k, k ∈ tags ∧ String.prefix direction k = true.

#[global] Instance visited_in_dec tags direction : Decision (visited_in tags direction).
Proof. unfold visited_in. apply (set_Exists_dec (λ k, String.prefix direction k = true)). Defined.

Definition opposite (direction : string) : string :=
  if decide (direction = "up") then "down" else "up".

(** The layout-flexible terminals: a Constant, an Input or an Output
    without fixed_order, a FullyConnected with a single batch. *)
Definition LayoutFlexible_terminal (node : Node.t) : Prop :=
  Node.cls node = ConstantInputParameters ∨
  (Node.cls node = InputParameters ∧ Node.fixed_order node = false) ∨
  (Node.cls node = OutputParameters ∧ Node.fixed_order node = false) ∨
  (Node.cls node = FcParameters ∧ Node.batch_size node = 1).

(** A permutation applied to a sequence, in the words of the spec:
    "apply(permutation, shape) produces a shape of the same rank whose i-th
    element is shape[permutation[i]]". *)
Definition permuted (elems : list Z) (permutation : list Z) : list Z :=
  (λ i, default 0 (elems !! Z.to_nat i)) <$> permutation.

(** "compose(p, q): applying p then q; defined as apply(q, p)". *)
Definition compose (p q : list Z) : list Z := permuted p q.

(** [p] is the inverse of [q]: they have the same length and q followed by
    p is the identity, "compose(p, reverse(p)) is the identity of length
    len(p)". *)
Definition inverse_of (p q : list Z) : Prop :=
  length p = length q ∧ compose q p = range (length q).

#[global] Instance inverse_of_dec p q : Decision (inverse_of p q).
Proof. unfold inverse_of. apply _. Defined.

(** The actions of the result of a direction, None when it failed. *)
Definition actions_of (result : option (list Action * VisitedNodes.t))
    : option (list Action) :=
  fst <$> result.

(** The actions a choice commits. *)
Definition committed (c : choice) (up down : option (list Action * VisitedNodes.t))
    : list Action :=
  match c with
  | CommitUp => default [] (actions_of up)
  | CommitDown => default [] (actions_of down)
  | CommitNothing => []
  end.

(** The nodes a choice claims: the nodes of the visited set of the result
    it commits. *)
Definition claimed (c : choice) (up down : option (list Action * VisitedNodes.t))
    : gset string :=
  match c with
  | CommitUp => default ∅ ((λ r, dom (VisitedNodes.nodes r.2)) <$> up)
  | CommitDown => default ∅ ((λ r, dom (VisitedNodes.nodes r.2)) <$> down)
  | CommitNothing => ∅
  end.

(** The line of the log that tells the choice for a transpose. *)
Definition choice_event (name : string) (c : choice)
    (up down : option (list Action * VisitedNodes.t)) : event :=
  match c with
  | CommitUp => LogFoundUp name (count_eliminated (actions_of up))
  | CommitDown => LogFoundDown name (count_eliminated (actions_of down))
  | CommitNothing => LogNoElimination name
  end.

(** The transpose moved downstream: the step indices of the inserted
    transposes sum to more than those of the producers of the deleted
    transposes. *)
Definition moved_downstream (G : Graph) (actions : list Action) : Prop :=
  ∃ insert_steps delete_steps,
    sum_steps (insert_step_idx G) (filter is_InsertTransposeAction actions)
      = Ok insert_steps ∧
    sum_steps (delete_step_idx G) (filter is_DeleteTransposeAction actions)
      = Ok delete_steps ∧
    insert_steps > delete_steps.

(** The score of a direction in the words of the spec: the DeleteTranspose
    actions counted one by one, minus the InsertTranspose actions, and -1
    for a direction that failed. *)
Fixpoint count_actions (p : Action → bool) (actions : list Action) : Z :=
  match actions with
  | [] => 0
  | a :: actions => (if p a then 1 else 0) + count_actions p actions
  end.

Definition score (actions : option (list Action)) : Z :=
  match actions with
  | None => -1
  | Some actions =>
      count_actions is_DeleteTransposeAction actions -
      count_actions is_InsertTransposeAction actions
  end.

(** The passes that a log records: each pass starts with [LogStep]. *)
Definition is_LogStep (e : event) : bool :=
  match e with LogStep _ => true | _ => false end.

Definition passes_logged (l : list event) : nat := length (filter is_LogStep l).

(** A transpose is examined. *)
Definition is_attempt (e : event) : bool :=
  match e with LogTrying _ => true | _ => false end.

(** A result is selected for a transpose. *)
Definition is_commit (e : event) : bool :=
  match e with LogFoundUp _ _ | LogFoundDown _ _ => true | _ => false end.

(** [n] passes in a row, numbered from [pass_count + 1], find results: the
    state they leave. *)
Fixpoint passes_found (pass : Z → M bool) (n : nat) (pass_count : Z)
    (st : DriverState) : option DriverState :=
  match n with
  | O => Some st
  | S n =>
      match pass (pass_count + 1) st with
      | (Ok true, st') => passes_found pass n (pass_count + 1) st'
      | _ => None
      end
  end.

(** The limit of the number of passes. *)
Definition pass_limit (steps : option Z) : Z := default 50 steps.

(** A computation of the driver that appends to the log and starts no
    pass. *)
Definition quiet {A} (m : M A) : Prop :=
  ∀ st, ∃ l, log (m st).2 = log st ++ l ∧ passes_logged l = 0%nat.

(** A selection, if the events have one, is their last event. *)
Definition commit_is_last (l : list event) : Prop :=
  ∀ i e, l !! i = Some e → is_commit e = true → S i = length l.

(** After the first execution of actions no transpose is examined. *)
Definition stops_after_first_commit (l : list event) : Prop :=
  ∀ i j e, l !! i = Some LogEliminate → (i < j)%nat → l !! j = Some e →
           is_attempt e = false.

(** [s] occurs in [msg]. *)
Definition contains_text (s msg : string) : Prop :=
  ∃ before after, msg = before +:+ s +:+ after.

(** The names of the graph are the names of its nodes. *)
Definition well_named (G : Graph) : Prop :=
  ∀ k node, nodes G !! k = Some node → Node.name node = k.

(** A Reshape whose old_shape equals its shape. *)
Definition silly (node : Node.t) : Prop :=
  Node.cls node = ReshapeParameters ∧ is_silly_reshape node.

#[global] Instance silly_dec node : Decision (silly node).
Proof. unfold silly. apply _. Defined.

(** The nodes are removed one after the other. *)
Definition remove_all (G : Graph) (names : list string) : Graph :=
  foldl remove_and_reconnect G names.

(** The edge that takes the place of the in-edge [i] and the out-edge [o]
    of a removed node. *)
Definition reconnected (i o : Edge.t) : Edge.t :=
  Edge.mk (Edge.from_node i) (Edge.from_idx i) (Edge.to_node o) (Edge.to_idx o).

(** The names of the nodes remove_silly_reshapes removes. *)
Definition silly_names (G : Graph) : list string :=
  Node.name <$> filter is_silly_reshape (nodes_of_class G ReshapeParameters).

(** ** Vocabulary of the further properties *)

(** The VisitedNodes that the methods of the class build from the empty
    one. *)
Inductive built : VisitedNodes.t → Prop :=
| built_empty : built VisitedNodes.empty
| built_add s n : built s → built (VisitedNodes.add s n)
| built_discard s s' n : built s → VisitedNodes.discard s n = Ok s' → built s'
| built_visit_down s n idx : built s → built (VisitedNodes.visit_down s n idx)
| built_visit_up s n idx : built s → built (VisitedNodes.visit_up s n idx)
| built_copy s : built s → built (VisitedNodes.copy s)
| built_or s c : built s → built c → built (s |ᵥ VisitedNodes.Visited c)
| built_or_plain s l : built s → built (s |ᵥ VisitedNodes.Plain l)
| built_ior s c : built s → built c → built (VisitedNodes.ior s (VisitedNodes.Visited c))
| built_ior_plain s l : built s → built (VisitedNodes.ior s (VisitedNodes.Plain l)).

(** One step of compute_max_shape: the element-wise maximum with the
    shape of one more dim. *)
Definition max_step (acc : list Z) (d : Dim.t) : list Z :=
  zip_with Z.max acc (Dim.shape d).

(** The number of stripped axes below [n]. *)
Definition stripped_below (axes : list Z) (n : Z) : nat :=
  length (filter (λ s, s < n) axes).

(** The nodes of a visited set other than [start] are outside the exclude
    set, and [start] is one of its nodes. *)
Definition keeps_clear (exclude_nodes : gset string) (start : string)
    (v : VisitedNodes.t) : Prop :=
  start ∈ dom (VisitedNodes.nodes v) ∧
  ∀ n, n ∈ dom (VisitedNodes.nodes v) → n = start ∨ n ∉ exclude_nodes.

(** The visited nodes that an explorer returns: a VisitedNodes that keeps
    clear of the exclude set or, from search_down at a transpose of a
    single axis, the empty list. *)
Definition result_clear (exclude_nodes : gset string) (start : string)
    (v : VisitedNodes.operand) : Prop :=
  match v with
  | VisitedNodes.Visited v => keeps_clear exclude_nodes start v
  | VisitedNodes.Plain l => l = []
  end.

(** An explorer whose results keep clear of the exclude set it is given. *)
Definition explorer_clear (f : explorer) : Prop :=
  ∀ G node exclude_nodes visited_nodes edge transpose_history actions v,
    f G node exclude_nodes visited_nodes edge transpose_history = Ok (actions, v) →
    result_clear exclude_nodes (Node.name node) v.

(** An explorer that returns a VisitedNodes. *)
Definition explorer_visited (f : explorer) : Prop :=
  ∀ G node exclude_nodes visited_nodes edge transpose_history actions v,
    f G node exclude_nodes visited_nodes edge transpose_history = Ok (actions, v) →
    ∃ v', v = VisitedNodes.Visited v'.

(** The classes at which search_down needs the transpose: a node of one of
    them absorbs, rewrites or passes it. *)
Definition needs_transpose_down (c : NodeClass) : Prop :=
  c ∈ [TransposeParameters; OutputParameters; StridedSliceParameters; PadParameters;
       ReverseParameters; ReshapeParameters].

(** The classes at which search_up needs the transpose. *)
Definition needs_transpose_up (c : NodeClass) : Prop :=
  c ∈ [TransposeParameters; InputParameters; ConstantInputParameters;
       StridedSliceParameters; PadParameters; ReverseParameters; ReshapeParameters].

(** A downward result is selected for a transpose. *)
Definition is_LogFoundDown (e : event) : bool :=
  match e with LogFoundDown _ _ => true | _ => false end.

(** A computation of the driver that appends to the log and writes no
    event that [q] holds of. *)
Definition never_logs (q : event → bool) {A} (m : M A) : Prop :=
  ∀ st, ∃ l, log (m st).2 = log st ++ l ∧ Forall (λ e, q e = false) l.

(** The edge leads to the node [n] of class [c] through nodes of the
    middle classes (Copy, UnaryOp, Activation) that have a single out-edge
    each. *)
Inductive leads_to (G : Graph) (c : NodeClass) : Edge.t → string → Prop :=
| leads_to_stop edge node :
    nodes G !! Edge.to_node edge = Some node →
    Node.cls node = c →
    leads_to G c edge (Node.name node)
| leads_to_pass edge node edge' n :
    nodes G !! Edge.to_node edge = Some node →
    Node.cls node ≠ c →
    is_pass_class (Node.cls node) = true →
    out_edges G (Node.name node) = [edge'] →
    leads_to G c edge' n →
    leads_to G c edge n.

(** The node an action works on. *)
Definition action_node (a : Action) : string :=
  match a with
  | DeleteTransposeAction node _ | InsertTransposeAction node _ _ _ _
  | SetTransposeAction node _ | DeleteReshapeAction node | SetReshapeAction node _ _
  | InsertReshapeAction node _ _ _ _ _ | ReorderConstantInput node _ _
  | ReorderInputDims node _ _ | ReorderLinearAction node _ _ _
  | SwitchBatchLinearAction node | TransposePad node _ _ | TransposeReverse node _ _
  | TransposeSlidedSlice node _ _ _ | EndActionUp node | EndActionDown node => node
  end.

(** The end sentinels, which have no effect on the graph. *)
Definition is_end_action (a : Action) : bool :=
  match a with EndActionUp _ | EndActionDown _ => true | _ => false end.

(** An action at the node [start], or an end sentinel. *)
Definition at_start (start : string) (a : Action) : Prop :=
  is_end_action a = true ∨ action_node a = start.

(** The actions collected so far name visited nodes: every action that is
    no end sentinel works on a node of the visited set, which holds
    [start]. *)
Definition names_visited (start : string) (s : list Action * VisitedNodes.t) : Prop :=
  start ∈ dom (VisitedNodes.nodes s.2) ∧
  ∀ a, a ∈ s.1 → is_end_action a = true ∨ action_node a ∈ dom (VisitedNodes.nodes s.2).

(** The same of the result of an explorer; with the empty list in the
    place of the visited set the actions are end sentinels. *)
Definition result_named (start : string) (r : search_result) : Prop :=
  match r.2 with
  | VisitedNodes.Visited v => names_visited start (r.1, v)
  | VisitedNodes.Plain l => l = [] ∧ Forall (λ a, is_end_action a = true) r.1
  end.

(** An explorer whose actions name the nodes it has visited. *)
Definition explorer_named (f : explorer) : Prop :=
  ∀ G node exclude_nodes visited_nodes edge transpose_history actions v,
    f G node exclude_nodes visited_nodes edge transpose_history = Ok (actions, v) →
    result_named (Node.name node) (actions, v).

(** ** Example graphs *)

Module Examples.

(** A node whose transpose attribute is a list. *)
Definition node (name : string) (c : NodeClass) (sensitive : bool)
    (in_shapes out_shapes : list (list Z)) (step_idx : Z) (transpose : list Z)
    (fixed_order : bool) (batch_size : Z) : Node.t :=
  Node.mk name c sensitive false (Dim.mk <$> in_shapes) (Dim.mk <$> out_shapes)
    step_idx (py_list transpose) (Dim.mk []) (Dim.mk []) fixed_order batch_size
    [] [] [] false.

Definition graph_of (ns : list Node.t) (es : list Edge.t) : Graph :=
  mkGraph (list_to_map ((λ n, (Node.name n, n)) <$> ns)) es None.

Definition edge (from_node to_node : string) : Edge.t :=
  Edge.mk from_node 0 to_node 0.

(** x -> t -> a -> {s1 -> o1, s2 -> o2, b -> t2 -> o3}: the transpose [t]
    of a fixed-order input feeds, through an activation, two operators that
    are sensitive to order and a second transpose [t2] that reverses it. *)
Definition fan_out : Graph :=
  graph_of
    [ node "x" InputParameters false [] [[3; 2]] 0 [] true 0;
      node "t" TransposeParameters false [[3; 2]] [[2; 3]] 1 [1; 0] false 0;
      node "a" ActivationParameters false [[2; 3]] [[2; 3]] 2 [] false 0;
      node "s1" OtherParameters true [[2; 3]] [[2; 3]] 3 [] false 0;
      node "s2" OtherParameters true [[2; 3]] [[2; 3]] 4 [] false 0;
      node "b" ActivationParameters false [[2; 3]] [[2; 3]] 5 [] false 0;
      node "t2" TransposeParameters false [[2; 3]] [[3; 2]] 6 [1; 0] false 0;
      node "o1" OutputParameters false [[2; 3]] [] 7 [] true 0;
      node "o2" OutputParameters false [[2; 3]] [] 8 [] true 0;
      node "o3" OutputParameters false [[3; 2]] [] 9 [] true 0 ]
    [ edge "x" "t"; edge "t" "a"; edge "a" "s1"; edge "a" "s2"; edge "a" "b";
      edge "b" "t2"; edge "s1" "o1"; edge "s2" "o2"; edge "t2" "o3" ].

Definition ta_node : Node.t :=
  node "ta" TransposeParameters false [[2; 2]] [[2; 2]] 1 [1; 0] false 0.

Definition tb_node : Node.t :=
  node "tb" TransposeParameters false [[2; 2]] [[2; 2]] 4 [1; 0] false 0.

(** in1 -> ta -> out1 and in2 -> tb -> out2: two transposes of square
    tensors between inputs and outputs whose order is not fixed. *)
Definition two_chains : Graph :=
  graph_of
    [ node "in1" InputParameters false [] [[2; 2]] 0 [] false 0;
      ta_node;
      node "out1" OutputParameters false [[2; 2]] [] 2 [] false 0;
      node "in2" InputParameters false [] [[2; 2]] 3 [] false 0;
      tb_node;
      node "out2" OutputParameters false [[2; 2]] [] 5 [] false 0 ]
    [ edge "in1" "ta"; edge "ta" "out1"; edge "in2" "tb"; edge "tb" "out2" ].

Definition default_options : Options := mkOptions false None false true false.
Definition single_step_options : Options := mkOptions false None true true false.

(** steps = 2, the other arguments at their defaults. *)
Definition two_steps : Options := mkOptions false (Some 2) false true false.

Definition constant_node : Node.t :=
  node "c" ConstantInputParameters false [] [[2; 2]] 0 [] false 0.

(** A convolution: an operator that is sensitive to order. *)
Definition conv_node : Node.t :=
  node "conv" OtherParameters true [[1; 2; 2]] [[1; 2; 2]] 0 [] false 0.

(** The cancelling pair: inp -> t1 -> t2 -> out. *)
Definition cancelling_pair : Graph :=
  graph_of
    [ node "inp" InputParameters false [] [[1; 3; 4; 5]] 0 [] false 0;
      node "t1" TransposeParameters false [[1; 3; 4; 5]] [[1; 4; 5; 3]] 1 [0; 2; 3; 1] false 0;
      node "t2" TransposeParameters false [[1; 4; 5; 3]] [[1; 3; 4; 5]] 2 [0; 3; 1; 2] false 0;
      node "out" OutputParameters false [[1; 3; 4; 5]] [] 3 [] false 0 ]
    [ edge "inp" "t1"; edge "t1" "t2"; edge "t2" "out" ].

Definition t2_node : Node.t :=
  node "t2" TransposeParameters false [[1; 4; 5; 3]] [[1; 3; 4; 5]] 2 [0; 3; 1; 2] false 0.

(** x -> fc -> {t -> o, r -> o2}: a linear layer with a batch of four whose
    output is read by a transpose and by an activation. *)
Definition fc_node : Node.t :=
  node "fc" FcParameters false [[4; 8]] [[4; 3]] 1 [] false 4.

Definition batched_linear : Graph :=
  graph_of
    [ node "x" InputParameters false [] [[4; 8]] 0 [] false 0;
      fc_node;
      node "t" TransposeParameters false [[4; 3]] [[3; 4]] 2 [1; 0] false 0;
      node "o" OutputParameters false [[3; 4]] [] 3 [] false 0;
      node "r" ActivationParameters false [[4; 3]] [[4; 3]] 4 [] false 0;
      node "o2" OutputParameters false [[4; 3]] [] 5 [] false 0 ]
    [ edge "x" "fc"; edge "fc" "t"; edge "t" "o"; edge "fc" "r"; edge "r" "o2" ].

Definition history_of (name : string) (transpose : pyseq) : list TransposeHistory.t :=
  [TransposeHistory.mk name None (Some transpose) None].

(** The helpers modelled from the spec, with a reverses_transpose_up that
    reports the shape [old_shape] as the shape before a residual reshape:
    the spec does not say when the helper reports one. *)
Definition helpers_with_residual (old_shape : list Z) : TransposeHelpers :=
  Build_TransposeHelpers SpecModel.apply_transpose SpecModel.reverse_transpose
    SpecModel.transpose_does_nothing SpecModel.identity_transpose
    (λ transpose node_transpose dim,
       '(reverses, _) ← SpecModel.reverses_transpose_up transpose node_transpose dim;
       Ok (reverses, Some old_shape))
    SpecModel.reverse_reshape SpecModel.layout_shape SpecModel.calc_transpose.

(** A chain a -> r1 -> r2 -> b -> o with two reshapes: r1 keeps the shape,
    r2 changes it. *)
Definition reshape_node (name : string) (old_shape shape : list Z) (step_idx : Z)
    : Node.t :=
  Node.mk name ReshapeParameters false false [Dim.mk old_shape] [Dim.mk shape]
    step_idx (py_list []) (Dim.mk old_shape) (Dim.mk shape) false 0 [] [] [] false.

Definition reshape_chain : Graph :=
  graph_of
    [ node "a" InputParameters false [] [[2; 3]] 0 [] false 0;
      reshape_node "r1" [2; 3] [2; 3] 1;
      reshape_node "r2" [2; 3] [6] 2;
      node "b" ActivationParameters false [[6]] [[6]] 3 [] false 0;
      node "o" OutputParameters false [[6]] [] 4 [] false 0 ]
    [ edge "a" "r1"; edge "r1" "r2"; edge "r2" "b";
      edge "b" "o" ].

(** t -> o: a transpose that nothing feeds. *)
Definition dangling : Graph :=
  graph_of
    [ node "t" TransposeParameters false [[2; 3]] [[3; 2]] 0 [1; 0] false 0;
      node "o" OutputParameters false [[3; 2]] [] 1 [] false 0 ]
    [ edge "t" "o" ].

(** b -> add -> o: an addition whose input of shape [2] is broadcasted to
    the output shape [1; 2]. *)
Definition b_node : Node.t :=
  node "b" InputParameters false [] [[2]] 0 [] false 0.

Definition add_node : Node.t :=
  Node.mk "add" BinaryOpParameters false true [Dim.mk [2]] [Dim.mk [1; 2]] 1
    (py_list []) (Dim.mk []) (Dim.mk []) false 0 [] [] [] false.

Definition broadcast_input : Graph :=
  graph_of
    [ b_node; add_node; node "o" OutputParameters false [[1; 2]] [] 2 [] false 0 ]
    [ edge "b" "add"; edge "add" "o" ].

(** only_up = True, the other arguments at their defaults. *)
Definition only_up_options : Options := mkOptions false None false true true.

(** A debug function is given and do_silly = False. *)
Definition debug_options : Options := mkOptions true None false false false.

End Examples.

(* ================================================================== *)
(** * Part II: properties                                               *)
(* ================================================================== *)

(** ** Results *)

Lemma bind_Ok {A B} (m : Res A) (f : A → Res B) (b : B) :
  m ≫= f = Ok b → ∃ a, m = Ok a ∧ f a = Ok b.
Proof. destruct m; simpl; [eauto | discriminate | discriminate]. Qed.

Lemma py_nth_Some {A} (l : list A) (i : nat) (a : A) :
  l !! i = Some a → py_nth l i = Ok a.
Proof. unfold py_nth. by intros ->. Qed.

Lemma py_last_Some {A} (l : list A) (a : A) :
  last l = Some a → py_last l = Ok a.
Proof. unfold py_last. by intros ->. Qed.

(** ** Visit bookkeeping *)

Section visited_facts.

Implicit Types (s : VisitedNodes.t) (n m : string) (tags : gset string).

Lemma tag_truthy (direction : string) (idx : nat) :
  direction ≠ ""%string → VisitedNodes.truthy (direction +:+ pretty idx).
Proof.
  unfold VisitedNodes.truthy. destruct direction as [|c d]; [done|].
  intros _. simpl. discriminate.
Qed.

Lemma contains_true s n :
  VisitedNodes.contains s n = true ↔ ∃ k, k ∈ tags_of s n ∧ k ≠ ""%string.
Proof.
  unfold VisitedNodes.contains, tags_of.
  destruct (VisitedNodes.nodes s !! n) as [tags|]; simpl.
  - rewrite bool_decide_eq_true. unfold set_Exists, VisitedNodes.truthy. done.
  - split; [done|]. intros (k & Hk & _). set_solver.
Qed.

Lemma tags_of_add_tag s n m tag :
  tags_of (VisitedNodes.add_tag s n tag) m =
  if decide (n = m) then tags_of s n ∪ {[tag]} else tags_of s m.
Proof.
  unfold tags_of, VisitedNodes.add_tag; simpl.
  rewrite lookup_insert. by case_decide.
Qed.

Lemma tags_of_add s n m :
  tags_of (VisitedNodes.add s n) m = if decide (n = m) then ∅ else tags_of s m.
Proof.
  unfold tags_of, VisitedNodes.add; simpl.
  rewrite lookup_insert. by case_decide.
Qed.

Lemma iter_spec s n : n ∈ VisitedNodes.iter s ↔ tags_of s n ≠ ∅.
Proof.
  unfold VisitedNodes.iter, tags_of. rewrite list_elem_of_fmap. split.
  - intros ([k tags] & -> & Hin). apply list_elem_of_filter in Hin as [Hne Hin].
    apply elem_of_map_to_list in Hin. simpl in *. by rewrite Hin.
  - intros Hne. destruct (VisitedNodes.nodes s !! n) as [tags|] eqn:Hl; [|done].
    exists (n, tags). split; [done|]. apply list_elem_of_filter. split; [done|].
    by apply elem_of_map_to_list.
Qed.

Lemma len_add s n :
  VisitedNodes.len (VisitedNodes.add s n) =
  VisitedNodes.len (VisitedNodes.mk (delete n (VisitedNodes.nodes s))).
Proof.
  unfold VisitedNodes.len, VisitedNodes.add; simpl.
  rewrite <- (insert_delete_eq (VisitedNodes.nodes s) n ∅).
  rewrite (filter_Permutation _ _ _
             (map_to_list_insert (delete n (VisitedNodes.nodes s)) n ∅
                (lookup_delete_eq _ _))).
  rewrite filter_cons_False; [done|]. simpl. intros H. by apply H.
Qed.

End visited_facts.

Section union_facts.

Implicit Types (s v c : VisitedNodes.t) (n : string).

Lemma or_nodes_visited_tags (res : gmap string (gset string)) c n :
  default ∅ (VisitedNodes.or_nodes (VisitedNodes.Visited c) res !! n) =
  default ∅ (res !! n) ∪ default ∅ (VisitedNodes.nodes c !! n).
Proof.
  unfold VisitedNodes.or_nodes. revert n.
  apply (map_fold_weak_ind
           (λ (r : gmap string (gset string)) (m : gmap string (gset string)),
              ∀ n : string, default ∅ (r !! n) =
                            default ∅ (res !! n) ∪ default ∅ (m !! n))).
  - intros n. rewrite (lookup_empty (M := gmap string)). simpl.
    by rewrite (right_id_L ∅ (∪)).
  - intros i x m r Hi IH n. specialize (IH i) as IHi. rewrite Hi in IHi. simpl in IHi.
    rewrite (right_id_L ∅ (∪)) in IHi.
    destruct (decide (i = n)) as [->|Hne].
    + rewrite (lookup_insert_eq m). simpl.
      destruct (r !! n) as [old|] eqn:Hr; rewrite lookup_insert_eq; simpl;
        simpl in IHi; rewrite <- IHi; [done|].
      by rewrite (left_id_L ∅ (∪)).
    + rewrite (lookup_insert_ne m) by done.
      destruct (r !! i); rewrite lookup_insert_ne by done; apply IH.
Qed.

Lemma tags_of_or_visited v c n :
  tags_of (v |ᵥ VisitedNodes.Visited c) n = tags_of v n ∪ tags_of c n.
Proof. apply or_nodes_visited_tags. Qed.

Lemma tags_of_ior_visited v c n :
  tags_of (VisitedNodes.ior v (VisitedNodes.Visited c)) n = tags_of v n ∪ tags_of c n.
Proof. apply tags_of_or_visited. Qed.

Lemma or_nodes_plain_lookup (l : list string) (res : gmap string (gset string)) n :
  VisitedNodes.or_nodes (VisitedNodes.Plain l) res !! n =
  if decide (n ∈ l) then Some {["up*"; "down*"]} else res !! n.
Proof.
  unfold VisitedNodes.or_nodes. revert res.
  induction l as [|a l IH]; intros res.
  - done.
  - cbn [foldl]. rewrite IH. destruct (decide (n ∈ l)) as [Hin|Hin].
    + rewrite decide_True; [done|]. rewrite elem_of_cons. by right.
    + destruct (decide (n = a)) as [->|Hne].
      * rewrite lookup_insert_eq. rewrite decide_True; [done|].
        rewrite elem_of_cons. by left.
      * rewrite lookup_insert_ne by done. rewrite decide_False; [done|].
        rewrite elem_of_cons. by intros [?|?].
Qed.

Lemma tags_of_or_plain v (l : list string) n :
  tags_of (v |ᵥ VisitedNodes.Plain l) n =
  if decide (n ∈ l) then {["up*"; "down*"]} else tags_of v n.
Proof.
  unfold tags_of, VisitedNodes.or_. cbn [VisitedNodes.nodes].
  rewrite or_nodes_plain_lookup. by case_decide.
Qed.

End union_facts.

Lemma pretty_N_go_ne_star (x : N) (s : string) :
  s ≠ "*"%string → pretty_N_go x s ≠ "*"%string.
Proof.
  revert s. induction (N.lt_wf_0 x) as [x _ IH]; intros s Hs.
  destruct (decide (x = 0%N)) as [->|Hx]; [by rewrite pretty_N_go_0|].
  rewrite pretty_N_go_step by lia. apply IH.
  - apply N.div_lt; lia.
  - unfold pretty_N_char. by repeat case_match.
Qed.

Lemma pretty_nat_ne_star (i : nat) : pretty i ≠ "*"%string.
Proof.
  unfold pretty, pretty_nat, pretty, pretty_N. case_decide; [done|].
  by apply pretty_N_go_ne_star.
Qed.

Lemma tag_inj (d : string) (i j : nat) : d +:+ pretty i = d +:+ pretty j ↔ i = j.
Proof.
  split; [|by intros ->]. intros H.
  apply (inj pretty). induction d as [|c d IH]; simpl in H; [done|].
  injection H as H. by apply IH.
Qed.

Lemma tag_ne_wildcard (d : string) (i : nat) : d +:+ pretty i ≠ d +:+ "*".
Proof.
  induction d as [|c d IH]; simpl.
  - apply pretty_nat_ne_star.
  - intros [= H]. by apply IH.
Qed.

(** The tag of a visit is none of the two wildcards. *)
Lemma tag_not_wildcard (direction : string) (idx : nat) :
  direction = "up"%string ∨ direction = "down"%string →
  direction +:+ pretty idx ∉ ({["up*"; "down*"]} : gset string).
Proof.
  intros Hdir Hin. apply elem_of_union in Hin as [Hin|Hin];
    apply elem_of_singleton in Hin; destruct Hdir as [-> | ->];
    first [by apply (tag_ne_wildcard "up") in Hin
          |by apply (tag_ne_wildcard "down") in Hin
          |by simpl in Hin].
Qed.

Lemma visited_down_None s n :
  VisitedNodes.visited_down s n None = true ↔ visited_in (tags_of s n) "down".
Proof. unfold VisitedNodes.visited_down. by rewrite bool_decide_eq_true. Qed.

Lemma visited_up_None s n :
  VisitedNodes.visited_up s n None = true ↔ visited_in (tags_of s n) "up".
Proof. unfold VisitedNodes.visited_up. by rewrite bool_decide_eq_true. Qed.


(** check_continue by cases, in terms of the tags that the two visited sets
    hold for the node. *)
Lemma check_continue_cases visited_nodes cur_visited_nodes exclude_nodes node
    direction idx :
  direction = "up"%string ∨ direction = "down"%string →
  let n := Node.name node in
  let tags := tags_of visited_nodes n ∪ tags_of cur_visited_nodes n in
  check_continue visited_nodes cur_visited_nodes exclude_nodes node direction idx =
  if bool_decide (Node.SensitiveToOrder node = false ∧
                  visited_in tags (opposite direction))
  then Ok true
  else if bool_decide (direction +:+ pretty idx ∈ tags ∨ n ∈ exclude_nodes)
  then Raise CantContinueError
  else Ok false.
Proof.
  intros Hdir n tags. unfold check_continue.
  set (all := visited_nodes |ᵥ VisitedNodes.Visited cur_visited_nodes).
  assert (Hall : tags_of all n = tags) by apply tags_of_or_visited.
  assert (Hskip :
    negb (Node.SensitiveToOrder node) &&
    (bool_decide (direction = "up"%string) && VisitedNodes.visited_down all n None
     || bool_decide (direction = "down"%string) && VisitedNodes.visited_up all n None)
    = bool_decide (Node.SensitiveToOrder node = false ∧
                   visited_in tags (opposite direction))).
  { apply eq_true_iff_eq. rewrite bool_decide_eq_true, andb_true_iff, orb_true_iff,
      !andb_true_iff, !bool_decide_eq_true, negb_true_iff,
      visited_down_None, visited_up_None, Hall.
    unfold opposite. destruct Hdir as [-> | ->]; simpl.
    - split; [intros [? [[_ ?]|[? _]]]; done | intros [? ?]; split; [done|]; by left].
    - split; [intros [? [[? _]|[_ ?]]]; done | intros [? ?]; split; [done|]; by right]. }
  fold n. rewrite Hskip.
  destruct (bool_decide (Node.SensitiveToOrder node = false ∧ _)); [done|].
  unfold VisitedNodes.visited_direction. fold (tags_of all n). rewrite Hall.
  destruct (decide (direction +:+ pretty idx ∈ tags)) as [Hin|Hin].
  - rewrite bool_decide_true by done. by rewrite bool_decide_true by (by left).
  - rewrite (bool_decide_false _ Hin).
    destruct (decide (n ∈ exclude_nodes)) as [Hex|Hex].
    + rewrite bool_decide_true by done. by rewrite bool_decide_true by (by right).
    + rewrite (bool_decide_false _ Hex). rewrite bool_decide_false; [done|].
      by intros [?|?].
Qed.

(** C3, as the claim states it, fails on the code: a Constant that is in
    the exclude set is not visited, check_continue raises
    CantContinueError. *)
Lemma C3_counterexample :
  LayoutFlexible_terminal Examples.constant_node ∧
  check_continue VisitedNodes.empty VisitedNodes.empty {["c"]}
    Examples.constant_node "up" 0 = Raise CantContinueError.
Proof. split; [by left | by vm_compute]. Qed.

(** C3 (amended): check_continue has no case of its own for a
    layout-flexible terminal.  For such a node and either direction it
    visits the node exactly when the node, unless it is sensitive to order,
    has no tag of the opposite direction in the two visited sets, has not
    the tag of this direction and edge index, and is not excluded; it skips
    the node exactly when the node is not sensitive to order and has a tag
    of the opposite direction; in every other case it raises
    CantContinueError. *)
Theorem C3_check_continue_layout_flexible visited_nodes cur_visited_nodes
    exclude_nodes node direction idx :
  LayoutFlexible_terminal node →
  direction = "up"%string ∨ direction = "down"%string →
  let n := Node.name node in
  let tags := tags_of visited_nodes n ∪ tags_of cur_visited_nodes n in
  let result :=
    check_continue visited_nodes cur_visited_nodes exclude_nodes node direction idx in
  (result = Ok false ↔
     (Node.SensitiveToOrder node = true ∨ (¬ visited_in tags (opposite direction))) ∧
     ((direction +:+ pretty idx) ∉ tags) ∧ (n ∉ exclude_nodes)) ∧
  (result = Ok true ↔
     Node.SensitiveToOrder node = false ∧ visited_in tags (opposite direction)) ∧
  (result = Raise CantContinueError ↔
     (Node.SensitiveToOrder node = true ∨ (¬ visited_in tags (opposite direction))) ∧
     ((direction +:+ pretty idx) ∈ tags ∨ n ∈ exclude_nodes)).
Proof.
  intros _ Hdir n tags result. subst result.
  rewrite (check_continue_cases _ _ _ _ _ _ Hdir). fold n tags.
  destruct (Node.SensitiveToOrder node) eqn:Hs;
    repeat case_bool_decide; naive_solver.
Qed.

(** The theorem at a Constant that was entered upwards at port 0 before:
    it is skipped downwards and cannot be entered upwards again. *)
Lemma C3_check_continue_layout_flexible_witness :
  let cur := VisitedNodes.visit_up VisitedNodes.empty "c" 0 in
  check_continue VisitedNodes.empty cur ∅ Examples.constant_node "down" 0 = Ok true ∧
  check_continue VisitedNodes.empty cur ∅ Examples.constant_node "up" 0 =
    Raise CantContinueError ∧
  check_continue VisitedNodes.empty cur ∅ Examples.constant_node "up" 1 = Ok false.
Proof.
  intros cur.
  assert (Hflex : LayoutFlexible_terminal Examples.constant_node) by (by left).
  destruct (C3_check_continue_layout_flexible VisitedNodes.empty cur ∅
              Examples.constant_node "down" 0 Hflex (or_intror eq_refl))
    as (_ & Hdown & _).
  destruct (C3_check_continue_layout_flexible VisitedNodes.empty cur ∅
              Examples.constant_node "up" 0 Hflex (or_introl eq_refl))
    as (_ & _ & Hup).
  destruct (C3_check_continue_layout_flexible VisitedNodes.empty cur ∅
              Examples.constant_node "up" 1 Hflex (or_introl eq_refl))
    as (Hup1 & _ & _).
  split_and!.
  - apply Hdown. split; [done|]. apply (bool_decide_unpack _). by vm_compute.
  - apply Hup. split; [right | left]; apply (bool_decide_unpack _); by vm_compute.
  - apply Hup1. split_and!; [right | |]; apply (bool_decide_unpack _); by vm_compute.
Defined.

(** C5, as the claim states it, fails on the code: a convolution, which is
    sensitive to order, is contributed by union with a plain set and holds
    the tags up* and down*.  check_continue returns "visit" for it in both
    directions, whether the union is the external or the current set: the
    skip at a visit in the opposite direction is not made for a node that
    is sensitive to order, and visited_direction looks for the tag of the
    direction and edge index, which no wildcard is. *)
Lemma C5_counterexample :
  let v := VisitedNodes.empty |ᵥ VisitedNodes.Plain ["conv"] in
  let v' := VisitedNodes.ior VisitedNodes.empty (VisitedNodes.Plain ["conv"]) in
  Node.SensitiveToOrder Examples.conv_node = true ∧
  tags_of v "conv" = {["up*"; "down*"]} ∧
  VisitedNodes.visited_up v "conv" (Some 0%nat) = true ∧
  VisitedNodes.visited_down v "conv" (Some 0%nat) = true ∧
  VisitedNodes.visited_direction v "up" 0 "conv" = false ∧
  VisitedNodes.visited_direction v "down" 0 "conv" = false ∧
  check_continue v VisitedNodes.empty ∅ Examples.conv_node "up" 0 = Ok false ∧
  check_continue v VisitedNodes.empty ∅ Examples.conv_node "down" 0 = Ok false ∧
  check_continue VisitedNodes.empty v' ∅ Examples.conv_node "up" 0 = Ok false ∧
  check_continue VisitedNodes.empty v' ∅ Examples.conv_node "down" 0 = Ok false.
Proof.
  intros v v'. split; [done|]. split.
  - subst v. rewrite tags_of_or_plain. rewrite decide_True; [done|]. set_solver.
  - split_and!; by vm_compute.
Qed.

(** C5 (amended): a node that comes into a VisitedNodes by union, | or |=,
    with a plain set holds the tags up* and down*, and no tag of a visit.
    When the node is not sensitive to order it is thereby blocked: as long
    as a visited set holds these two tags for it, check_continue skips it,
    for either direction and any edge index, and whether that set is the
    external or the current set of the call.  A node that is sensitive to
    order is not blocked by these tags: check_continue visits it, and
    raises CantContinueError exactly when one of the two visited sets
    holds the tag of this direction and edge index or the node is
    excluded. *)
Theorem C5_plain_union (v u other : VisitedNodes.t) (l : list string)
    (exclude_nodes : gset string) (node : Node.t) (direction : string) (idx : nat) :
  Node.name node ∈ l →
  direction = "up"%string ∨ direction = "down"%string →
  let n := Node.name node in
  let tag := direction +:+ pretty idx in
  VisitedNodes.ior v (VisitedNodes.Plain l) = (v |ᵥ VisitedNodes.Plain l) ∧
  tags_of (v |ᵥ VisitedNodes.Plain l) n = {["up*"; "down*"]} ∧
  (tag ∉ tags_of (v |ᵥ VisitedNodes.Plain l) n) ∧
  ({["up*"; "down*"]} ⊆ tags_of u n →
   (Node.SensitiveToOrder node = false →
    check_continue u other exclude_nodes node direction idx = Ok true ∧
    check_continue other u exclude_nodes node direction idx = Ok true) ∧
   (Node.SensitiveToOrder node = true →
    let outcome :=
      if bool_decide (tag ∈ tags_of u n ∨ tag ∈ tags_of other n ∨ n ∈ exclude_nodes)
      then Raise CantContinueError else Ok false in
    check_continue u other exclude_nodes node direction idx = outcome ∧
    check_continue other u exclude_nodes node direction idx = outcome)).
Proof.
  intros Hin Hdir n tag.
  assert (Htags : tags_of (v |ᵥ VisitedNodes.Plain l) n = {["up*"; "down*"]}).
  { by rewrite tags_of_or_plain, decide_True. }
  split; [done|]. split; [done|]. split.
  { rewrite Htags. by apply tag_not_wildcard. }
  intros Hwild.
  assert (Hopp : ∀ tags : gset string,
            visited_in (tags_of u n ∪ tags) (opposite direction) ∧
            visited_in (tags ∪ tags_of u n) (opposite direction)).
  { intros tags. unfold opposite. destruct Hdir as [-> | ->]; simpl.
    - split; exists "down*"%string; (split; [set_solver | done]).
    - split; exists "up*"%string; (split; [set_solver | done]). }
  split.
  - intros Hs. rewrite !(check_continue_cases _ _ _ _ _ _ Hdir). fold n.
    split; (rewrite bool_decide_true; [done|]; split; [done|apply Hopp]).
  - intros Hs outcome. rewrite !(check_continue_cases _ _ _ _ _ _ Hdir). fold n tag.
    subst outcome.
    rewrite !(bool_decide_false (Node.SensitiveToOrder node = false ∧ _))
      by (rewrite Hs; by intros [? _]).
    split; (erewrite bool_decide_ext; [reflexivity|]); set_solver.
Qed.

(** The theorem at a Constant, which is not sensitive to order and is
    skipped, and at the convolution, which is sensitive to order: it is
    visited, unless it is excluded. *)
Lemma C5_plain_union_witness :
  let u := VisitedNodes.empty |ᵥ VisitedNodes.Plain ["c"; "conv"] in
  check_continue u VisitedNodes.empty ∅ Examples.constant_node "up" 3 = Ok true ∧
  check_continue VisitedNodes.empty u ∅ Examples.constant_node "down" 0 = Ok true ∧
  check_continue u VisitedNodes.empty ∅ Examples.conv_node "up" 3 = Ok false ∧
  check_continue u VisitedNodes.empty {["conv"]} Examples.conv_node "down" 0 =
    Raise CantContinueError.
Proof.
  intros u.
  assert (Hc : Node.name Examples.constant_node ∈ ["c"; "conv"]%string)
    by (apply (bool_decide_unpack _); by vm_compute).
  assert (Hconv : Node.name Examples.conv_node ∈ ["c"; "conv"]%string)
    by (apply (bool_decide_unpack _); by vm_compute).
  destruct (C5_plain_union VisitedNodes.empty u VisitedNodes.empty ["c"; "conv"] ∅
              Examples.constant_node "up" 3 Hc (or_introl eq_refl))
    as (_ & Htc & _ & Hup).
  destruct (C5_plain_union VisitedNodes.empty u VisitedNodes.empty ["c"; "conv"] ∅
              Examples.constant_node "down" 0 Hc (or_intror eq_refl))
    as (_ & _ & _ & Hdown).
  destruct (C5_plain_union VisitedNodes.empty u VisitedNodes.empty ["c"; "conv"] ∅
              Examples.conv_node "up" 3 Hconv (or_introl eq_refl))
    as (_ & Htconv & _ & Hvisit).
  destruct (C5_plain_union VisitedNodes.empty u VisitedNodes.empty ["c"; "conv"]
              {["conv"]} Examples.conv_node "down" 0 Hconv (or_intror eq_refl))
    as (_ & _ & _ & Hraise).
  fold u in Htc, Htconv.
  split_and!.
  - apply Hup; [by rewrite Htc|done].
  - apply Hdown; [by rewrite Htc|done].
  - destruct Hvisit as [_ Hvisit]; [by rewrite Htconv|].
    destruct (Hvisit eq_refl) as [-> _]. by vm_compute.
  - destruct Hraise as [_ Hraise]; [by rewrite Htconv|].
    destruct (Hraise eq_refl) as [-> _]. by vm_compute.
Defined.

(** C9, as the claim states it, fails on the code: membership does not
    come from visit_up and visit_down alone.  After [s.add(n)] the union
    [s |= [n]] with a plain list gives n the tags up* and down*, and n is a
    member of s, is produced by iteration and is counted by len, while no
    visit was made. *)
Lemma C9_counterexample :
  let s := VisitedNodes.add VisitedNodes.empty "n" in
  let s' := VisitedNodes.ior s (VisitedNodes.Plain ["n"]) in
  VisitedNodes.contains s "n" = false ∧
  VisitedNodes.contains s' "n" = true ∧
  VisitedNodes.iter s' = ["n"] ∧
  VisitedNodes.len s' = 1%nat ∧
  tags_of s' "n" = {["up*"; "down*"]}.
Proof.
  intros s s'. split_and!; by vm_compute.
Qed.

(** C9 (amended): after [s.add(n)] the node is no member of s, iteration
    does not produce it, and len counts exactly the entries len counts once
    n is removed.  The node becomes a member when it is given a tag: by a
    visit of n, up or down at any index, by a union (| or |=) with a plain
    collection that holds n, and by a union with a VisitedNodes of which n
    is a member.  Nothing else makes it one: a visit, an add or a discard
    of another node, a copy, and a union with a plain collection without n
    or with a VisitedNodes of which n is no member leave it a non-member;
    and in every VisitedNodes a member is a node that holds a tag. *)
Theorem C9_add_is_not_membership (s : VisitedNodes.t) (n : string) :
  let s' := VisitedNodes.add s n in
  VisitedNodes.contains s' n = false ∧
  (n ∉ VisitedNodes.iter s') ∧
  VisitedNodes.len s' =
    VisitedNodes.len (VisitedNodes.mk (delete n (VisitedNodes.nodes s))) ∧
  (∀ m idx, m ≠ n →
     VisitedNodes.contains (VisitedNodes.visit_up s' m idx) n = false ∧
     VisitedNodes.contains (VisitedNodes.visit_down s' m idx) n = false) ∧
  (∀ idx,
     VisitedNodes.contains (VisitedNodes.visit_up s' n idx) n = true ∧
     VisitedNodes.contains (VisitedNodes.visit_down s' n idx) n = true) ∧
  (∀ l : list string,
     VisitedNodes.contains (s' |ᵥ VisitedNodes.Plain l) n = bool_decide (n ∈ l) ∧
     VisitedNodes.contains (VisitedNodes.ior s' (VisitedNodes.Plain l)) n
       = bool_decide (n ∈ l)) ∧
  (∀ c : VisitedNodes.t,
     VisitedNodes.contains (s' |ᵥ VisitedNodes.Visited c) n = VisitedNodes.contains c n ∧
     VisitedNodes.contains (VisitedNodes.ior s' (VisitedNodes.Visited c)) n
       = VisitedNodes.contains c n) ∧
  (∀ m, VisitedNodes.contains (VisitedNodes.add s' m) n = false) ∧
  (∀ m s'', VisitedNodes.discard s' m = Ok s'' → VisitedNodes.contains s'' n = false) ∧
  VisitedNodes.contains (VisitedNodes.copy s') n = false ∧
  (∀ t : VisitedNodes.t, VisitedNodes.contains t n = true → tags_of t n ≠ ∅).
Proof.
  intros s'.
  assert (Hno : ∀ t : VisitedNodes.t, tags_of t n = ∅ → VisitedNodes.contains t n = false).
  { intros t Ht. apply not_true_is_false. rewrite contains_true, Ht.
    intros (k & Hk & _). set_solver. }
  assert (Hs' : tags_of s' n = ∅).
  { subst s'. rewrite tags_of_add. by rewrite decide_True. }
  assert (Hplain : ∀ l : list string,
            VisitedNodes.contains (s' |ᵥ VisitedNodes.Plain l) n = bool_decide (n ∈ l)).
  { intros l. case_bool_decide as Hl.
    - apply contains_true. rewrite tags_of_or_plain, decide_True by done.
      exists "up*"%string. split; [set_solver | done].
    - apply Hno. by rewrite tags_of_or_plain, decide_False. }
  assert (Hvisited : ∀ c : VisitedNodes.t,
            VisitedNodes.contains (s' |ᵥ VisitedNodes.Visited c) n
            = VisitedNodes.contains c n).
  { intros c. apply eq_true_iff_eq.
    by rewrite !contains_true, tags_of_or_visited, Hs', (left_id_L ∅ (∪)). }
  split_and!.
  - by apply Hno.
  - rewrite iter_spec, Hs'. intros H. by apply H.
  - apply len_add.
  - intros m idx Hne. unfold VisitedNodes.visit_up, VisitedNodes.visit_down.
    split; apply Hno; rewrite tags_of_add_tag, decide_False by done; done.
  - intros idx. unfold VisitedNodes.visit_up, VisitedNodes.visit_down.
    split; apply contains_true; rewrite tags_of_add_tag, decide_True by done.
    + exists ("up" +:+ pretty idx). split; [set_solver | by apply tag_truthy].
    + exists ("down" +:+ pretty idx). split; [set_solver | by apply tag_truthy].
  - intros l. split; apply Hplain.
  - intros c. split; apply Hvisited.
  - intros m. apply Hno. rewrite tags_of_add. by case_decide.
  - intros m s'' Hd. unfold VisitedNodes.discard in Hd.
    destruct (VisitedNodes.nodes s' !! m) eqn:Hm; [|done]. simplify_eq.
    apply Hno. unfold tags_of in *. cbn [VisitedNodes.nodes].
    destruct (decide (m = n)) as [->|Hne].
    + by rewrite lookup_delete_eq.
    + by rewrite lookup_delete_ne.
  - by apply Hno.
  - intros t Ht. apply contains_true in Ht as (k & Hk & _). set_solver.
Qed.

(** The theorem at a set in which n was visited before the add. *)
Lemma C9_add_is_not_membership_witness :
  let s := VisitedNodes.visit_down VisitedNodes.empty "n" 2 in
  VisitedNodes.contains s "n" = true ∧
  VisitedNodes.contains (VisitedNodes.add s "n") "n" = false ∧
  VisitedNodes.contains (VisitedNodes.visit_up (VisitedNodes.add s "n") "m" 0) "n" = false ∧
  VisitedNodes.contains (VisitedNodes.visit_up (VisitedNodes.add s "n") "n" 0) "n" = true ∧
  VisitedNodes.contains
    (VisitedNodes.ior (VisitedNodes.add s "n") (VisitedNodes.Plain ["m"; "n"])) "n" = true.
Proof.
  intros s.
  destruct (C9_add_is_not_membership s "n") as (H1 & _ & _ & H4 & H5 & H6 & _).
  split_and!.
  - by vm_compute.
  - exact H1.
  - apply (H4 "m"%string 0%nat). discriminate.
  - apply (H5 0%nat).
  - destruct (H6 ["m"; "n"]%string) as [_ ->]. by vm_compute.
Defined.

(** ** Axis helpers *)

Lemma elem_of_range (x : Z) (k : nat) : x ∈ range k ↔ 0 ≤ x < Z.of_nat k.
Proof.
  unfold range. rewrite list_elem_of_fmap. split.
  - intros (i & -> & Hi). apply elem_of_seq in Hi. lia.
  - intros Hx. exists (Z.to_nat x). split; [lia|]. apply elem_of_seq. lia.
Qed.

Lemma length_range (k : nat) : length (range k) = k.
Proof. unfold range. by rewrite length_fmap, length_seq. Qed.

Lemma filter_all {A} (P : A → Prop) `{!∀ x, Decision (P x)} (l : list A) :
  Forall P l → filter P l = l.
Proof.
  induction 1 as [|x l Hx _ IH]; [done|].
  by rewrite filter_cons_True, IH.
Qed.

Lemma filter_none {A} (P : A → Prop) `{!∀ x, Decision (P x)} (l : list A) :
  Forall (λ x, ¬ P x) l → filter P l = [].
Proof.
  induction 1 as [|x l Hx _ IH]; [done|].
  by rewrite filter_cons_False.
Qed.

(** Every stripped axis below [axis] counts for one. *)
Lemma reduce_dimension_above (axis : Z) (stripped_axes : list Z) :
  Forall (λ s, s < axis) stripped_axes →
  reduce_dimension axis stripped_axes = axis - Z.of_nat (length stripped_axes).
Proof.
  unfold reduce_dimension. intros H. f_equal.
  induction H as [|s l Hs _ IH]; [done|].
  cbn [fmap list_fmap foldr length]. rewrite bool_decide_true by done.
  fold (fmap (M := list)
          (λ stripped_axis : Z, if bool_decide (stripped_axis < axis) then 1 else 0) l).
  rewrite IH. lia.
Qed.

(** C10: stripping the first k axes from the expansion of p by k gives p
    back, for every sequence p of non-negative integers. *)
Theorem C10_strip_expand (p : list Z) (k : nat) :
  Forall (λ axis, 0 ≤ axis) p →
  strip_axes_from_transpose (expand_axes_in_transpose p k) (range k) = p.
Proof.
  intros Hp. unfold strip_axes_from_transpose, expand_axes_in_transpose.
  rewrite filter_app, filter_none, app_nil_l.
  2:{ apply Forall_forall. intros x Hx Hn. by apply Hn. }
  rewrite filter_all.
  2:{ apply Forall_fmap, (Forall_impl _ _ _ Hp). intros a Ha.
      simpl. rewrite elem_of_range. lia. }
  rewrite <- list_fmap_compose.
  induction Hp as [|a p Ha _ IH]; [done|].
  cbn [fmap list_fmap]. f_equal; [|exact IH].
  simpl. rewrite reduce_dimension_above.
  - rewrite length_range. lia.
  - apply Forall_forall. intros s Hs. apply elem_of_range in Hs. lia.
Qed.

(** The theorem at the permutation (0, 2, 3, 1) and two new axes. *)
Lemma C10_strip_expand_witness :
  expand_axes_in_transpose [0; 2; 3; 1] 2 = [0; 1; 2; 4; 5; 3] ∧
  strip_axes_from_transpose [0; 1; 2; 4; 5; 3] (range 2) = [0; 2; 3; 1].
Proof.
  split; [reflexivity|].
  apply (C10_strip_expand [0; 2; 3; 1] 2).
  repeat constructor; lia.
Defined.

(** ** The explorers *)

Section explorer_facts.

Context `{!TransposeHelpers}.

Lemma is_single_axis_false (p : pyseq) :
  length (items p) ≠ 1%nat → is_single_axis (Some p) = false.
Proof. destruct p as [[|? [|? ?]]|[|? [|? ?]]]; simpl; done. Qed.

(** C6: at a Transpose node that is reached downwards with a permutation p
    of more than one axis, where the helpers of transpose_helpers do what
    the spec says of them (reverses_transpose_up reports that p is the
    inverse of the permutation of the node exactly when it is, and
    apply_transpose, where it is called, gives the composition): when p is
    the inverse of the permutation of the node, search_down returns exactly
    DeleteTranspose and the end sentinel, and DeleteTranspose carries the
    residual reshape from the shape that the helper reports, when it
    reports one, to the output shape of the node, and no reshape otherwise;
    when p is not the inverse, it returns exactly SetTranspose of the
    composition of p followed by the permutation of the node, and the end
    sentinel.  In both cases the branch ends: no other node is visited.  A
    Transpose is an instance of neither SensitiveToOrder nor Broadcastable,
    and has one input and one output. *)
Theorem C6_search_down_at_transpose fuel G node exclude_nodes visited_nodes in_edge
    transpose_history last_history p in_dim out0 reverses old_shape :
  Node.cls node = TransposeParameters →
  Node.SensitiveToOrder node = false →
  Node.Broadcastable node = false →
  last transpose_history = Some last_history →
  TransposeHistory.transpose last_history = Some p →
  (1 < length (items p))%nat →
  Node.in_dims node !! Edge.to_idx in_edge = Some in_dim →
  Node.out_dims node !! 0%nat = Some out0 →
  let q := items (Node.transpose node) in
  reverses_transpose_up (Some p) (Node.transpose node) out0 = Ok (reverses, old_shape) →
  (reverses = true ↔ inverse_of (items p) q) →
  let name := Node.name node in
  let cur_visited_nodes :=
    VisitedNodes.visit_down VisitedNodes.empty name (Edge.to_idx in_edge) in
  let result :=
    search_down (S fuel) G node exclude_nodes visited_nodes in_edge transpose_history in
  (inverse_of (items p) q →
   result =
   Ok ([DeleteTransposeAction name
          match old_shape with
          | Some (d :: shape) => Some (d :: shape, Dim.shape out0)
          | _ => None
          end;
        EndActionDown name], VisitedNodes.Visited cur_visited_nodes)) ∧
  (¬ inverse_of (items p) q →
   apply_transpose (items p) (Some (Node.transpose node)) = Ok (compose (items p) q) →
   result =
   Ok ([SetTransposeAction name (compose (items p) q); EndActionDown name],
       VisitedNodes.Visited cur_visited_nodes)).
Proof.
  intros Hcls Hs Hb Hlast Hp Hlen Hin Hout q Hrev Hinv name cur result.
  assert (Hresult : result =
    if reverses then
      Ok ([DeleteTransposeAction name (residual_reshape old_shape (Dim.shape out0));
           EndActionDown name], VisitedNodes.Visited cur)
    else
      new_transpose ← apply_transpose (items p) (Some (Node.transpose node));
      Ok ([SetTransposeAction name new_transpose; EndActionDown name],
          VisitedNodes.Visited cur)).
  { subst result. cbn [search_down].
    rewrite (py_last_Some _ _ Hlast). cbn [mbind Res_bind].
    rewrite (py_nth_Some _ _ _ Hin). cbn [mbind Res_bind].
    rewrite Hp, is_single_axis_false by lia. rewrite Hs, Hb, Hcls.
    rewrite (bool_decide_false (TransposeParameters = PowOpParameters)) by done.
    cbn [orb mbind Res_bind].
    unfold in_NODES_TO_EXPLORE_UP, is_linear. rewrite Hcls, Hb.
    rewrite !(bool_decide_false (TransposeParameters = _)) by done.
    cbn [orb mbind Res_bind].
    rewrite (bool_decide_true (TransposeParameters = _)) by done.
    cbn [check_for_null_transpose mbind Res_bind].
    rewrite (py_nth_Some _ _ _ Hout). cbn [mbind Res_bind].
    rewrite Hrev. cbn [mbind Res_bind the_perm].
    by destruct reverses. }
  destruct Hinv as [Hinv1 Hinv2]. split.
  - intros Hcase. rewrite Hresult, (Hinv2 Hcase). do 3 f_equal.
    by destruct old_shape as [[|d shape]|].
  - intros Hcase Happ. rewrite Hresult.
    destruct reverses; [by destruct Hcase; apply Hinv1|]. by rewrite Happ.
Qed.

(** C7 (amended): at a FullyConnected or LinearFusion node with a batch
    size above one that is reached upwards with a permutation p, search_up
    ends with the end sentinel alone when p has a single axis; otherwise it
    first visits the other out-edges of the node downwards, and an
    exception there is the result; then for p the tuple (1, 0) it returns
    the actions of these visits followed by SwitchBatchLinear and the end
    sentinel, and for every other p exactly InsertTranspose on the
    out-edge, with the reversed permutation, and the end sentinel.  The
    test is [transpose == (1, 0)] of Python, which the list [1, 0] does not
    pass.  A linear layer is no instance of SensitiveToOrder. *)
Theorem C7_search_up_at_batched_linear fuel G node exclude_nodes visited_nodes out_edge
    transpose_history last_history p batch :
  is_linear node = true →
  Node.SensitiveToOrder node = false →
  filter_batch_size node = Ok batch →
  batch > 1 →
  last transpose_history = Some last_history →
  TransposeHistory.transpose last_history = Some p →
  let name := Node.name node in
  let idx := Edge.from_idx out_edge in
  let cur_visited_nodes := VisitedNodes.visit_up VisitedNodes.empty name idx in
  search_up (S fuel) G node exclude_nodes visited_nodes out_edge transpose_history =
  if bool_decide (length (items p) = 1%nat) then
    Ok ([EndActionUp name], VisitedNodes.Visited cur_visited_nodes)
  else
    '(cur_actions, cur_visited_nodes) ←
       other_out_edges_with (search_down fuel) G node exclude_nodes visited_nodes
         cur_visited_nodes out_edge (Some p);
    if bool_decide (p = py_tuple [1; 0]) then
      Ok (cur_actions ++ [SwitchBatchLinearAction name; EndActionUp name],
          VisitedNodes.Visited cur_visited_nodes)
    else
      r ← reverse_transpose (Some p);
      Ok ([InsertTransposeAction name "out" idx (Some out_edge) r; EndActionUp name],
          VisitedNodes.Visited cur_visited_nodes).
Proof.
  intros Hlin Hs Hbatch Hgt Hlast Hp name idx cur.
  cbn [search_up].
  rewrite (py_last_Some _ _ Hlast). cbn [mbind Res_bind].
  rewrite Hp. destruct (decide (length (items p) = 1%nat)) as [Hlen|Hlen].
  { rewrite (bool_decide_true _ Hlen). by destruct p as [[|a [|b q]]|[|a [|b q]]]. }
  rewrite (bool_decide_false _ Hlen).
  rewrite is_single_axis_false by done. rewrite Hs.
  fold name idx cur.
  destruct (other_out_edges_with _ _ _ _ _ _ _ _) as [[acts v]| |];
    cbn [mbind Res_bind]; [|done|done].
  rewrite Hlin, Hbatch. cbn [mbind Res_bind].
  rewrite bool_decide_true by done.
  case_bool_decide as Hp10.
  - by rewrite bool_decide_true by congruence.
  - by rewrite bool_decide_false by congruence.
Qed.

End explorer_facts.

(** The theorem at the second transpose of the cancelling pair.  With the
    helpers modelled from the spec: reached with the permutation of the
    first transpose, which is the inverse of its own, it is deleted without
    a reshape; reached with another permutation it takes the composition.
    With a helper that reports a shape before a residual reshape, the
    DeleteTranspose carries the reshape from that shape to the output shape
    of the node. *)
Lemma C6_search_down_at_transpose_witness :
  let G := Examples.cancelling_pair in
  let t2 := Examples.t2_node in
  let cur := VisitedNodes.visit_down VisitedNodes.empty "t2" 0 in
  inverse_of [0; 2; 3; 1] [0; 3; 1; 2] ∧
  search_down 1 G t2 ∅ VisitedNodes.empty (Examples.edge "t1" "t2")
    (Examples.history_of "t1" (py_list [0; 2; 3; 1])) =
  Ok ([DeleteTransposeAction "t2" None; EndActionDown "t2"], VisitedNodes.Visited cur) ∧
  ¬ inverse_of [0; 2; 1; 3] [0; 3; 1; 2] ∧
  search_down 1 G t2 ∅ VisitedNodes.empty (Examples.edge "t1" "t2")
    (Examples.history_of "t1" (py_list [0; 2; 1; 3])) =
  Ok ([SetTransposeAction "t2" [0; 3; 2; 1]; EndActionDown "t2"], VisitedNodes.Visited cur) ∧
  search_down (H := Examples.helpers_with_residual [1; 1; 3; 20]) 1 G t2 ∅
    VisitedNodes.empty (Examples.edge "t1" "t2")
    (Examples.history_of "t1" (py_list [0; 2; 3; 1])) =
  Ok ([DeleteTransposeAction "t2" (Some ([1; 1; 3; 20], [1; 3; 4; 5]));
       EndActionDown "t2"], VisitedNodes.Visited cur).
Proof.
  intros G t2 cur.
  assert (Hyes : inverse_of [0; 2; 3; 1] [0; 3; 1; 2])
    by (apply (bool_decide_unpack _); by vm_compute).
  assert (Hno : ¬ inverse_of [0; 2; 1; 3] [0; 3; 1; 2]).
  { intros Hi. apply (bool_decide_pack _) in Hi. by vm_compute in Hi. }
  pose proof (λ H p reverses old_shape,
    C6_search_down_at_transpose (H := H) 0 G t2 ∅ VisitedNodes.empty
      (Examples.edge "t1" "t2")
      (Examples.history_of "t1" (py_list p))
      (TransposeHistory.mk "t1" None (Some (py_list p)) None) (py_list p)
      (Dim.mk [1; 4; 5; 3]) (Dim.mk [1; 3; 4; 5]) reverses old_shape
      eq_refl eq_refl eq_refl eq_refl eq_refl) as Hthm.
  cbv zeta in Hthm.
  split; [exact Hyes|]. split.
  { apply (Hthm SpecModel.helpers [0; 2; 3; 1] true None);
      [simpl; lia | reflexivity | reflexivity | reflexivity | by split | exact Hyes]. }
  split; [exact Hno|]. split.
  { apply (Hthm SpecModel.helpers [0; 2; 1; 3] false None);
      [simpl; lia | reflexivity | reflexivity | reflexivity
      |split; [discriminate | by intros ?%Hno] | exact Hno | reflexivity]. }
  apply (Hthm (Examples.helpers_with_residual [1; 1; 3; 20]) [0; 2; 3; 1] true
           (Some [1; 1; 3; 20]));
    [simpl; lia | reflexivity | reflexivity | reflexivity | by split | exact Hyes].
Defined.

(** C7, as the claim states it, fails on the code in two ways.  A
    permutation of a single axis is another permutation than (1, 0), and the
    result is the end sentinel alone.  And with the identity (0, 1) the
    other out-edge of the linear layer is visited first: when its target is
    excluded, the call raises CantContinueError and returns no
    InsertTranspose. *)
Lemma C7_counterexample :
  let G := Examples.batched_linear in
  let fc := Examples.fc_node in
  is_linear fc = true ∧ filter_batch_size fc = Ok 4 ∧
  search_up 2 G fc ∅ VisitedNodes.empty (Examples.edge "fc" "t")
    (Examples.history_of "t" (py_tuple [0])) =
  Ok ([EndActionUp "fc"],
      VisitedNodes.Visited (VisitedNodes.visit_up VisitedNodes.empty "fc" 0)) ∧
  search_up 2 G fc {["r"]} VisitedNodes.empty (Examples.edge "fc" "t")
    (Examples.history_of "t" (py_tuple [0; 1])) =
  Raise CantContinueError.
Proof. intros G fc. split_and!; reflexivity. Qed.

(** The theorem at the linear layer of the example: with the tuple (1, 0)
    the visit of the activation on the other out-edge comes first and the
    batch dimension is switched; with (0, 1), and with the list [1, 0],
    which is not equal to the tuple, the transpose is inserted again. *)
Lemma C7_search_up_at_batched_linear_witness :
  let G := Examples.batched_linear in
  let fc := Examples.fc_node in
  let out_edge := Examples.edge "fc" "t" in
  (∃ v, search_up 3 G fc ∅ VisitedNodes.empty out_edge
          (Examples.history_of "t" (py_tuple [1; 0])) =
        Ok ([EndActionDown "o2"; SwitchBatchLinearAction "fc"; EndActionUp "fc"],
            VisitedNodes.Visited v)) ∧
  (∃ v, search_up 3 G fc ∅ VisitedNodes.empty out_edge
          (Examples.history_of "t" (py_tuple [0; 1])) =
        Ok ([InsertTransposeAction "fc" "out" 0 (Some out_edge) (Some (py_list [0; 1]));
             EndActionUp "fc"], VisitedNodes.Visited v)) ∧
  (∃ v, search_up 3 G fc ∅ VisitedNodes.empty out_edge
          (Examples.history_of "t" (py_list [1; 0])) =
        Ok ([InsertTransposeAction "fc" "out" 0 (Some out_edge) (Some (py_list [1; 0]));
             EndActionUp "fc"], VisitedNodes.Visited v)).
Proof.
  intros G fc out_edge.
  pose proof (λ p,
    C7_search_up_at_batched_linear 2 G fc ∅ VisitedNodes.empty out_edge
      (Examples.history_of "t" p) (TransposeHistory.mk "t" None (Some p) None) p 4
      eq_refl eq_refl eq_refl eq_refl eq_refl eq_refl) as Hthm.
  cbv zeta in Hthm. split_and!.
  - rewrite (Hthm (py_tuple [1; 0])). eexists. vm_compute. reflexivity.
  - rewrite (Hthm (py_tuple [0; 1])). eexists. vm_compute. reflexivity.
  - rewrite (Hthm (py_list [1; 0])). eexists. vm_compute. reflexivity.
Defined.

(** ** Scoring and the choice of the driver *)

Lemma count_actions_filter (p : Action → bool) (actions : list Action) :
  count_actions p actions = Z.of_nat (length (filter p actions)).
Proof.
  induction actions as [|a actions IH]; [done|].
  cbn [count_actions]. rewrite IH, filter_cons.
  destruct (p a); simpl; [|done]. lia.
Qed.

Lemma count_eliminated_score (actions : option (list Action)) :
  count_eliminated actions = score actions.
Proof.
  destruct actions as [actions|]; [|done].
  unfold count_eliminated, score. by rewrite !count_actions_filter.
Qed.

Lemma transpose_moved_true (G : Graph) (actions : option (list Action)) :
  transpose_moved G actions = Ok true ↔
  ∃ acts, actions = Some acts ∧ moved_downstream G acts.
Proof.
  unfold transpose_moved, moved_downstream. destruct actions as [acts|].
  - destruct (sum_steps (insert_step_idx G) _) as [i| |] eqn:Hi; cbn [mbind Res_bind];
      [|split; [done | intros (? & ? & ? & ? & ? & ? & _); simplify_eq; congruence]..].
    destruct (sum_steps (delete_step_idx G) _) as [d| |] eqn:Hd; cbn [mbind Res_bind];
      [|split; [done | intros (? & ? & ? & ? & ? & ? & _); simplify_eq; congruence]..].
    split.
    + intros [= Hb]. apply bool_decide_eq_true in Hb.
      exists acts. split; [done|]. by exists i, d.
    + intros (? & ? & i' & d' & Hi' & Hd' & Hgt). simplify_eq.
      rewrite Hi in Hi'. rewrite Hd in Hd'. simplify_eq.
      by rewrite bool_decide_true.
  - split; [done | intros (? & ? & _); done].
Qed.

(** The driver monad, step by step. *)
Lemma M_bind_info {A} (e : event) (f : unit → M A) (st : DriverState) :
  (info e ≫= f) st = f () (mkState (graph st) (log st ++ [e])).
Proof. done. Qed.

Lemma M_bind_get {A} (f : Graph → M A) (st : DriverState) :
  (get_graph ≫= f) st = f (graph st) st.
Proof. done. Qed.

Lemma M_bind_put {A} (G : Graph) (f : unit → M A) (st : DriverState) :
  (put_graph G ≫= f) st = f () (mkState G (log st)).
Proof. done. Qed.

Lemma M_bind_lift_Ok {A B} (r : Res A) (a : A) (f : A → M B) (st : DriverState) :
  r = Ok a → (lift r ≫= f) st = f a st.
Proof. by intros ->. Qed.

Lemma M_bind_ret {A B} (a : A) (f : A → M B) (st : DriverState) :
  (mret a ≫= f) st = f a st.
Proof. done. Qed.

Section driver_choice.

Context `{!TransposeHelpers} `{!GraphBackend}.

(** C1 (amended): a direction is scored by count_eliminated, the number of
    DeleteTranspose actions minus the number of InsertTranspose actions and
    -1 for a failed direction.  For every transpose that the driver
    examines in a pass, whatever transposes are still to be examined after
    it, the upward result is committed exactly when its score is positive
    and not below the downward score; otherwise the downward result is
    committed exactly when its score is positive, or is zero while the step
    indices of the inserted transposes sum to more than the step indices of
    the producers of all the deleted transposes of the downward actions;
    otherwise nothing is committed.  The actions of the committed result
    are appended to the actions of the pass and its nodes, with the
    transpose, to the visited nodes of the pass, and the examination goes
    on with the transposes that are left (or ends there, when single_step
    or steps is set and a result was committed). *)
Theorem C1_driver_choice (fuel : nat) (opts : Options) (st : DriverState)
    (transpose_node : Node.t) (visited_nodes : gset string)
    (up down : option (list Action * VisitedNodes.t)) (c : choice)
    (found_results : bool) (actions : list Action) :
  Node.name transpose_node ∉ visited_nodes →
  search_upwards fuel (graph st) transpose_node visited_nodes = Ok up →
  search_downwards fuel opts (graph st) transpose_node visited_nodes = Ok down →
  evaluate_results (graph st) (actions_of up) (actions_of down) = Ok c →
  let name := Node.name transpose_node in
  let up_count := count_eliminated (actions_of up) in
  let down_count := count_eliminated (actions_of down) in
  let up_wins := up_count > 0 ∧ up_count >= down_count in
  let down_wins :=
    down_count > 0 ∨
    (down_count = 0 ∧
     ∃ acts, actions_of down = Some acts ∧ moved_downstream (graph st) acts) in
  let st' := mkState (graph st) (log st ++ [LogTrying name; choice_event name c up down]) in
  up_count = score (actions_of up) ∧
  down_count = score (actions_of down) ∧
  (c = CommitUp ↔ up_wins) ∧
  (c = CommitDown ↔ ¬ up_wins ∧ down_wins) ∧
  (c = CommitNothing ↔ ¬ up_wins ∧ ¬ down_wins) ∧
  (∀ transposes,
     examine_transposes fuel opts (transpose_node :: transposes) found_results actions
       visited_nodes st =
     if bool_decide (c = CommitNothing) then
       examine_transposes fuel opts transposes found_results actions visited_nodes st'
     else if single_step opts || bool_decide (steps opts ≠ None) then
       (Ok (true, actions ++ committed c up down), st')
     else
       examine_transposes fuel opts transposes true (actions ++ committed c up down)
         (visited_nodes ∪ claimed c up down ∪ {[name]}) st') ∧
  (examine_transposes fuel opts [transpose_node] found_results actions visited_nodes st).1
  = Ok (found_results || bool_decide (c ≠ CommitNothing),
        actions ++ committed c up down).
Proof.
  intros Hvis Hup Hdown Hc name up_count down_count up_wins down_wins st'.
  assert (Hchoice :
    (c = CommitUp ↔ up_wins) ∧ (c = CommitDown ↔ ¬ up_wins ∧ down_wins) ∧
    (c = CommitNothing ↔ ¬ up_wins ∧ ¬ down_wins)).
  { pose proof (transpose_moved_true (graph st) (actions_of down)) as Hmoved.
    unfold evaluate_results in Hc. fold up_count down_count in Hc.
    subst up_wins down_wins.
    destruct (decide (up_count > 0 ∧ up_count >= down_count)) as [Hu|Hu].
    { destruct Hu as [H1 H2]. rewrite !bool_decide_true in Hc by done.
      simplify_eq/=. naive_solver. }
    assert (Hb : bool_decide (up_count > 0) && bool_decide (up_count >= down_count)
                 = false).
    { apply not_true_is_false. rewrite andb_true_iff, !bool_decide_eq_true. done. }
    rewrite Hb in Hc.
    repeat case_bool_decide;
      try destruct (transpose_moved _ _) as [[|]| |];
      simplify_eq/=; naive_solver lia. }
  assert (Hstep : ∀ transposes,
     examine_transposes fuel opts (transpose_node :: transposes) found_results actions
       visited_nodes st =
     if bool_decide (c = CommitNothing) then
       examine_transposes fuel opts transposes found_results actions visited_nodes st'
     else if single_step opts || bool_decide (steps opts ≠ None) then
       (Ok (true, actions ++ committed c up down), st')
     else
       examine_transposes fuel opts transposes true (actions ++ committed c up down)
         (visited_nodes ∪ claimed c up down ∪ {[name]}) st').
  { intros transposes. cbn [examine_transposes]. rewrite bool_decide_false by done.
    rewrite M_bind_info, M_bind_get. cbn [graph].
    rewrite (M_bind_lift_Ok _ _ _ _ Hup), (M_bind_lift_Ok _ _ _ _ Hdown).
    fold (actions_of up) (actions_of down).
    rewrite (M_bind_lift_Ok _ _ _ _ Hc).
    destruct Hchoice as (HU & HD & HN). subst st'.
    destruct c.
    - rewrite M_bind_info. rewrite (bool_decide_false (CommitUp = _)) by done.
      destruct up as [[up_actions up_visited]|].
      2:{ apply proj1 in HU. specialize (HU eq_refl) as [Hpos _].
          subst up_count. simpl in Hpos. lia. }
      rewrite (M_bind_lift_Ok _ (up_actions, up_visited)) by done.
      cbn [committed claimed choice_event actions_of fmap option_fmap option_map
           default fst snd graph log].
      rewrite <- (assoc_L (++)). by destruct (single_step opts || _).
    - rewrite M_bind_info. rewrite (bool_decide_false (CommitDown = _)) by done.
      destruct down as [[down_actions down_visited]|].
      2:{ apply proj1 in HD. specialize (HD eq_refl) as [_ [Hpos|[Hzero _]]];
            subst down_count; simpl in *; lia. }
      rewrite (M_bind_lift_Ok _ (down_actions, down_visited)) by done.
      cbn [committed claimed choice_event actions_of fmap option_fmap option_map
           default fst snd graph log].
      rewrite <- (assoc_L (++)). by destruct (single_step opts || _).
    - rewrite M_bind_info. rewrite (bool_decide_true (CommitNothing = _)) by done.
      cbn [choice_event graph log]. by rewrite <- (assoc_L (++)). }
  split_and!;
    [apply count_eliminated_score | apply count_eliminated_score
    |apply Hchoice | apply Hchoice | apply Hchoice | exact Hstep |].
  rewrite Hstep. cbn [examine_transposes].
  destruct c; cbn [committed].
  - rewrite (bool_decide_false (CommitUp = _)) by done. rewrite orb_true_r.
    by destruct (single_step opts || _).
  - rewrite (bool_decide_false (CommitDown = _)) by done. rewrite orb_true_r.
    by destruct (single_step opts || _).
  - rewrite (bool_decide_true (CommitNothing = _)) by done.
    by rewrite orb_false_r, app_nil_r.
Qed.

End driver_choice.

(** C1, as the claim states it, fails on the code.  In the example the
    transpose t goes down through the activation a to s1 and s2, where it
    is inserted again, and to t2, which is deleted with it: the downward
    score is zero.  The step indices of the two inserted transposes sum to
    4, more than the step index 0 of the producer x of the deleted
    transpose t, so that by the claim the downward result is committed.
    The driver sums the producers of both deleted transposes, 0 + 5, finds
    that nothing moved, and commits nothing. *)
Lemma C1_counterexample :
  let G := Examples.fan_out in
  let st := mkState G [] in
  let opts := Examples.default_options in
  ∃ t up down,
    nodes G !! "t" = Some t ∧
    search_upwards 8 G t ∅ = Ok up ∧
    search_downwards 8 opts G t ∅ = Ok down ∧
    actions_of up =
      Some [DeleteTransposeAction "t" None;
            InsertTransposeAction "x" "out" 0 (Some (Examples.edge "x" "t"))
              (Some (py_list [1; 0]));
            EndActionUp "x"] ∧
    actions_of down =
      Some [DeleteTransposeAction "t" None;
            InsertTransposeAction "s1" "in" 0 None (Some (py_list [1; 0]));
            EndActionDown "s1";
            InsertTransposeAction "s2" "in" 0 None (Some (py_list [1; 0]));
            EndActionDown "s2";
            DeleteTransposeAction "t2" None; EndActionDown "t2"] ∧
    count_eliminated (actions_of up) = 0 ∧
    count_eliminated (actions_of down) = 0 ∧
    sum_steps (insert_step_idx G)
      [InsertTransposeAction "s1" "in" 0 None (Some (py_list [1; 0]));
       InsertTransposeAction "s2" "in" 0 None (Some (py_list [1; 0]))] = Ok 4 ∧
    delete_step_idx G (DeleteTransposeAction "t" None) = Ok 0 ∧
    delete_step_idx G (DeleteTransposeAction "t2" None) = Ok 5 ∧
    evaluate_results G (actions_of up) (actions_of down) = Ok CommitNothing ∧
    (examine_transposes 8 opts [t] false [] ∅ st).1 = Ok (false, []).
Proof.
  intros G st opts. do 3 eexists.
  split; [by vm_compute|].
  split; [by vm_compute|].
  split; [by vm_compute|].
  split_and!; by vm_compute.
Qed.

(** The theorem at the first transpose of the two chains, with the second
    one still to be examined: the upward result, which reorders the input,
    has score 1 and is committed, and the examination goes on with the
    second transpose, which is eliminated in the same way. *)
Lemma C1_driver_choice_witness :
  let G := Examples.two_chains in
  let opts := Examples.default_options in
  ∃ ta tb, nodes G !! "ta" = Some ta ∧ nodes G !! "tb" = Some tb ∧
  (examine_transposes 8 opts [ta] false [] ∅ (mkState G [])).1 =
  Ok (true,
      [DeleteTransposeAction "ta" None;
       ReorderInputDims "in1"
         [TransposeHistory.mk "ta" (Some [2; 2]) (Some (py_list [1; 0])) (Some [2; 2])]
         (Some (py_list [1; 0]));
       EndActionUp "in1"]) ∧
  (examine_transposes 8 opts [ta; tb] false [] ∅ (mkState G [])).1 =
  Ok (true,
      [DeleteTransposeAction "ta" None;
       ReorderInputDims "in1"
         [TransposeHistory.mk "ta" (Some [2; 2]) (Some (py_list [1; 0])) (Some [2; 2])]
         (Some (py_list [1; 0]));
       EndActionUp "in1";
       DeleteTransposeAction "tb" None;
       ReorderInputDims "in2"
         [TransposeHistory.mk "tb" (Some [2; 2]) (Some (py_list [1; 0])) (Some [2; 2])]
         (Some (py_list [1; 0]));
       EndActionUp "in2"]).
Proof.
  intros G opts.
  destruct (nodes G !! "ta") as [ta|] eqn:Hta; [|by vm_compute in Hta].
  destruct (nodes G !! "tb") as [tb|] eqn:Htb; [|by vm_compute in Htb].
  exists ta, tb. split; [done|]. split; [done|].
  vm_compute in Hta, Htb. simplify_eq.
  set (ta := Node.mk "ta" _ _ _ _ _ _ _ _ _ _ _ _ _ _ _).
  set (tb := Node.mk "tb" _ _ _ _ _ _ _ _ _ _ _ _ _ _ _).
  destruct (search_upwards 8 G ta ∅) as [up| |] eqn:Hup;
    [|by vm_compute in Hup..].
  destruct (search_downwards 8 opts G ta ∅) as [down| |] eqn:Hdown;
    [|by vm_compute in Hdown..].
  assert (Hc : evaluate_results G (actions_of up) (actions_of down) = Ok CommitUp).
  { vm_compute in Hup, Hdown. by simplify_eq. }
  destruct (C1_driver_choice 8 opts (mkState G []) ta ∅ up down CommitUp false []
              (not_elem_of_empty _) Hup Hdown Hc) as (_ & _ & _ & _ & _ & Hrest & ->).
  rewrite (Hrest [tb]).
  vm_compute in Hup. simplify_eq. split; by vm_compute.
Defined.

(** ** The log of the driver *)

Lemma passes_logged_app (l1 l2 : list event) :
  passes_logged (l1 ++ l2) = (passes_logged l1 + passes_logged l2)%nat.
Proof. unfold passes_logged. by rewrite filter_app, length_app. Qed.

Lemma M_bind_lift {A B} (r : Res A) (f : A → M B) (st : DriverState) :
  (lift r ≫= f) st =
  match r with
  | Ok a => f a st
  | Raise e => (Raise e, st)
  | OutOfFuel => (OutOfFuel, st)
  end.
Proof. by destruct r. Qed.

Section quiet_facts.

Lemma quiet_ret {A} (a : A) : quiet (mret a).
Proof. intros st. exists []. by rewrite app_nil_r. Qed.

Lemma quiet_lift {A} (r : Res A) : quiet (lift r).
Proof. intros st. exists []. by rewrite app_nil_r. Qed.

Lemma quiet_get : quiet get_graph.
Proof. intros st. exists []. by rewrite app_nil_r. Qed.

Lemma quiet_put (G : Graph) : quiet (put_graph G).
Proof. intros st. exists []. by rewrite app_nil_r. Qed.

Lemma quiet_in_place (f : Graph → Res unit * Graph) : quiet (in_place f).
Proof.
  intros st. exists []. unfold in_place. destruct (f (graph st)).
  by rewrite app_nil_r.
Qed.

Lemma quiet_info (e : event) : is_LogStep e = false → quiet (info e).
Proof.
  intros He st. exists [e]. split; [done|].
  unfold passes_logged. rewrite filter_cons_False; [done|].
  rewrite He. by intros [].
Qed.

Lemma quiet_bind {A B} (m : M A) (f : A → M B) :
  quiet m → (∀ a, quiet (f a)) → quiet (m ≫= f).
Proof.
  intros Hm Hf st. unfold mbind, M_bind.
  destruct (Hm st) as (l1 & Hl1 & Hq1).
  destruct (m st) as [[a|e|] st1]; simpl in *; [|by exists l1..].
  destruct (Hf a st1) as (l2 & Hl2 & Hq2).
  exists (l1 ++ l2). rewrite Hl2, Hl1, passes_logged_app, Hq1, Hq2.
  by rewrite (assoc_L (++)).
Qed.

Lemma quiet_for_each_M {A} (l : list A) (body : A → M unit) :
  (∀ a, quiet (body a)) → quiet (for_each_M l body).
Proof.
  intros Hbody. induction l as [|a l IH]; simpl.
  - apply quiet_ret.
  - apply quiet_bind; [apply Hbody | intros _; apply IH].
Qed.

End quiet_facts.

Create HintDb quiet.

#[local] Hint Resolve quiet_ret quiet_lift quiet_get quiet_put quiet_in_place : quiet.
#[local] Hint Extern 1 (quiet (info _)) => (apply quiet_info; reflexivity) : quiet.
#[local] Hint Extern 2 (quiet (_ ≫= _)) => (apply quiet_bind; [|intros]) : quiet.
#[local] Hint Extern 2 (quiet (for_each_M _ _)) => (apply quiet_for_each_M; intros) : quiet.
#[local] Hint Extern 3 (quiet (if ?b then _ else _)) => destruct b : quiet.
#[local] Hint Extern 3 (quiet (match ?x with (_, _) => _ end)) => destruct x : quiet.
#[local] Hint Extern 3 (quiet (let '(_, _) := ?x in _)) => destruct x : quiet.

Section driver_log.

Context `{!TransposeHelpers} `{!GraphBackend}.
Variable fuel : nat.
Variable opts : Options.

Lemma quiet_apply_actions (results : list Action) : quiet (apply_actions results).
Proof. unfold apply_actions. auto 10 with quiet. Qed.

Lemma quiet_combine_transposes : quiet combine_transposes.
Proof. unfold combine_transposes. auto 20 with quiet. Qed.

Lemma quiet_combine_reshapes : quiet combine_reshapes.
Proof. unfold combine_reshapes. auto 20 with quiet. Qed.

Lemma quiet_examine_transposes transposes found_results actions visited_nodes :
  quiet (examine_transposes fuel opts transposes found_results actions visited_nodes).
Proof.
  revert found_results actions visited_nodes.
  induction transposes as [|t transposes IH]; intros found_results actions visited_nodes;
    cbn [examine_transposes].
  - apply quiet_ret.
  - case_bool_decide; [apply IH|].
    do 5 (apply quiet_bind; [auto with quiet|intros]).
    assert (Hcommit : ∀ result : option (list Action * VisitedNodes.t),
      quiet ('(cur_actions, cur_visited) ←
               lift (match result with Some r => Ok r | None => Raise TypeError end);
             if single_step opts || bool_decide (steps opts ≠ None)
             then mret (true, actions ++ cur_actions)
             else examine_transposes fuel opts transposes true (actions ++ cur_actions)
                    (visited_nodes ∪ dom (VisitedNodes.nodes cur_visited)
                       ∪ {[Node.name t]}))).
    { intros result. apply quiet_bind; [auto with quiet|]. intros [cur_actions cur_visited].
      destruct (single_step opts || _); [apply quiet_ret | apply IH]. }
    destruct a3; (apply quiet_bind; [auto with quiet|intros]); [apply Hcommit..|apply IH].
Qed.


(** A pass writes [LogStep] once, as its first line. *)
Lemma driver_pass_one_step (pass_count : Z) (st : DriverState) :
  ∃ l, log (driver_pass fuel opts pass_count st).2 = log st ++ LogStep pass_count :: l ∧
       passes_logged l = 0%nat.
Proof.
  unfold driver_pass. rewrite M_bind_info.
  match goal with |- context [?m (mkState ?g ?l)] =>
    assert (Hq : quiet m); [|destruct (Hq (mkState g l)) as (l' & Hl' & Hq')] end.
  { pose proof quiet_examine_transposes. pose proof quiet_apply_actions.
    pose proof quiet_combine_reshapes. pose proof quiet_combine_transposes.
    auto 30 with quiet. }
  exists l'. split; [|done]. rewrite Hl'. simpl. by rewrite <- (assoc_L (++)).
Qed.

End driver_log.

(** ** The loop over the passes *)

Section pass_loop.

Variable pass : Z → M bool.

Hypothesis pass_one_step : ∀ pass_count st,
  ∃ l, log (pass pass_count st).2 = log st ++ LogStep pass_count :: l ∧
       passes_logged l = 0%nat.

Lemma pass_adds_one (pass_count : Z) (st : DriverState) :
  passes_logged (log (pass pass_count st).2) = S (passes_logged (log st)).
Proof.
  destruct (pass_one_step pass_count st) as (l & -> & Hl).
  rewrite passes_logged_app. change (LogStep pass_count :: l) with ([LogStep pass_count] ++ l).
  rewrite passes_logged_app, Hl. unfold passes_logged at 2. simpl. lia.
Qed.

(** The loop makes no more passes than the limit leaves. *)
Lemma loop_pass_bound (steps : option Z) loop_fuel found_results pass_count st :
  (passes_logged (log (while_found_results pass steps loop_fuel found_results
                         pass_count st).2)
   ≤ passes_logged (log st) + Z.to_nat (pass_limit steps - pass_count))%nat.
Proof.
  revert found_results pass_count st.
  induction loop_fuel as [|loop_fuel IH]; intros found_results pass_count st.
  - destruct found_results; simpl; [|lia].
    destruct steps as [n|]; simpl; case_bool_decide; simpl; lia.
  - destruct found_results; [|simpl; lia].
    assert (Hstep : pass_count < pass_limit steps →
      (passes_logged
         (log ((found_results ← pass (pass_count + 1);
                while_found_results pass steps loop_fuel found_results
                  (pass_count + 1)) st).2)
       ≤ passes_logged (log st) + Z.to_nat (pass_limit steps - pass_count))%nat).
    { intros Hlt. unfold mbind, M_bind.
      pose proof (pass_adds_one (pass_count + 1) st) as Hone.
      destruct (pass (pass_count + 1) st) as [[found|e|] st1]; simpl in *; [|lia..].
      specialize (IH found (pass_count + 1) st1). lia. }
    cbn [while_found_results]. unfold pass_limit in *.
    destruct steps as [n|]; simpl in *; case_bool_decide; simpl; try lia;
      apply Hstep; lia.
Qed.

(** [n] passes that find results are [n] iterations of the loop. *)
Lemma loop_runs (steps : option Z) (n : nat) loop_fuel pass_count st st' :
  passes_found pass n pass_count st = Some st' →
  pass_count + Z.of_nat n <= pass_limit steps →
  while_found_results pass steps (n + loop_fuel) true pass_count st =
  while_found_results pass steps loop_fuel true (pass_count + Z.of_nat n) st'.
Proof.
  revert pass_count st. induction n as [|n IH]; intros pass_count st Hfound Hle.
  - simpl in Hfound. simplify_eq. by rewrite Z.add_0_r.
  - cbn [passes_found] in Hfound.
    destruct (pass (pass_count + 1) st) as [[[|]|e|] st1] eqn:Hpass; try done.
    change (S n + loop_fuel)%nat with (S (n + loop_fuel)).
    cbn [while_found_results]. unfold pass_limit in Hle.
    assert (Hgo :
      (found_results ← pass (pass_count + 1);
       while_found_results pass steps (n + loop_fuel) found_results (pass_count + 1)) st
      = while_found_results pass steps loop_fuel true
          (pass_count + Z.of_nat (S n)) st').
    { unfold mbind, M_bind. rewrite Hpass.
      rewrite (IH (pass_count + 1) st1 Hfound) by (unfold pass_limit; lia).
      f_equal. lia. }
    destruct steps as [m|]; simpl in Hle; cbv beta iota.
    + rewrite (bool_decide_false (pass_count >= m)) by lia. exact Hgo.
    + rewrite (bool_decide_false (pass_count >= 50)) by lia. exact Hgo.
Qed.

(** At the limit the loop ends: with the fatal error when there is no
    number of steps, with a return when there is one. *)
Lemma loop_at_limit (steps : option Z) loop_fuel pass_count st :
  pass_count = pass_limit steps →
  while_found_results pass steps loop_fuel true pass_count st =
  match steps with
  | None => (Raise (ValueError stuck_message), st)
  | Some _ => (Ok pass_count, st)
  end.
Proof.
  intros ->. unfold pass_limit.
  destruct loop_fuel; cbn [while_found_results];
    destruct steps as [n|]; simpl; rewrite ?bool_decide_true by lia; done.
Qed.

(** With a number of steps, an exception of the loop is an exception of a
    pass. *)
Lemma loop_raise_from_pass (n : Z) loop_fuel found_results pass_count st e :
  (while_found_results pass (Some n) loop_fuel found_results pass_count st).1 = Raise e →
  ∃ k st0, (pass k st0).1 = Raise e.
Proof.
  revert found_results pass_count st.
  induction loop_fuel as [|loop_fuel IH]; intros found_results pass_count st;
    destruct found_results; cbn [while_found_results]; try done;
    case_bool_decide; try done.
  unfold mbind, M_bind.
  destruct (pass (pass_count + 1) st) as [[found|e'|] st1] eqn:Hpass; simpl.
  - apply IH.
  - intros [= ->]. exists (pass_count + 1), st. by rewrite Hpass.
  - done.
Qed.

End pass_loop.

Section pass_limit_facts.

Context `{!TransposeHelpers} `{!GraphBackend}.

(** C2: eliminate_transposes makes no more passes than the limit, 50
    without a number of steps and the number of steps with one.  When as
    many passes as the limit allows have all found results, the call
    without a number of steps raises ValueError with the message that
    contains "stuck in a loop", and the call with a number of steps returns;
    with a number of steps an exception of the call is an exception of one
    of its passes, never that of the loop. *)
Theorem C2_pass_limit (fuel : nat) (opts : Options) (loop_fuel : nat)
    (st : DriverState) :
  let run := eliminate_transposes fuel opts loop_fuel st in
  let limit := pass_limit (steps opts) in
  (passes_logged (log run.2) ≤ passes_logged (log st) + Z.to_nat limit)%nat ∧
  (∀ st', 0 <= limit → (Z.to_nat limit ≤ loop_fuel)%nat →
     passes_found (driver_pass fuel opts) (Z.to_nat limit) 0 st = Some st' →
     match steps opts with
     | None => run = (Raise (ValueError stuck_message), st')
     | Some n => run = (Ok n, mkState (graph st') (log st' ++ [LogFinished]))
     end) ∧
  (∀ n e, steps opts = Some n → run.1 = Raise e →
     ∃ pass_count st0, (driver_pass fuel opts pass_count st0).1 = Raise e) ∧
  contains_text "stuck in a loop" stuck_message.
Proof.
  intros run limit. subst run limit. unfold eliminate_transposes.
  pose proof (driver_pass_one_step fuel opts) as Hone.
  split_and!.
  - pose proof (loop_pass_bound _ Hone (steps opts) loop_fuel true 0 st) as Hb.
    rewrite Z.sub_0_r in Hb.
    unfold mbind at 1, M_bind at 1.
    destruct (while_found_results _ _ _ _ _ _) as [[z|e|] st1]; simpl in *; [|done..].
    rewrite passes_logged_app. unfold passes_logged at 2. simpl.
    by rewrite Nat.add_0_r.
  - intros st' Hpos Hfuel Hfound.
    assert (Hloop :
      while_found_results (driver_pass fuel opts) (steps opts) loop_fuel true 0 st =
      match steps opts with
      | None => (Raise (ValueError stuck_message), st')
      | Some n => (Ok n, st')
      end).
    { rewrite <- (Nat.sub_add _ _ Hfuel), Nat.add_comm.
      rewrite (loop_runs _ _ _ _ _ _ _ Hfound) by lia.
      rewrite loop_at_limit by lia.
      unfold pass_limit in *. destruct (steps opts) as [n|]; [|done].
      change (default 50 (Some n)) with n in *. do 2 f_equal. lia. }
    unfold mbind at 1, M_bind at 1, mbind at 2, M_bind at 2.
    rewrite Hloop. by destruct (steps opts).
  - intros n e Hsteps. rewrite Hsteps. unfold mbind at 1, M_bind at 1.
    destruct (while_found_results _ _ _ _ _ _) as [[z|e'|] st1] eqn:Hloop;
      simpl; try done.
    intros [= ->]. apply (loop_raise_from_pass _ n loop_fuel true 0 st).
    by rewrite Hloop.
  - by exists "Sorry, eliminate transposes seems to be "%string,
              ". Please report to GreenWaves."%string.
Qed.

End pass_limit_facts.

(** The theorem on the two chains with actions that have no effect: every
    pass finds the first transpose again.  Without a number of steps 50
    passes find results and the call raises; with steps = 2 it returns after
    two passes. *)
Lemma C2_pass_limit_witness :
  let st := mkState Examples.two_chains [] in
  let run :=
    @eliminate_transposes SpecModel.helpers SpecBackend.stuck 8
      Examples.default_options 50 st in
  let run2 :=
    @eliminate_transposes SpecModel.helpers SpecBackend.stuck 8
      Examples.two_steps 2 st in
  (∃ st50, run = (Raise (ValueError stuck_message), st50)) ∧
  (∃ st2, run2 = (Ok 2, st2)) ∧
  (passes_logged (log run.2) ≤ 50)%nat ∧
  (passes_logged (log run2.2) ≤ 2)%nat.
Proof.
  intros st run run2.
  destruct (@C2_pass_limit SpecModel.helpers SpecBackend.stuck 8
              Examples.default_options 50 st) as (Hbound & Hstuck & _).
  destruct (@C2_pass_limit SpecModel.helpers SpecBackend.stuck 8
              Examples.two_steps 2 st) as (Hbound2 & Hsteps & _).
  split_and!.
  - destruct (passes_found
                (@driver_pass SpecModel.helpers SpecBackend.stuck 8
                   Examples.default_options) 50 0 st) as [st50|] eqn:H50.
    + exists st50. apply (Hstuck st50); [done | done | exact H50].
    + exfalso. vm_compute in H50. discriminate H50.
  - destruct (passes_found
                (@driver_pass SpecModel.helpers SpecBackend.stuck 8
                   Examples.two_steps) 2 0 st) as [st2|] eqn:H2.
    + eexists. apply (Hsteps st2); [done | done | exact H2].
    + exfalso. vm_compute in H2. discriminate H2.
  - exact Hbound.
  - exact Hbound2.
Defined.

(** ** single_step *)

Lemma commit_is_last_app (l1 l2 : list event) :
  Forall (λ e, is_commit e = false) l1 → commit_is_last l2 → commit_is_last (l1 ++ l2).
Proof.
  intros Hl1 Hl2 i e Hi He. rewrite length_app.
  apply lookup_app_Some in Hi as [Hi|[Hge Hi]].
  - rewrite Forall_forall in Hl1. apply list_elem_of_lookup_2 in Hi.
    specialize (Hl1 e Hi). congruence.
  - specialize (Hl2 _ _ Hi He). lia.
Qed.

Lemma commit_is_last_no_commit (l : list event) :
  Forall (λ e, is_commit e = false) l → commit_is_last l.
Proof.
  intros Hl i e Hi He. rewrite Forall_forall in Hl.
  apply list_elem_of_lookup_2 in Hi. specialize (Hl e Hi). congruence.
Qed.

Lemma commit_is_last_snoc (l : list event) (e : event) :
  Forall (λ e, is_commit e = false) l → commit_is_last (l ++ [e]).
Proof.
  intros Hl. apply commit_is_last_app; [done|].
  intros [|i] e' Hi _; [done|]. by destruct i.
Qed.

Section single_step_facts.

Context `{!TransposeHelpers} `{!GraphBackend}.
Variable fuel : nat.
Variable opts : Options.
Hypothesis single : single_step opts = true.

(** With single_step the examination of the transposes of a pass ends with
    the first selection. *)
Lemma examine_transposes_single transposes found_results actions visited_nodes st :
  ∃ l, log (examine_transposes fuel opts transposes found_results actions
              visited_nodes st).2 = log st ++ l ∧
       commit_is_last l.
Proof.
  revert found_results actions visited_nodes st.
  induction transposes as [|t transposes IH];
    intros found_results actions visited_nodes st; cbn [examine_transposes].
  - exists []. split; [by rewrite app_nil_r|]. by apply commit_is_last_no_commit.
  - case_bool_decide; [apply IH|].
    rewrite M_bind_info, M_bind_get. cbn [graph].
    set (st1 := mkState (graph st) (log st ++ [LogTrying (Node.name t)])).
    assert (Hfail : ∃ l, log st1 = log st ++ l ∧ commit_is_last l).
    { exists [LogTrying (Node.name t)]. split; [done|].
      by apply commit_is_last_no_commit; repeat constructor. }
    rewrite M_bind_lift. destruct (search_upwards _ _ _ _) as [up|e|]; [|done..].
    rewrite M_bind_lift. destruct (search_downwards _ _ _ _ _) as [down|e|]; [|done..].
    rewrite M_bind_lift. destruct (evaluate_results _ _ _) as [c|e|]; [|done..].
    assert (Hcommit : ∀ (e : event) (result : option (list Action * VisitedNodes.t)),
      is_commit e = true →
      ∃ l, log ((_ ← info e;
                 '(cur_actions, cur_visited) ←
                   lift (match result with Some r => Ok r | None => Raise TypeError end);
                 if single_step opts || bool_decide (steps opts ≠ None)
                 then mret (true, actions ++ cur_actions)
                 else examine_transposes fuel opts transposes true (actions ++ cur_actions)
                        (visited_nodes ∪ dom (VisitedNodes.nodes cur_visited)
                           ∪ {[Node.name t]})) st1).2 = log st ++ l ∧
           commit_is_last l).
    { intros e result He. rewrite M_bind_info, M_bind_lift, single. cbn [orb].
      exists ([LogTrying (Node.name t)] ++ [e]).
      split; [|by apply commit_is_last_snoc; repeat constructor].
      destruct result as [[cur_actions cur_visited]|]; simpl; by rewrite <- (assoc_L (++)). }
    destruct c; [by apply Hcommit..|].
    rewrite M_bind_info.
    edestruct IH as (l & -> & Hl).
    exists ([LogTrying (Node.name t); LogNoElimination (Node.name t)] ++ l).
    split; [simpl; by rewrite <- !(assoc_L (++))|].
    apply commit_is_last_app; [by repeat constructor | done].
Qed.


(** C4 (amended): with single_step the examination of the transposes of a
    pass ends with the first selection: a selection is the last line the
    examination logs, so that no transpose is examined after it in that
    pass and the pass executes the actions of one result at most.  The call
    does not end there: without a number of steps, a pass that found a
    result is followed by another pass as long as fewer than 50 were
    made. *)
Theorem C4_single_step_each_pass :
  (∀ transposes found_results actions visited_nodes st,
     ∃ l, log (examine_transposes fuel opts transposes found_results actions
                 visited_nodes st).2 = log st ++ l ∧
          commit_is_last l) ∧
  (∀ loop_fuel pass_count st st1,
     steps opts = None →
     pass_count + 1 < 50 →
     driver_pass fuel opts (pass_count + 1) st = (Ok true, st1) →
     while_found_results (driver_pass fuel opts) (steps opts) (S (S loop_fuel)) true
       pass_count st =
     (found_results ← driver_pass fuel opts (pass_count + 1 + 1);
      while_found_results (driver_pass fuel opts) (steps opts) loop_fuel found_results
        (pass_count + 1 + 1)) st1).
Proof.
  split; [apply examine_transposes_single|].
  intros loop_fuel pass_count st st1 -> Hlt Hpass.
  cbn [while_found_results]. rewrite bool_decide_false by lia.
  unfold mbind at 1, M_bind at 1. rewrite Hpass.
  by rewrite bool_decide_false by lia.
Qed.

End single_step_facts.

(** C4, as the claim states it, fails on the code.  On the two chains with
    single_step the first pass selects and executes the elimination of ta;
    the call goes on, and the second pass examines and eliminates tb. *)
Lemma C4_counterexample :
  let run :=
    eliminate_transposes 8 Examples.single_step_options 4
      (mkState Examples.two_chains []) in
  single_step Examples.single_step_options = true ∧
  run.1 = Ok 3 ∧
  log run.2 =
    [LogStep 1; LogTrying "ta"; LogFoundUp "ta" 1; LogEliminate;
     LogStep 2; LogTrying "tb"; LogFoundUp "tb" 1; LogEliminate;
     LogStep 3; LogNothingFound; LogFinished] ∧
  ¬ stops_after_first_commit (log run.2) ∧
  nodes_of_class (graph run.2) TransposeParameters = [].
Proof.
  intros run.
  assert (Hlog : log run.2 =
    [LogStep 1; LogTrying "ta"; LogFoundUp "ta" 1; LogEliminate;
     LogStep 2; LogTrying "tb"; LogFoundUp "tb" 1; LogEliminate;
     LogStep 3; LogNothingFound; LogFinished]) by (by vm_compute).
  split_and!; [done | by vm_compute | done | | by vm_compute].
  rewrite Hlog. intros Hstops.
  specialize (Hstops 3%nat 5%nat (LogTrying "tb") eq_refl ltac:(lia) eq_refl).
  discriminate Hstops.
Qed.

(** The theorem on the two chains: with single_step the first pass
    examines ta, selects its upward result, and does not examine tb. *)
Lemma C4_single_step_each_pass_witness :
  ∃ l, log (examine_transposes 8 Examples.single_step_options
              [Examples.ta_node; Examples.tb_node] false [] ∅
              (mkState Examples.two_chains [])).2 = l ∧
       commit_is_last l ∧
       l = [LogTrying "ta"; LogFoundUp "ta" 1].
Proof.
  destruct (C4_single_step_each_pass 8 Examples.single_step_options eq_refl)
    as [Hpass _].
  destruct (Hpass [Examples.ta_node; Examples.tb_node] false [] ∅
              (mkState Examples.two_chains [])) as (l & Hl & Hlast).
  exists l. split; [exact Hl|]. split; [exact Hlast|].
  vm_compute in Hl. by simplify_eq.
Defined.

(** ** Cleanup: remove_silly_reshapes *)

Section remove_facts.

Implicit Types (G : Graph) (names : list string) (e i o : Edge.t).

Lemma nodes_remove_all G names (k : string) :
  nodes (remove_all G names) !! k = if decide (k ∈ names) then None else nodes G !! k.
Proof.
  unfold remove_all. revert G. induction names as [|a names IH]; intros G.
  - done.
  - cbn [foldl]. rewrite IH. cbn [nodes remove_and_reconnect].
    destruct (decide (k ∈ names)) as [Hin|Hin].
    + rewrite decide_True; [done|]. rewrite elem_of_cons. by right.
    + destruct (decide (k = a)) as [->|Hne].
      * rewrite lookup_delete_eq. rewrite decide_True; [done|].
        rewrite elem_of_cons. by left.
      * rewrite lookup_delete_ne by done. rewrite decide_False; [done|].
        rewrite elem_of_cons. by intros [?|?].
Qed.

Lemma quantization_remove_all G names :
  quantization (remove_all G names) = quantization G.
Proof.
  unfold remove_all. revert G. induction names as [|a names IH]; intros G; [done|].
  cbn [foldl]. by rewrite IH.
Qed.

Lemma edge_survives_remove G (n : string) e :
  e ∈ edges G → Edge.from_node e ≠ n → Edge.to_node e ≠ n →
  e ∈ edges (remove_and_reconnect G n).
Proof.
  intros He Hf Ht. cbn [edges remove_and_reconnect].
  apply elem_of_app. left. by apply list_elem_of_filter.
Qed.

(** An edge between nodes that stay stays. *)
Lemma edge_survives G names e :
  e ∈ edges G → Edge.from_node e ∉ names → Edge.to_node e ∉ names →
  e ∈ edges (remove_all G names).
Proof.
  unfold remove_all. revert G. induction names as [|a names IH]; intros G He Hf Ht.
  - done.
  - cbn [foldl]. rewrite not_elem_of_cons in Hf, Ht.
    apply IH; [|tauto|tauto]. apply edge_survives_remove; tauto.
Qed.

Lemma filter_comm {A} (P Q : A → Prop) `{!∀ x, Decision (P x)} `{!∀ x, Decision (Q x)}
    (l : list A) :
  filter P (filter Q l) = filter Q (filter P l).
Proof.
  rewrite !list_filter_filter. apply list_filter_iff. intros x. tauto.
Qed.

(** The first in-edge of a node stays its first in-edge when another node
    is removed that is not its source. *)
Lemma first_in_edge_remove_other G (n r : string) i :
  head (in_edges G r) = Some i → n ≠ r → Edge.from_node i ≠ n →
  head (in_edges (remove_and_reconnect G n) r) = Some i.
Proof.
  intros Hhead Hne Hfrom. unfold in_edges in *. cbn [edges remove_and_reconnect].
  destruct (filter (λ e, Edge.to_node e = r) (edges G)) as [|i' tl] eqn:Hin; [done|].
  simpl in Hhead. simplify_eq.
  assert (Hto : Edge.to_node i = r).
  { assert (Hi : i ∈ filter (λ e, Edge.to_node e = r) (edges G))
      by (rewrite Hin; apply elem_of_cons; by left).
    by apply list_elem_of_filter in Hi as [? _]. }
  rewrite filter_app, filter_comm, Hin.
  rewrite filter_cons_True by (split; congruence). done.
Qed.

Lemma out_edge_remove_other G (n r : string) o :
  o ∈ out_edges G r → n ≠ r → Edge.to_node o ≠ n →
  o ∈ out_edges (remove_and_reconnect G n) r.
Proof.
  unfold out_edges. intros [Hfrom Ho]%list_elem_of_filter Hne Hto.
  apply list_elem_of_filter. split; [done|].
  apply edge_survives_remove; [done|congruence|done].
Qed.

Lemma reconnected_at_removal G (r : string) i o :
  head (in_edges G r) = Some i → o ∈ out_edges G r →
  reconnected i o ∈ edges (remove_and_reconnect G r).
Proof.
  intros Hhead Ho. cbn [edges remove_and_reconnect].
  destruct (in_edges G r) as [|i' tl]; [done|]. simpl in Hhead. simplify_eq.
  apply elem_of_app. right. apply list_elem_of_fmap. by exists o.
Qed.

(** A removed node with a first in-edge from a node that stays is replaced,
    for each of its out-edges to a node that stays, by an edge between the
    two. *)
Lemma reconnected_remove_all G names (r : string) i o :
  r ∈ names → NoDup names →
  head (in_edges G r) = Some i → o ∈ out_edges G r →
  Edge.from_node i ∉ names → Edge.to_node o ∉ names →
  reconnected i o ∈ edges (remove_all G names).
Proof.
  unfold remove_all. revert G.
  induction names as [|a names IH]; intros G Hr Hdup Hhead Ho Hi Hto.
  - by apply elem_of_nil in Hr.
  - cbn [foldl]. apply NoDup_cons in Hdup as [Ha Hdup].
    rewrite not_elem_of_cons in Hi, Hto.
    destruct (decide (a = r)) as [->|Hne].
    + apply (edge_survives _ names); [by apply reconnected_at_removal|tauto|tauto].
    + apply IH; [|done| | |tauto|tauto].
      * apply elem_of_cons in Hr as [?|?]; [congruence|done].
      * apply first_in_edge_remove_other; [done|done|]. intros ?. by destruct Hi.
      * apply out_edge_remove_other; [done|done|]. intros ?. by destruct Hto.
Qed.

End remove_facts.

Lemma remove_silly_reshapes_eq (G : Graph) :
  remove_silly_reshapes G = remove_all G (silly_names G).
Proof. unfold remove_silly_reshapes, remove_all, silly_names. by rewrite foldl_fmap. Qed.

Lemma elem_of_nodes_of_class (G : Graph) (c : NodeClass) (node : Node.t) :
  node ∈ nodes_of_class G c ↔
  Node.cls node = c ∧ ∃ k, nodes G !! k = Some node.
Proof.
  unfold nodes_of_class. rewrite list_elem_of_filter, list_elem_of_fmap.
  split; intros [Hc Hin]; (split; [done|]).
  - destruct Hin as ([k n] & -> & Hin). exists k. by apply elem_of_map_to_list.
  - destruct Hin as (k & Hk). exists (k, node). split; [done|].
    by apply elem_of_map_to_list.
Qed.

Lemma elem_of_silly_names (G : Graph) (k : string) :
  well_named G →
  k ∈ silly_names G ↔ ∃ node, nodes G !! k = Some node ∧ silly node.
Proof.
  intros Hwf. unfold silly_names, silly.
  rewrite list_elem_of_fmap. split.
  - intros (node & -> & Hin). apply list_elem_of_filter in Hin as [Hs Hin].
    apply elem_of_nodes_of_class in Hin as (Hc & k & Hk).
    exists node. rewrite (Hwf _ _ Hk). done.
  - intros (node & Hk & Hc & Hs). exists node. split; [by rewrite (Hwf _ _ Hk)|].
    apply list_elem_of_filter. split; [done|].
    apply elem_of_nodes_of_class. eauto.
Qed.

Lemma NoDup_silly_names (G : Graph) : well_named G → NoDup (silly_names G).
Proof.
  intros Hwf. unfold silly_names, nodes_of_class.
  apply (sublist_NoDup _ (Node.name <$> (map_to_list (nodes G)).*2)).
  - assert (Hnames : Node.name <$> (map_to_list (nodes G)).*2 = (map_to_list (nodes G)).*1).
    { rewrite <- list_fmap_compose. apply list_fmap_ext.
      intros i [k node] Hi. simpl. apply Hwf.
      apply elem_of_map_to_list. by eapply list_elem_of_lookup_2. }
    rewrite Hnames. apply NoDup_fst_map_to_list.
  - apply fmap_sublist. etrans; apply sublist_filter.
Qed.

(** C8: remove_silly_reshapes removes exactly the Reshape nodes whose
    old_shape equals their shape and leaves every other node as it was,
    so that no such Reshape remains; the edges between the nodes that stay
    are kept, and a removed node whose first in-edge comes from a node that
    stays is replaced, for each of its out-edges to a node that stays, by an
    edge from the one to the other. *)
Theorem C8_remove_silly_reshapes (G : Graph) :
  well_named G →
  let G' := remove_silly_reshapes G in
  let removed (k : string) := ∃ node, nodes G !! k = Some node ∧ silly node in
  (∀ k, nodes G' !! k =
        nodes G !! k ≫= λ node, if decide (silly node) then None else Some node) ∧
  (∀ k node, nodes G' !! k = Some node → ¬ silly node) ∧
  (∀ e, e ∈ edges G → ¬ removed (Edge.from_node e) → ¬ removed (Edge.to_node e) →
        e ∈ edges G') ∧
  (∀ r i o, removed r → head (in_edges G r) = Some i → o ∈ out_edges G r →
            ¬ removed (Edge.from_node i) → ¬ removed (Edge.to_node o) →
            reconnected i o ∈ edges G').
Proof.
  intros Hwf G' removed. subst G'. rewrite remove_silly_reshapes_eq.
  assert (Hrem : ∀ k, k ∈ silly_names G ↔ removed k)
    by (intros k; by apply elem_of_silly_names).
  assert (Hnodes : ∀ k, nodes (remove_all G (silly_names G)) !! k =
    nodes G !! k ≫= λ node, if decide (silly node) then None else Some node).
  { intros k. rewrite nodes_remove_all.
    destruct (nodes G !! k) as [node|] eqn:Hk; simpl.
    - destruct (decide (silly node)) as [Hs|Hs].
      + rewrite decide_True; [done|]. apply Hrem. by exists node.
      + rewrite decide_False; [done|]. rewrite Hrem. intros (node' & Hk' & Hs').
        congruence.
    - by case_decide. }
  split_and!.
  - exact Hnodes.
  - intros k node Hk. rewrite Hnodes in Hk.
    destruct (nodes G !! k) as [node'|]; simpl in Hk; [|done].
    by destruct (decide (silly node')); simplify_eq.
  - intros e He Hf Ht. apply edge_survives; [done|by rewrite Hrem..].
  - intros r i o Hr Hi Ho Hf Ht.
    apply (reconnected_remove_all _ _ r);
      [by apply Hrem | by apply NoDup_silly_names | done | done | by rewrite Hrem..].
Qed.

(** The theorem on the chain of two reshapes: r1, which keeps the shape,
    is removed and a is connected to r2; r2 stays. *)
Lemma C8_remove_silly_reshapes_witness :
  let G := Examples.reshape_chain in
  let G' := remove_silly_reshapes G in
  nodes G' !! "r1" = None ∧
  nodes G' !! "r2" = nodes G !! "r2" ∧
  Examples.edge "a" "r2" ∈ edges G' ∧
  Examples.edge "b" "o" ∈ edges G'.
Proof.
  intros G G'.
  assert (Hwf : well_named G).
  { intros k node Hk. unfold G, Examples.reshape_chain, Examples.graph_of in Hk.
    cbn [nodes] in Hk. apply elem_of_list_to_map_2 in Hk.
    repeat (apply elem_of_cons in Hk as [Hk|Hk]; [by simplify_eq|]).
    by apply elem_of_nil in Hk. }
  assert (Hremoved : ∀ k, (∃ node, nodes G !! k = Some node ∧ silly node) → k = "r1"%string).
  { intros k (node & Hk & Hc & Hs).
    unfold G, Examples.reshape_chain, Examples.graph_of in Hk. cbn [nodes] in Hk.
    apply elem_of_list_to_map_2 in Hk.
    repeat (apply elem_of_cons in Hk as [Hk|Hk];
            [by simplify_eq; (done || by vm_compute in Hs) |]).
    by apply elem_of_nil in Hk. }
  destruct (C8_remove_silly_reshapes G Hwf) as (Hnodes & _ & Hkept & Hrec).
  split_and!.
  - rewrite Hnodes. by vm_compute.
  - rewrite Hnodes. by vm_compute.
  - apply (Hrec "r1"%string (Examples.edge "a" "r1") (Examples.edge "r1" "r2")).
    + eexists. split; [by vm_compute|]. split; by vm_compute.
    + by vm_compute.
    + apply (bool_decide_unpack _). by vm_compute.
    + intros H. by apply Hremoved in H.
    + intros H. by apply Hremoved in H.
  - apply Hkept.
    + apply (bool_decide_unpack _). by vm_compute.
    + intros H. by apply Hremoved in H.
    + intros H. by apply Hremoved in H.
Defined.

(* ================================================================== *)
(** * Part III: further properties                                      *)
(* ================================================================== *)

(** ** The visit bookkeeping *)

Section visited_queries.

Implicit Types (s a b : VisitedNodes.t) (n m : string) (idx : option nat).

Lemma prefix_append (d s : string) : String.prefix d (d +:+ s) = true.
Proof.
  induction d as [|c d IH]; simpl; [by destruct s|].
  rewrite IH. by destruct (Ascii.ascii_dec c c).
Qed.

(** The queries in terms of tags. *)
Lemma visited_down_Some s n (i : nat) :
  VisitedNodes.visited_down s n (Some i) = true ↔
  "down" +:+ pretty i ∈ tags_of s n ∨ "down*"%string ∈ tags_of s n.
Proof.
  unfold VisitedNodes.visited_down, tags_of.
  by rewrite orb_true_iff, !bool_decide_eq_true.
Qed.

Lemma visited_up_Some s n (i : nat) :
  VisitedNodes.visited_up s n (Some i) = true ↔
  "up" +:+ pretty i ∈ tags_of s n ∨ "up*"%string ∈ tags_of s n.
Proof.
  unfold VisitedNodes.visited_up, tags_of.
  by rewrite orb_true_iff, !bool_decide_eq_true.
Qed.

Lemma visited_direction_tags s d (i : nat) n :
  VisitedNodes.visited_direction s d i n = true ↔ d +:+ pretty i ∈ tags_of s n.
Proof.
  unfold VisitedNodes.visited_direction, tags_of. by rewrite bool_decide_eq_true.
Qed.

(** Queries that see the same tags give the same answers. *)
Lemma queries_ext s a n m :
  tags_of s n = tags_of a m →
  VisitedNodes.contains s n = VisitedNodes.contains a m ∧
  (∀ idx, VisitedNodes.visited_down s n idx = VisitedNodes.visited_down a m idx) ∧
  (∀ idx, VisitedNodes.visited_up s n idx = VisitedNodes.visited_up a m idx) ∧
  (∀ d i, VisitedNodes.visited_direction s d i n = VisitedNodes.visited_direction a d i m).
Proof.
  intros H. split_and!.
  - apply eq_true_iff_eq. by rewrite !contains_true, H.
  - intros idx. unfold VisitedNodes.visited_down. fold (tags_of s n) (tags_of a m).
    by rewrite H.
  - intros idx. unfold VisitedNodes.visited_up. fold (tags_of s n) (tags_of a m).
    by rewrite H.
  - intros d i. unfold VisitedNodes.visited_direction.
    fold (tags_of s n) (tags_of a m). by rewrite H.
Qed.

End visited_queries.

(** X1: discard raises KeyError for a node that has no entry (it is not the
    silent discard of a set), and otherwise removes the entry: the node is
    then no member, is visited in no direction, the other nodes keep their
    tags, and a second discard raises KeyError.  A node that add has
    entered can be discarded although it is no member. *)
Theorem X1_discard (s : VisitedNodes.t) (n : string) :
  match VisitedNodes.discard s n with
  | Ok s' =>
      is_Some (VisitedNodes.nodes s !! n) ∧
      VisitedNodes.contains s' n = false ∧
      (∀ idx, VisitedNodes.visited_down s' n idx = false) ∧
      (∀ idx, VisitedNodes.visited_up s' n idx = false) ∧
      (∀ m, m ≠ n → tags_of s' m = tags_of s m) ∧
      VisitedNodes.discard s' n = Raise KeyError
  | Raise e => e = KeyError ∧ VisitedNodes.nodes s !! n = None
  | OutOfFuel => False
  end ∧
  VisitedNodes.contains (VisitedNodes.add s n) n = false ∧
  VisitedNodes.discard (VisitedNodes.add s n) n =
    Ok (VisitedNodes.mk (delete n (VisitedNodes.nodes s))).
Proof.
  split; [|split].
  - unfold VisitedNodes.discard.
    destruct (VisitedNodes.nodes s !! n) as [tags|] eqn:Hl; [|done].
    set (s' := VisitedNodes.mk (delete n (VisitedNodes.nodes s))).
    assert (Hn : tags_of s' n = tags_of VisitedNodes.empty n).
    { unfold tags_of, s'. cbn [VisitedNodes.nodes VisitedNodes.empty].
      by rewrite lookup_delete_eq, lookup_empty. }
    destruct (queries_ext _ _ _ _ Hn) as (Hc & Hd & Hu & _).
    split_and!.
    + done.
    + by rewrite Hc.
    + intros idx. rewrite Hd. by destruct idx.
    + intros idx. rewrite Hu. by destruct idx.
    + intros m Hm. unfold tags_of, s'. cbn [VisitedNodes.nodes].
      by rewrite lookup_delete_ne.
    + unfold s'. cbn [VisitedNodes.nodes]. by rewrite lookup_delete_eq.
  - apply not_true_is_false. rewrite contains_true, tags_of_add, decide_True by done.
    intros (k & Hk & _). set_solver.
  - unfold VisitedNodes.discard, VisitedNodes.add. cbn [VisitedNodes.nodes].
    rewrite lookup_insert_eq. by rewrite delete_insert_eq.
Qed.

Section visit_round_trip.

Implicit Types (s : VisitedNodes.t) (n m : string).

Lemma visited_in_union (tags : gset string) (tag d : string) :
  visited_in (tags ∪ {[tag]}) d ↔ visited_in tags d ∨ String.prefix d tag = true.
Proof.
  unfold visited_in. split.
  - intros (k & Hk & Hp). apply elem_of_union in Hk as [Hk|Hk]; [left; eauto|].
    apply elem_of_singleton in Hk as ->. by right.
  - intros [(k & Hk & Hp)|Hp]; [exists k | exists tag]; split; set_solver.
Qed.

Lemma contains_add_tag s n m (tag : string) :
  tag ≠ ""%string →
  VisitedNodes.contains (VisitedNodes.add_tag s n tag) m =
  VisitedNodes.contains s m || bool_decide (m = n).
Proof.
  intros Htag. apply eq_true_iff_eq.
  rewrite orb_true_iff, bool_decide_eq_true, !contains_true, tags_of_add_tag.
  case_decide as Hnm.
  - subst m. split; [by right|]. intros _. exists tag. split; [set_solver | done].
  - split; [by left|]. intros [?|?]; [done | by subst].
Qed.

(** X2: a visit is recorded for the node, the direction and the index it
    names and for nothing else.  After visit_down(n, i) the query
    visited_down(m, j) is true exactly when it was true before or m = n and
    j = i, the query without an index is true exactly when it was true
    before or m = n, no answer of visited_up changes, and n is a member.
    The same holds for visit_up with the directions exchanged. *)
Theorem X2_visit_then_query s n (i : nat) :
  (let s' := VisitedNodes.visit_down s n i in
   (∀ m j, VisitedNodes.visited_down s' m (Some j) =
           VisitedNodes.visited_down s m (Some j) || bool_decide (m = n ∧ j = i)) ∧
   (∀ m, VisitedNodes.visited_down s' m None =
         VisitedNodes.visited_down s m None || bool_decide (m = n)) ∧
   (∀ m idx, VisitedNodes.visited_up s' m idx = VisitedNodes.visited_up s m idx) ∧
   (∀ m, VisitedNodes.contains s' m = VisitedNodes.contains s m || bool_decide (m = n))) ∧
  (let s' := VisitedNodes.visit_up s n i in
   (∀ m j, VisitedNodes.visited_up s' m (Some j) =
           VisitedNodes.visited_up s m (Some j) || bool_decide (m = n ∧ j = i)) ∧
   (∀ m, VisitedNodes.visited_up s' m None =
         VisitedNodes.visited_up s m None || bool_decide (m = n)) ∧
   (∀ m idx, VisitedNodes.visited_down s' m idx = VisitedNodes.visited_down s m idx) ∧
   (∀ m, VisitedNodes.contains s' m = VisitedNodes.contains s m || bool_decide (m = n))).
Proof.
  split; intros s'; subst s'; unfold VisitedNodes.visit_down, VisitedNodes.visit_up.
  - split_and!.
    + intros m j. apply eq_true_iff_eq.
      rewrite orb_true_iff, bool_decide_eq_true, !visited_down_Some, tags_of_add_tag.
      case_decide as Hnm.
      * subst m. rewrite !elem_of_union, !elem_of_singleton.
        rewrite (tag_inj "down" j i).
        assert ("down*"%string ≠ "down" +:+ pretty i)
          by (intros H; by apply (tag_ne_wildcard "down" i)).
        naive_solver.
      * naive_solver.
    + intros m. apply eq_true_iff_eq.
      rewrite orb_true_iff, bool_decide_eq_true, !visited_down_None, tags_of_add_tag.
      case_decide as Hnm.
      * subst m. rewrite visited_in_union.
        split; [intros [?|?]; [by left | by right]|].
        intros [?|_]; [by left | right; apply prefix_append].
      * split; [by left | intros [?|?]; [done | by subst]].
    + intros m [j|]; apply eq_true_iff_eq.
      * rewrite !visited_up_Some, tags_of_add_tag. case_decide as Hnm; [|done].
        subst m. rewrite !elem_of_union, !elem_of_singleton.
        split; [|naive_solver]. intros [[?|?]|[?|?]]; by auto.
      * rewrite !visited_up_None, tags_of_add_tag. case_decide as Hnm; [|done].
        subst m. rewrite visited_in_union. split; [|by left]. by intros [?|?].
    + intros m. by apply contains_add_tag.
  - split_and!.
    + intros m j. apply eq_true_iff_eq.
      rewrite orb_true_iff, bool_decide_eq_true, !visited_up_Some, tags_of_add_tag.
      case_decide as Hnm.
      * subst m. rewrite !elem_of_union, !elem_of_singleton.
        rewrite (tag_inj "up" j i).
        assert ("up*"%string ≠ "up" +:+ pretty i)
          by (intros H; by apply (tag_ne_wildcard "up" i)).
        naive_solver.
      * naive_solver.
    + intros m. apply eq_true_iff_eq.
      rewrite orb_true_iff, bool_decide_eq_true, !visited_up_None, tags_of_add_tag.
      case_decide as Hnm.
      * subst m. rewrite visited_in_union.
        split; [intros [?|?]; [by left | by right]|].
        intros [?|_]; [by left | right; apply prefix_append].
      * split; [by left | intros [?|?]; [done | by subst]].
    + intros m [j|]; apply eq_true_iff_eq.
      * rewrite !visited_down_Some, tags_of_add_tag. case_decide as Hnm; [|done].
        subst m. rewrite !elem_of_union, !elem_of_singleton.
        split; [|naive_solver]. intros [[?|?]|[?|?]]; by auto.
      * rewrite !visited_down_None, tags_of_add_tag. case_decide as Hnm; [|done].
        subst m. rewrite visited_in_union. split; [|by left]. by intros [?|?].
    + intros m. by apply contains_add_tag.
Qed.

End visit_round_trip.

Section union_queries.

Implicit Types (s a b : VisitedNodes.t) (n : string).

Lemma visited_in_union_sets (t1 t2 : gset string) (d : string) :
  visited_in (t1 ∪ t2) d ↔ visited_in t1 d ∨ visited_in t2 d.
Proof.
  unfold visited_in. split.
  - intros (k & Hk & Hp). apply elem_of_union in Hk as [Hk|Hk]; [left|right]; eauto.
  - intros [(k & Hk & Hp)|(k & Hk & Hp)]; exists k; split; set_solver.
Qed.

(** X3: the union of two VisitedNodes answers every query with the
    disjunction of the answers of its operands: membership, visited_down
    and visited_up with and without an index, visited_direction and
    iteration.  The in-place union builds the same dictionary. *)
Theorem X3_union_of_visited a b n :
  let u := a |ᵥ VisitedNodes.Visited b in
  VisitedNodes.contains u n = VisitedNodes.contains a n || VisitedNodes.contains b n ∧
  (∀ idx, VisitedNodes.visited_down u n idx =
          VisitedNodes.visited_down a n idx || VisitedNodes.visited_down b n idx) ∧
  (∀ idx, VisitedNodes.visited_up u n idx =
          VisitedNodes.visited_up a n idx || VisitedNodes.visited_up b n idx) ∧
  (∀ d i, VisitedNodes.visited_direction u d i n =
          VisitedNodes.visited_direction a d i n ||
          VisitedNodes.visited_direction b d i n) ∧
  (n ∈ VisitedNodes.iter u ↔ n ∈ VisitedNodes.iter a ∨ n ∈ VisitedNodes.iter b) ∧
  VisitedNodes.ior a (VisitedNodes.Visited b) = u.
Proof.
  intros u.
  assert (Hu : tags_of u n = tags_of a n ∪ tags_of b n) by apply tags_of_or_visited.
  split_and!.
  - apply eq_true_iff_eq. rewrite orb_true_iff, !contains_true, Hu.
    setoid_rewrite elem_of_union. naive_solver.
  - intros [i|]; apply eq_true_iff_eq; rewrite orb_true_iff.
    + rewrite !visited_down_Some, Hu, !elem_of_union. naive_solver.
    + rewrite !visited_down_None, Hu. apply visited_in_union_sets.
  - intros [i|]; apply eq_true_iff_eq; rewrite orb_true_iff.
    + rewrite !visited_up_Some, Hu, !elem_of_union. naive_solver.
    + rewrite !visited_up_None, Hu. apply visited_in_union_sets.
  - intros d i. apply eq_true_iff_eq.
    by rewrite orb_true_iff, !visited_direction_tags, Hu, elem_of_union.
  - rewrite !iter_spec, Hu. split.
    + intros Hne. destruct (decide (tags_of a n = ∅)) as [Ha|Ha]; [right | by left].
      intros Hb. apply Hne. rewrite Ha, Hb. set_solver.
    + intros [Ha|Hb] He; apply empty_union_L in He as [? ?]; done.
  - done.
Qed.

(** X4: the union with a plain iterable of nodes replaces the tags of every
    node it lists by the two wildcards: such a node is a member and is
    visited upwards and downwards at every index, whatever was recorded for
    it before, and visited_direction, which tests the tag of one index,
    answers false for it even when it answered true before the union.  The
    nodes that are not listed keep their tags. *)
Theorem X4_union_of_plain s (l : list string) n :
  let u := s |ᵥ VisitedNodes.Plain l in
  (n ∈ l →
     VisitedNodes.contains u n = true ∧
     (∀ idx, VisitedNodes.visited_up u n idx = true) ∧
     (∀ idx, VisitedNodes.visited_down u n idx = true) ∧
     (∀ i, VisitedNodes.visited_direction u "up" i n = false ∧
           VisitedNodes.visited_direction u "down" i n = false)) ∧
  ((n ∉ l) → tags_of u n = tags_of s n) ∧
  VisitedNodes.ior s (VisitedNodes.Plain l) = u.
Proof.
  intros u.
  assert (Hu : tags_of u n = if decide (n ∈ l) then {["up*"; "down*"]} else tags_of s n)
    by apply tags_of_or_plain.
  split_and!.
  - intros Hin. rewrite decide_True in Hu by done. split_and!.
    + apply contains_true. rewrite Hu. exists "up*"%string. split; [set_solver | done].
    + intros [i|].
      * apply visited_up_Some. rewrite Hu. right. set_solver.
      * apply visited_up_None. rewrite Hu. exists "up*"%string. split; [set_solver | done].
    + intros [i|].
      * apply visited_down_Some. rewrite Hu. right. set_solver.
      * apply visited_down_None. rewrite Hu. exists "down*"%string.
        split; [set_solver | done].
    + intros i. split; apply not_true_is_false; rewrite visited_direction_tags, Hu;
        rewrite elem_of_union, !elem_of_singleton.
      * intros [H|H]; [by apply (tag_ne_wildcard "up" i) | discriminate H].
      * intros [H|H]; [discriminate H | by apply (tag_ne_wildcard "down" i)].
  - intros Hin. by rewrite decide_False in Hu.
  - done.
Qed.

End union_queries.

Section built_facts.

(** Every tag that the methods install is a non-empty string. *)
Lemma built_tags_truthy (s : VisitedNodes.t) :
  built s → ∀ n k, k ∈ tags_of s n → k ≠ ""%string.
Proof.
  induction 1 as [|s n Hs IH|s s' n Hs IH Hd|s n idx Hs IH|s n idx Hs IH|s Hs IH
                  |s c Hs IHs Hc IHc|s l Hs IH|s c Hs IHs Hc IHc|s l Hs IH];
    intros m k Hk.
  - unfold tags_of in Hk. cbn in Hk. rewrite lookup_empty in Hk. set_solver.
  - rewrite tags_of_add in Hk. case_decide; [set_solver | by eapply IH].
  - unfold VisitedNodes.discard in Hd.
    destruct (VisitedNodes.nodes s !! n); [|done]. injection Hd as <-.
    unfold tags_of in Hk. cbn [VisitedNodes.nodes] in Hk.
    destruct (decide (n = m)) as [->|Hne].
    + rewrite lookup_delete_eq in Hk. set_solver.
    + rewrite lookup_delete_ne in Hk by done. by eapply IH.
  - unfold VisitedNodes.visit_down in Hk. rewrite tags_of_add_tag in Hk.
    case_decide; [|by eapply IH].
    apply elem_of_union in Hk as [Hk|Hk]; [by eapply IH|].
    apply elem_of_singleton in Hk as ->. by apply tag_truthy.
  - unfold VisitedNodes.visit_up in Hk. rewrite tags_of_add_tag in Hk.
    case_decide; [|by eapply IH].
    apply elem_of_union in Hk as [Hk|Hk]; [by eapply IH|].
    apply elem_of_singleton in Hk as ->. by apply tag_truthy.
  - by eapply IH.
  - rewrite tags_of_or_visited in Hk.
    apply elem_of_union in Hk as [Hk|Hk]; [by eapply IHs | by eapply IHc].
  - rewrite tags_of_or_plain in Hk. case_decide; [|by eapply IH].
    apply elem_of_union in Hk as [Hk|Hk]; apply elem_of_singleton in Hk as ->; done.
  - rewrite tags_of_ior_visited in Hk.
    apply elem_of_union in Hk as [Hk|Hk]; [by eapply IHs | by eapply IHc].
  - change (VisitedNodes.ior s (VisitedNodes.Plain l)) with (s |ᵥ VisitedNodes.Plain l) in Hk.
    rewrite tags_of_or_plain in Hk. case_decide; [|by eapply IH].
    apply elem_of_union in Hk as [Hk|Hk]; apply elem_of_singleton in Hk as ->; done.
Qed.

Lemma NoDup_iter (s : VisitedNodes.t) : NoDup (VisitedNodes.iter s).
Proof.
  unfold VisitedNodes.iter.
  eapply NoDup_fmap_fst.
  - intros k x y Hx Hy. apply list_elem_of_filter in Hx as [_ Hx], Hy as [_ Hy].
    apply elem_of_map_to_list in Hx, Hy. congruence.
  - apply NoDup_filter, NoDup_map_to_list.
Qed.

(** X5: in a VisitedNodes that the methods of the class have built from
    the empty one, the three views of the set agree: a node is a member
    exactly when iteration produces it, iteration produces no node twice,
    and len is the number of nodes iteration produces. *)
Theorem X5_views_agree (s : VisitedNodes.t) :
  built s →
  (∀ n, VisitedNodes.contains s n = true ↔ n ∈ VisitedNodes.iter s) ∧
  NoDup (VisitedNodes.iter s) ∧
  VisitedNodes.len s = length (VisitedNodes.iter s).
Proof.
  intros Hs. split_and!.
  - intros n. rewrite contains_true, iter_spec. split.
    + intros (k & Hk & _). set_solver.
    + intros Hne. apply set_choose_L in Hne as [k Hk].
      exists k. split; [done|]. by eapply built_tags_truthy.
  - apply NoDup_iter.
  - unfold VisitedNodes.len, VisitedNodes.iter. by rewrite length_fmap.
Qed.

End built_facts.

(** The theorem at a set with one node that was visited and then entered
    again with add, and one node that came in by a union. *)
Lemma X5_views_agree_witness :
  let s :=
    VisitedNodes.add (VisitedNodes.visit_up VisitedNodes.empty "a" 0) "a"
      |ᵥ VisitedNodes.Plain ["b"] in
  VisitedNodes.iter s = ["b"] ∧
  (∀ n, VisitedNodes.contains s n = true ↔ n ∈ VisitedNodes.iter s) ∧
  VisitedNodes.len s = 1%nat.
Proof.
  intros s.
  assert (Hs : built s) by (apply built_or_plain, built_add, built_visit_up, built_empty).
  destruct (X5_views_agree s Hs) as (Hmem & _ & Hlen).
  split_and!; [by vm_compute | exact Hmem | by rewrite Hlen].
Defined.

Section check_continue_union.

Implicit Types (v c : VisitedNodes.t).

(** X24: check_continue looks at the union of the two visited sets and at
    nothing else of them: its answer for a node depends only on the tags that
    the two sets together hold for this node.  So the two sets can be
    exchanged, and the visits can all be given in one of them. *)
Theorem X24_check_continue_union v c v' c' exclude_nodes node direction idx :
  (tags_of v (Node.name node) ∪ tags_of c (Node.name node) =
   tags_of v' (Node.name node) ∪ tags_of c' (Node.name node) →
   check_continue v c exclude_nodes node direction idx =
   check_continue v' c' exclude_nodes node direction idx) ∧
  check_continue v c exclude_nodes node direction idx =
    check_continue c v exclude_nodes node direction idx ∧
  check_continue v c exclude_nodes node direction idx =
    check_continue (v |ᵥ VisitedNodes.Visited c) VisitedNodes.empty exclude_nodes node
      direction idx.
Proof.
  assert (Hext : ∀ a b a' b',
    tags_of a (Node.name node) ∪ tags_of b (Node.name node) =
    tags_of a' (Node.name node) ∪ tags_of b' (Node.name node) →
    check_continue a b exclude_nodes node direction idx =
    check_continue a' b' exclude_nodes node direction idx).
  { intros a b a' b' Htags. unfold check_continue.
    assert (Hall : tags_of (a |ᵥ VisitedNodes.Visited b) (Node.name node) =
                   tags_of (a' |ᵥ VisitedNodes.Visited b') (Node.name node)).
    { by rewrite !tags_of_or_visited. }
    destruct (queries_ext _ _ _ _ Hall) as (_ & Hd & Hu & Hdir).
    by rewrite (Hd None), (Hu None), (Hdir direction idx). }
  split_and!.
  - apply Hext.
  - apply Hext. set_solver.
  - apply Hext. rewrite tags_of_or_visited.
    assert (tags_of VisitedNodes.empty (Node.name node) = ∅) as ->; [done|]. set_solver.
Qed.

End check_continue_union.

(** ** The shape and axis helpers *)

(** X6: strip_leading_dim drops leading elements equal to dim and nothing
    else: the shape is the result behind a run of dim.  The last element is
    never dropped, a result of more than one element does not start with
    dim, stripping twice is stripping once, and stripping the unit
    dimension keeps the number of elements of the tensor. *)
Theorem X6_strip_leading_dim (shape : list Z) (dim : Z) :
  let res := strip_leading_dim shape dim in
  (∃ k : nat, shape = replicate k dim ++ res) ∧
  (length res = 0%nat ↔ shape = []) ∧
  (∀ x y rest, res = x :: y :: rest → x ≠ dim) ∧
  strip_leading_dim res dim = res ∧
  (dim = 1 → foldr Z.mul 1 res = foldr Z.mul 1 shape).
Proof.
  induction shape as [|x shape IH]; [by split_and!; [exists 0%nat| | | |]|].
  destruct shape as [|y shape].
  { cbn [strip_leading_dim]. split_and!; try done. by exists 0%nat. }
  cbn zeta in IH.
  assert (Hstep : strip_leading_dim (x :: y :: shape) dim =
                  if bool_decide (x = dim) then strip_leading_dim (y :: shape) dim
                  else x :: y :: shape) by done.
  cbn zeta. rewrite Hstep. case_bool_decide as Hx.
  - subst x. destruct IH as ((k & Hk) & Hlen & Hhead & Hidem & Hprod).
    split_and!; [| |done|done|].
    + exists (S k). cbn [replicate]. by rewrite <- app_comm_cons, <- Hk.
    + rewrite Hlen. done.
    + intros ->. rewrite (Hprod eq_refl). cbn [foldr]. lia.
  - split_and!; [by exists 0%nat|done| |exact Hstep|done].
    intros ??? [= -> _ _]. done.
Qed.

Section max_shape.

Implicit Types (dims : list Dim.t) (acc : list Z).

Lemma max_shape_fold acc dims (i : nat) (x : Z) :
  foldl max_step acc dims !! i = Some x →
  (∃ a, acc !! i = Some a ∧ a ≤ x) ∧
  (∀ d, d ∈ dims → ∃ y, Dim.shape d !! i = Some y ∧ y ≤ x) ∧
  (acc !! i = Some x ∨ ∃ d, d ∈ dims ∧ Dim.shape d !! i = Some x).
Proof.
  revert acc. induction dims as [|d dims IH]; intros acc Hx.
  - cbn in Hx. split_and!; [exists x; split; [done|lia] | set_solver | by left].
  - cbn [foldl] in Hx. apply IH in Hx as ((a & Ha & Hax) & Hall & Hatt).
    unfold max_step in Ha.
    apply lookup_zip_with_Some in Ha as (a0 & y & -> & Ha0 & Hy).
    split_and!.
    + exists a0. split; [done|lia].
    + intros d' [->|Hd']%elem_of_cons; [exists y; split; [done|lia] | by apply Hall].
    + destruct Hatt as [Hatt|(d' & Hd' & Hatt)].
      * unfold max_step in Hatt.
        apply lookup_zip_with_Some in Hatt as (a1 & y1 & Hm & Ha1 & Hy1).
        destruct (Z.max_spec a1 y1) as [[_ Hmax]|[_ Hmax]]; rewrite Hmax in Hm; subst.
        -- right. exists d. split; [set_solver | done].
        -- by left.
      * right. exists d'. split; [set_solver | done].
Qed.

Lemma max_shape_fold_length acc dims (r : nat) :
  length acc = r → (∀ d, d ∈ dims → length (Dim.shape d) = r) →
  length (foldl max_step acc dims) = r.
Proof.
  revert acc. induction dims as [|d dims IH]; intros acc Hacc Hall; [done|].
  cbn [foldl]. apply IH.
  - unfold max_step. rewrite length_zip_with, Hacc, (Hall d) by set_solver. lia.
  - intros d' Hd'. apply Hall. set_solver.
Qed.

(** X7: compute_max_shape is the element-wise maximum of the shapes of the
    dims: every entry of the result bounds the entry of every shape at its
    position and is the entry of one of them; no shape is shorter than the
    result; and dims that all have the rank r give a result of rank r. *)
Theorem X7_compute_max_shape dims :
  let m := compute_max_shape dims in
  (∀ d i x, d ∈ dims → m !! i = Some x →
     ∃ y, Dim.shape d !! i = Some y ∧ y ≤ x) ∧
  (∀ i x, m !! i = Some x → ∃ d, d ∈ dims ∧ Dim.shape d !! i = Some x) ∧
  (∀ r : nat, dims ≠ [] → (∀ d, d ∈ dims → length (Dim.shape d) = r) → length m = r).
Proof.
  destruct dims as [|d0 [|d1 dims]].
  - cbn. split_and!; [set_solver | done | done].
  - cbn. split_and!.
    + intros d i x ->%list_elem_of_singleton Hx. exists x. split; [done|lia].
    + intros i x Hx. exists d0. split; [set_solver | done].
    + intros r _ Hall. apply Hall. set_solver.
  - change (compute_max_shape (d0 :: d1 :: dims))
      with (foldl max_step (Dim.shape d0) (d1 :: dims)).
    cbn zeta. split_and!.
    + intros d i x Hd Hx. apply max_shape_fold in Hx as ((a & Ha & Hax) & Hall & _).
      apply elem_of_cons in Hd as [->|Hd]; [by exists a | by apply Hall].
    + intros i x Hx. apply max_shape_fold in Hx as (_ & _ & [Hx|(d & Hd & Hx)]).
      * exists d0. split; [set_solver | done].
      * exists d. split; [set_solver | done].
    + intros r _ Hall. apply max_shape_fold_length.
      * apply Hall. set_solver.
      * intros d Hd. apply Hall. set_solver.
Qed.

End max_shape.

Section permutations.

Implicit Types (p axes : list Z) (n k : nat).

Lemma range_S n : range (S n) = range n ++ [Z.of_nat n].
Proof. unfold range. by rewrite seq_S, fmap_app. Qed.

Lemma range_add k n : range (k + n) = range k ++ ((λ a, a + Z.of_nat k) <$> range n).
Proof.
  induction n as [|n IH].
  - by rewrite Nat.add_0_r, app_nil_r.
  - rewrite Nat.add_succ_r, !range_S, IH, fmap_app, app_assoc. cbn.
    do 3 f_equal. lia.
Qed.

(** X8: the expansion of a permutation of range(n) by k new axes is a
    permutation of range(k + n) that fixes the k new axes, and the axis at
    position k + i is the axis of p at position i, moved by k. *)
Theorem X8_expand_is_permutation p n k :
  p ≡ₚ range n →
  let q := expand_axes_in_transpose p k in
  q ≡ₚ range (k + n) ∧
  (∀ i : nat, (i < k)%nat → q !! i = Some (Z.of_nat i)) ∧
  (∀ i : nat, q !! (k + i)%nat = (λ a, a + Z.of_nat k) <$> p !! i).
Proof.
  intros Hp q. subst q. unfold expand_axes_in_transpose. split_and!.
  - rewrite range_add. by rewrite Hp.
  - intros i Hi. rewrite lookup_app_l by (by rewrite length_range).
    unfold range. rewrite list_lookup_fmap, lookup_seq_lt by done. done.
  - intros i. rewrite lookup_app_r by (rewrite length_range; lia).
    rewrite length_range, list_lookup_fmap. do 2 f_equal. lia.
Qed.

Lemma reduce_dimension_below (axis : Z) axes :
  reduce_dimension axis axes = axis - Z.of_nat (stripped_below axes axis).
Proof.
  unfold reduce_dimension, stripped_below. f_equal.
  induction axes as [|s axes IH]; [done|].
  cbn [fmap list_fmap foldr].
  fold (fmap (M := list)
          (λ stripped_axis : Z, if bool_decide (stripped_axis < axis) then 1 else 0)
          axes).
  rewrite IH. case_bool_decide.
  - rewrite filter_cons_True by done. cbn [length]. lia.
  - rewrite filter_cons_False by done. lia.
Qed.

Lemma below_succ axes (n : Z) :
  NoDup axes →
  stripped_below axes (n + 1) =
  (stripped_below axes n + if decide (n ∈ axes) then 1 else 0)%nat.
Proof.
  unfold stripped_below.
  induction 1 as [|s axes Hs HS IH]; [by rewrite decide_False by set_solver|].
  destruct (decide (s < n)) as [Hlt|Hge].
  - rewrite !filter_cons_True by lia. cbn [length]. rewrite IH.
    destruct (decide (n ∈ axes)) as [Hin|Hin].
    + rewrite decide_True by set_solver. lia.
    + rewrite decide_False; [lia|]. rewrite elem_of_cons. intros [?|?]; [lia|done].
  - rewrite (filter_cons_False (λ s0, s0 < n) s axes) by done.
    destruct (decide (s = n)) as [->|Hne].
    + rewrite (filter_cons_True (λ s0, s0 < n + 1)) by lia. cbn [length]. rewrite IH.
      rewrite decide_False by done. rewrite decide_True by set_solver. lia.
    + rewrite (filter_cons_False (λ s0, s0 < n + 1)) by lia. rewrite IH.
      destruct (decide (n ∈ axes)) as [Hin|Hin].
      * rewrite decide_True by set_solver. done.
      * rewrite decide_False; [done|]. rewrite elem_of_cons. intros [?|?]; [lia|done].
Qed.

Lemma strip_range axes n :
  NoDup axes → Forall (λ s, 0 ≤ s) axes →
  (stripped_below axes (Z.of_nat n) ≤ n)%nat ∧
  strip_axes_from_transpose (range n) axes =
  range (n - stripped_below axes (Z.of_nat n)).
Proof.
  intros HS Hpos. induction n as [|n [IHle IH]].
  - assert (stripped_below axes (Z.of_nat 0) = 0%nat) as ->; [|done].
    unfold stripped_below. rewrite filter_none; [done|].
    apply (Forall_impl _ _ _ Hpos). intros s Hs. simpl. lia.
  - rewrite Nat2Z.inj_succ, <- Z.add_1_r, (below_succ _ _ HS).
    unfold strip_axes_from_transpose in *. rewrite range_S, filter_app, fmap_app, IH.
    destruct (decide (Z.of_nat n ∈ axes)) as [Hin|Hin].
    + rewrite filter_cons_False by (intros H; by apply H). cbn. rewrite app_nil_r.
      split; [lia|]. f_equal. lia.
    + rewrite filter_cons_True by done. cbn. split; [lia|].
      rewrite reduce_dimension_below.
      replace (S n - (stripped_below axes (Z.of_nat n) + 0))%nat
        with (S (n - stripped_below axes (Z.of_nat n)))%nat by lia.
      rewrite range_S. do 2 f_equal. lia.
Qed.

(** X9: stripping a set of axes from a permutation of range(n) gives a
    permutation of range(n - len(S)): the axes that stay are renumbered
    without gaps.  S is a sequence of distinct axes of range(n), as the
    leading axes that broadcasted_axes returns are. *)
Theorem X9_strip_is_permutation p axes n :
  p ≡ₚ range n →
  NoDup axes →
  Forall (λ s, 0 ≤ s < Z.of_nat n) axes →
  strip_axes_from_transpose p axes ≡ₚ range (n - length axes).
Proof.
  intros Hp HS Hin.
  assert (Hpos : Forall (λ s, 0 ≤ s) axes).
  { apply (Forall_impl _ _ _ Hin). intros s Hs. simpl in Hs. lia. }
  destruct (strip_range axes n HS Hpos) as [_ Hr].
  assert (Hall : stripped_below axes (Z.of_nat n) = length axes).
  { unfold stripped_below. rewrite filter_all; [done|].
    apply (Forall_impl _ _ _ Hin). intros s Hs. simpl in Hs. simpl. lia. }
  rewrite Hall in Hr. rewrite <- Hr.
  unfold strip_axes_from_transpose. by rewrite Hp.
Qed.

End permutations.

(** The theorem at the permutation (2, 0, 3, 1) of four axes and the two
    leading axes that a broadcast of a rank-two input to rank four adds. *)
Lemma X9_strip_is_permutation_witness :
  strip_axes_from_transpose [2; 0; 3; 1] (broadcasted_axes [5; 6] [1; 1; 5; 6]) = [0; 1] ∧
  strip_axes_from_transpose [2; 0; 3; 1] (broadcasted_axes [5; 6] [1; 1; 5; 6])
    ≡ₚ range (4 - 2).
Proof.
  split; [reflexivity|].
  apply (X9_strip_is_permutation [2; 0; 3; 1] (broadcasted_axes [5; 6] [1; 1; 5; 6]) 4).
  - apply (bool_decide_unpack _). by vm_compute.
  - apply (bool_decide_unpack _). by vm_compute.
  - repeat constructor; lia.
Defined.

(** The theorem at the permutation (1, 0) and two new axes. *)
Lemma X8_expand_is_permutation_witness :
  expand_axes_in_transpose [1; 0] 2 = [0; 1; 3; 2] ∧
  expand_axes_in_transpose [1; 0] 2 ≡ₚ range (2 + 2).
Proof.
  split; [reflexivity|].
  apply (X8_expand_is_permutation [1; 0] 2 2).
  apply (bool_decide_unpack _). by vm_compute.
Defined.

(** ** The explorers *)

Lemma for_each_inv {A S} (P : S → Prop) (l : list A) (body : S → A → Res S) (s s' : S) :
  P s → (∀ s a s', a ∈ l → P s → body s a = Ok s' → P s') →
  for_each l body s = Ok s' → P s'.
Proof.
  revert s. induction l as [|a l IH]; intros s Hs Hbody Hl.
  - cbn in Hl. by simplify_eq.
  - cbn [for_each] in Hl. apply bind_Ok in Hl as (s1 & H1 & Hl).
    apply (IH s1); [|intros ? ? ? ?; apply Hbody; by apply elem_of_cons; right|done].
    eapply Hbody; [by apply elem_of_cons; left|done..].
Qed.

Lemma try_except_Ok {A} (body handler : Res A) (r : A) :
  try_except body handler = Ok r →
  body = Ok r ∨ (body = Raise CantContinueError ∧ handler = Ok r).
Proof. destruct body as [a|[]|]; simpl; auto. Qed.

Lemma dom_or_nodes_visited (res : gmap string (gset string)) (c : VisitedNodes.t) :
  dom (VisitedNodes.or_nodes (VisitedNodes.Visited c) res) =
  dom res ∪ dom (VisitedNodes.nodes c).
Proof.
  unfold VisitedNodes.or_nodes.
  apply (map_fold_weak_ind
           (λ (r : gmap string (gset string)) (m : gmap string (gset string)),
              dom r = dom res ∪ dom m)).
  - rewrite dom_empty_L. set_solver.
  - intros i x m r Hi IH. destruct (r !! i); rewrite !dom_insert_L, IH; set_solver.
Qed.

Lemma check_continue_visit visited_nodes cur_visited_nodes exclude_nodes node
    direction idx :
  check_continue visited_nodes cur_visited_nodes exclude_nodes node direction idx
    = Ok false →
  Node.name node ∉ exclude_nodes.
Proof.
  unfold check_continue. intros H.
  repeat (match type of H with (if ?b then _ else _) = _ => destruct b eqn:? end;
          try discriminate H).
  match goal with Hb : bool_decide (_ ∈ _) = false |- _ =>
    by apply bool_decide_eq_false in Hb end.
Qed.

Section keeps_clear_facts.

Implicit Types (v c : VisitedNodes.t) (ex : gset string).

Lemma keeps_clear_visit_down ex name (idx : nat) :
  keeps_clear ex name (VisitedNodes.visit_down VisitedNodes.empty name idx).
Proof.
  unfold keeps_clear, VisitedNodes.visit_down, VisitedNodes.add_tag.
  cbn [VisitedNodes.nodes]. rewrite dom_insert_L. set_solver.
Qed.

Lemma keeps_clear_visit_up ex name (idx : nat) :
  keeps_clear ex name (VisitedNodes.visit_up VisitedNodes.empty name idx).
Proof.
  unfold keeps_clear, VisitedNodes.visit_up, VisitedNodes.add_tag.
  cbn [VisitedNodes.nodes]. rewrite dom_insert_L. set_solver.
Qed.

(** The union with the result of a search that started at a node outside
    the exclude set. *)
Lemma keeps_clear_ior ex name sub v (r : VisitedNodes.operand) :
  keeps_clear ex name v → sub ∉ ex → result_clear ex sub r →
  keeps_clear ex name (VisitedNodes.ior v r).
Proof.
  intros [Hin Hall] Hsub Hr. destruct r as [c|l]; cbn in Hr.
  - destruct Hr as [_ Hc]. unfold keeps_clear, VisitedNodes.ior.
    cbn [VisitedNodes.nodes]. rewrite dom_or_nodes_visited. split; [set_solver|].
    intros n [Hn|Hn]%elem_of_union; [by apply Hall|].
    destruct (Hc n Hn) as [->|?]; by right.
  - subst l. done.
Qed.

End keeps_clear_facts.

(** One step into a computation that returned: the bind, the conditional
    and the match at the head of the left-hand side of [H]. *)
Ltac res_step H :=
  lazymatch type of H with
  | (?m ≫= _) = Ok _ =>
      let E := fresh "E" in
      destruct m as [?|?|] eqn:E; cbn [mbind Res_bind] in H; [|discriminate H..]
  | try_except ?body _ = Ok _ =>
      let E := fresh "E" in
      unfold try_except in H; destruct body as [?|[]|] eqn:E; try discriminate H
  | (if ?b then _ else _) = Ok _ => let E := fresh "E" in destruct b eqn:E
  | (match ?x with _ => _ end) = Ok _ => let E := fresh "E" in destruct x eqn:E
  end.

Ltac res_steps :=
  repeat match goal with
         | H : _ = Ok _ |- _ => progress (res_step H)
         | H : Raise _ = Ok _ |- _ => discriminate H
         | H : OutOfFuel = Ok _ |- _ => discriminate H
         end.

Section explorer_invariant.

Context `{!TransposeHelpers}.

Implicit Types (f : explorer) (ex : gset string) (v cur : VisitedNodes.t).

Lemma continue_down_with_clear f G node ex vis cur acts hist t acts' v' :
  explorer_clear f → keeps_clear ex (Node.name node) cur →
  continue_down_with f G node ex vis cur acts hist t = Ok (acts', v') →
  keeps_clear ex (Node.name node) v'.
Proof.
  intros Hf Hcur Hl. unfold continue_down_with in Hl.
  apply (for_each_inv (λ s, keeps_clear ex (Node.name node) s.2)) in Hl; [done|done|].
  intros [a v] edge [a' v''] _ HP Hb. cbn [snd] in *.
  res_steps; simplify_eq; [done|].
  eapply keeps_clear_ior; [done| |by eapply Hf].
  by eapply check_continue_visit.
Qed.


Lemma continue_up_with_clear f G node ex vis cur acts hist t acts' v' :
  explorer_clear f → keeps_clear ex (Node.name node) cur →
  continue_up_with f G node ex vis cur acts hist t = Ok (acts', v') →
  keeps_clear ex (Node.name node) v'.
Proof.
  intros Hf Hcur Hl. unfold continue_up_with in Hl.
  apply (for_each_inv (λ s, keeps_clear ex (Node.name node) s.2)) in Hl; [done|done|].
  intros [a v] edge [a' v''] _ HP Hb. cbn [snd] in *.
  res_steps; simplify_eq; try done;
    (eapply keeps_clear_ior; [done| |by eapply Hf]; by eapply check_continue_visit).
Qed.

Lemma other_out_edges_with_clear f G node ex vis cur out_edge t acts' v' :
  explorer_clear f → keeps_clear ex (Node.name node) cur →
  other_out_edges_with f G node ex vis cur out_edge t = Ok (acts', v') →
  keeps_clear ex (Node.name node) v'.
Proof.
  intros Hf Hcur Hl. unfold other_out_edges_with in Hl.
  apply (for_each_inv (λ s, keeps_clear ex (Node.name node) s.2)) in Hl; [done|done|].
  intros [a v] edge [a' v''] _ HP Hb. cbn [snd] in *.
  res_steps; simplify_eq; try done;
    (eapply keeps_clear_ior; [done| |by eapply Hf]; by eapply check_continue_visit).
Qed.

(** The loops of the explorers keep the invariant: the facts about the
    visited sets in the context, from the results of the loops.  [inv] is
    the invariant of the loops, [init] proves it of the first visited set,
    [Hior] of a union, [Hcc] reads a check_continue that visits, and
    [Hother], [Hdown] and [Hup] are the lemmas of the three loops. *)
Ltac loop_clear inv init Hinv Hior Hcc Hother Hdown Hup IHd IHu :=
  repeat match goal with
    | E : for_each _ _ (_, _) = Ok (_, ?t) |- _ =>
        apply (Hinv _ _ (λ s, inv s.2)) in E;
          [cbn [snd] in E
          |first [assumption | apply init]
          |let HP := fresh "HP" in let Hb := fresh "Hb" in
           intros [? ?] ? [? ?] _ HP Hb; cbn [snd] in *; res_steps; simplify_eq;
           try done;
           (eapply Hior;
            [done | by eapply Hcc | first [by eapply IHu | by eapply IHd]])]
    | E : other_out_edges_with _ _ _ _ _ _ _ _ = Ok _ |- _ =>
        apply Hother in E; [|exact IHd|first [assumption | apply init]]
    | E : continue_down_with _ _ _ _ _ _ _ _ _ = Ok _ |- _ =>
        apply Hdown in E; [|exact IHd|first [assumption | apply init]]
    | E : continue_up_with _ _ _ _ _ _ _ _ _ = Ok _ |- _ =>
        apply Hup in E; [|exact IHu|first [assumption | apply init]]
    end.

Lemma explorers_clear (fuel : nat) :
  explorer_clear (search_down fuel) ∧
  explorer_clear (search_up fuel) ∧ explorer_visited (search_up fuel).
Proof.
  induction fuel as [|fuel (IHd & IHu & IHv)]; [by split_and!|].
  split_and!.
  - intros G node ex vis edge hist acts v Hres. cbn [search_down] in Hres.
    res_steps; simplify_eq;
      (loop_clear (keeps_clear ex (Node.name node)) keeps_clear_visit_down
         @for_each_inv keeps_clear_ior check_continue_visit
         other_out_edges_with_clear continue_down_with_clear continue_up_with_clear
         IHd IHu;
       cbn [result_clear];
       first [assumption | apply keeps_clear_visit_down | done]).
  - intros G node ex vis edge hist acts v Hres. cbn [search_up] in Hres.
    res_steps; simplify_eq;
      (loop_clear (keeps_clear ex (Node.name node)) keeps_clear_visit_up
         @for_each_inv keeps_clear_ior check_continue_visit
         other_out_edges_with_clear continue_down_with_clear continue_up_with_clear
         IHd IHu;
       cbn [result_clear];
       first [assumption | apply keeps_clear_visit_up]).
  - intros G node ex vis edge hist acts v Hres. cbn [search_up] in Hres.
    res_steps; simplify_eq; by eexists.
Qed.

End explorer_invariant.

Section explorer_results.

Context `{!TransposeHelpers}.

(** X10: the explorers never enter a node of the exclude set.  A search
    that returns has visited its start node and, besides it, only nodes
    outside exclude_nodes.  search_up always returns a VisitedNodes;
    search_down returns the empty list in the place of one only when the
    transpose has a single axis, and its only action is then the end
    sentinel. *)
Theorem X10_explorers_keep_clear fuel G node exclude_nodes visited_nodes edge
    transpose_history :
  let name := Node.name node in
  (∀ actions v,
     search_down fuel G node exclude_nodes visited_nodes edge transpose_history
       = Ok (actions, v) →
     match v with
     | VisitedNodes.Visited v => keeps_clear exclude_nodes name v
     | VisitedNodes.Plain l =>
         l = [] ∧ actions = [EndActionDown name] ∧
         ∃ h, last transpose_history = Some h ∧
              is_single_axis (TransposeHistory.transpose h) = true
     end) ∧
  (∀ actions v,
     search_up fuel G node exclude_nodes visited_nodes edge transpose_history
       = Ok (actions, v) →
     ∃ v', v = VisitedNodes.Visited v' ∧ keeps_clear exclude_nodes name v').
Proof.
  intros name. destruct (explorers_clear fuel) as (Hd & Hu & Hv). split.
  - intros actions v Hres. pose proof (Hd _ _ _ _ _ _ _ _ Hres) as Hclear.
    destruct v as [v|l]; [exact Hclear|]. cbn in Hclear. subst l.
    destruct fuel as [|fuel]; [done|]. cbn [search_down] in Hres.
    res_steps; simplify_eq. split_and!; [done..|].
    match goal with E : py_last _ = Ok ?h |- _ =>
      exists h; split; [|done]; unfold py_last in E;
      by destruct (last _); simplify_eq end.
  - intros actions v Hres. destruct (Hv _ _ _ _ _ _ _ _ Hres) as [v' ->].
    exists v'. split; [done|]. exact (Hu _ _ _ _ _ _ _ _ Hres).
Qed.

(** X11: what the two searches of the driver return is disjoint from the
    nodes that earlier eliminations of the pass have visited: no node of
    visited_nodes is among the nodes of the visited set of a result, so
    that the results that a pass collects work on disjoint sets of nodes. *)
Theorem X11_searches_avoid_visited fuel opts G transpose_node
    (visited_nodes : gset string) :
  well_named G →
  Node.name transpose_node ∉ visited_nodes →
  (∀ actions v,
     search_upwards fuel G transpose_node visited_nodes = Ok (Some (actions, v)) →
     dom (VisitedNodes.nodes v) ## visited_nodes) ∧
  (∀ actions v,
     search_downwards fuel opts G transpose_node visited_nodes = Ok (Some (actions, v)) →
     Node.name transpose_node ∈ dom (VisitedNodes.nodes v) ∧
     dom (VisitedNodes.nodes v) ## visited_nodes).
Proof.
  intros HG Hname. destruct (explorers_clear fuel) as (Hd & Hu & Hv). split.
  - intros actions v Hres. unfold search_upwards in Hres.
    apply try_except_Ok in Hres as [Hres|[_ Hres]]; [|done].
    res_steps; simplify_eq.
    match goal with E : as_visited ?o = Ok _ |- _ =>
      destruct o; cbn in E; simplify_eq end.
    match goal with E : search_up _ _ _ _ _ _ _ = Ok _ |- _ =>
      pose proof (Hu _ _ _ _ _ _ _ _ E) as [_ Hclear] end.
    match goal with E : get_node _ _ = Ok ?n |- _ =>
      unfold get_node in E; destruct (nodes G !! _) eqn:Hl in E; simplify_eq;
      apply HG in Hl end.
    match goal with E : bool_decide (_ ∈ _) = false |- _ =>
      apply bool_decide_eq_false in E; rename E into Hfrom end.
    intros n Hn Hvis. destruct (Hclear n Hn) as [->|Hex]; [|done].
    apply Hfrom. by rewrite <- Hl.
  - intros actions v Hres. unfold search_downwards in Hres.
    apply try_except_Ok in Hres as [Hres|[_ Hres]]; [|done].
    res_steps; simplify_eq.
    match goal with E : for_each _ _ _ = Ok _ |- _ =>
      apply (for_each_inv
               (λ s, keeps_clear visited_nodes (Node.name transpose_node) s.2)) in E;
        [destruct E as [Hin Hclear]|apply keeps_clear_visit_down|] end.
    + split; [done|]. intros n Hn Hvis. destruct (Hclear n Hn) as [->|Hex]; done.
    + intros [? ?] e [? ?] _ HP Hb. cbn [snd] in *. res_steps; simplify_eq; [done|].
      eapply keeps_clear_ior; [done| |by eapply Hd].
      match goal with E : get_node _ _ = Ok ?n |- _ =>
        unfold get_node in E; destruct (nodes G !! _) eqn:Hl in E; simplify_eq;
        apply HG in Hl end.
      match goal with E : bool_decide (_ ∈ _) = false |- _ =>
        apply bool_decide_eq_false in E; by rewrite Hl end.
Qed.

End explorer_results.

Lemma well_named_graph_of (ns : list Node.t) (es : list Edge.t) :
  well_named (Examples.graph_of ns es).
Proof.
  intros k node Hk. unfold Examples.graph_of in Hk. cbn [nodes] in Hk.
  apply elem_of_list_to_map_2, list_elem_of_fmap in Hk as (n & Hn & _).
  by simplify_eq.
Qed.

(** The theorem at the linear layer of the example, entered upwards while
    the input x is excluded: the activation r and the output o2 behind the
    other out-edge are visited, x is not. *)
Lemma X10_explorers_keep_clear_witness :
  ∃ actions v,
    search_up 3 Examples.batched_linear Examples.fc_node {["x"]} VisitedNodes.empty
      (Examples.edge "fc" "t") (Examples.history_of "t" (py_tuple [1; 0]))
    = Ok (actions, VisitedNodes.Visited v) ∧
    keeps_clear {["x"]} "fc" v ∧
    dom (VisitedNodes.nodes v) = {["fc"; "r"; "o2"]}.
Proof.
  destruct (X10_explorers_keep_clear 3 Examples.batched_linear Examples.fc_node {["x"]}
              VisitedNodes.empty (Examples.edge "fc" "t")
              (Examples.history_of "t" (py_tuple [1; 0]))) as [_ Hup].
  destruct (search_up 3 Examples.batched_linear Examples.fc_node {["x"]}
              VisitedNodes.empty (Examples.edge "fc" "t")
              (Examples.history_of "t" (py_tuple [1; 0]))) as [[actions v]| |] eqn:Hrun;
    [|by vm_compute in Hrun..].
  destruct (Hup actions v eq_refl) as (v' & -> & Hclear).
  exists actions, v'. split; [done|]. split; [exact Hclear|].
  vm_compute in Hrun. simplify_eq. apply (bool_decide_unpack _). by vm_compute.
Defined.

(** The theorem at the first transpose of the two chains, after the second
    chain has been visited. *)
Lemma X11_searches_avoid_visited_witness :
  let G := Examples.two_chains in
  let visited_nodes : gset string := {["in2"; "tb"; "out2"]} in
  ∃ actions v,
    search_downwards 8 Examples.default_options G Examples.ta_node visited_nodes
      = Ok (Some (actions, v)) ∧
    dom (VisitedNodes.nodes v) ## visited_nodes.
Proof.
  intros G visited_nodes.
  assert (Hname : Node.name Examples.ta_node ∉ visited_nodes).
  { apply (bool_decide_unpack _). by vm_compute. }
  destruct (X11_searches_avoid_visited 8 Examples.default_options G Examples.ta_node
              visited_nodes (well_named_graph_of _ _) Hname) as [_ Hdown].
  destruct (search_downwards 8 Examples.default_options G Examples.ta_node visited_nodes)
    as [[[actions v]|]| |] eqn:Hrun; [|by vm_compute in Hrun..].
  exists actions, v. split; [done|]. by apply (Hdown actions v).
Defined.

Section terminal_nodes.

Context `{!TransposeHelpers}.

(** X20: a transpose that a reshape has made undetermined (None) is
    refused wherever it would be used.  search_down raises
    CantContinueError at a Transpose, Output, StridedSlice, Pad, Reverse or
    Reshape node that it reaches with the transpose None, and search_up
    raises it at a Transpose, Input, Constant, StridedSlice, Pad, Reverse or
    Reshape node, before or after it has looked at the other out-edges. *)
Theorem X20_null_transpose_refused fuel G node exclude_nodes visited_nodes edge
    transpose_history h :
  last transpose_history = Some h →
  TransposeHistory.transpose h = None →
  Node.SensitiveToOrder node = false →
  (needs_transpose_down (Node.cls node) →
   Node.Broadcastable node = false →
   is_Some (Node.in_dims node !! Edge.to_idx edge) →
   search_down (S fuel) G node exclude_nodes visited_nodes edge transpose_history
     = Raise CantContinueError) ∧
  (needs_transpose_up (Node.cls node) →
   search_up (S fuel) G node exclude_nodes visited_nodes edge transpose_history
     = Raise CantContinueError).
Proof.
  intros Hlast Hnone Hs. split.
  - intros Hcls Hb [in_dim Hin]. cbn [search_down].
    rewrite (py_last_Some _ _ Hlast). cbn [mbind Res_bind].
    rewrite (py_nth_Some _ _ _ Hin). cbn [mbind Res_bind].
    rewrite Hnone, Hs, Hb. cbn [is_single_axis].
    unfold needs_transpose_down in Hcls. unfold in_NODES_TO_EXPLORE_UP, is_linear.
    rewrite Hb.
    repeat (apply elem_of_cons in Hcls as [Hcls|Hcls];
            [rewrite Hcls; cbn [bool_decide decide_rel orb andb mbind Res_bind
                                check_for_null_transpose TRANSIENT_ACTIONS];
             by repeat (case_bool_decide; cbn)|]).
    by apply elem_of_nil in Hcls.
  - intros Hcls. cbn [search_up].
    rewrite (py_last_Some _ _ Hlast). cbn [mbind Res_bind].
    rewrite Hnone, Hs. cbn [is_single_axis].
    unfold other_out_edges_with.
    destruct (edges_except (out_edges G (Node.name node)) edge) as [|e es];
      [|done].
    cbn [for_each mbind Res_bind].
    unfold needs_transpose_up in Hcls. unfold is_linear.
    repeat (apply elem_of_cons in Hcls as [Hcls|Hcls];
            [rewrite Hcls; cbn [bool_decide decide_rel orb andb mbind Res_bind
                                check_for_null_transpose TRANSIENT_ACTIONS];
             by repeat (case_bool_decide || case_match; cbn)|]).
    by apply elem_of_nil in Hcls.
Qed.

(** X21: the explorers do not look beyond a node that is sensitive to
    order.  At such a node the result of search_down and of search_up is
    the same for every graph, every exclude set and every set of visited
    nodes, and is found without a recursive call; when the call returns,
    its actions are at most two and end with the end sentinel of the
    node. *)
Theorem X21_sensitive_node_ends_search fuel G G' node exclude_nodes exclude_nodes'
    visited_nodes visited_nodes' edge transpose_history :
  Node.SensitiveToOrder node = true →
  let name := Node.name node in
  search_down (S fuel) G node exclude_nodes visited_nodes edge transpose_history =
    search_down 1 G' node exclude_nodes' visited_nodes' edge transpose_history ∧
  search_up (S fuel) G node exclude_nodes visited_nodes edge transpose_history =
    search_up 1 G' node exclude_nodes' visited_nodes' edge transpose_history ∧
  (∀ actions v,
     search_down (S fuel) G node exclude_nodes visited_nodes edge transpose_history
       = Ok (actions, v) →
     last actions = Some (EndActionDown name) ∧ (length actions ≤ 2)%nat) ∧
  (∀ actions v,
     search_up (S fuel) G node exclude_nodes visited_nodes edge transpose_history
       = Ok (actions, v) →
     last actions = Some (EndActionUp name) ∧ (length actions ≤ 2)%nat ∧
     v = VisitedNodes.Visited
           (VisitedNodes.visit_up VisitedNodes.empty name (Edge.from_idx edge))).
Proof.
  intros Hs name. split_and!.
  - cbn [search_down]. rewrite Hs.
    destruct (py_last transpose_history); cbn [mbind Res_bind]; [|done..].
    destruct (py_nth _ _); cbn [mbind Res_bind]; [|done..].
    by destruct (is_single_axis _).
  - cbn [search_up]. rewrite Hs.
    destruct (py_last transpose_history); cbn [mbind Res_bind]; [|done..].
    by destruct (is_single_axis _).
  - intros actions v Hres. cbn [search_down] in Hres. rewrite Hs in Hres.
    res_steps; simplify_eq; split; cbn; done || lia.
  - intros actions v Hres. cbn [search_up] in Hres. rewrite Hs in Hres.
    res_steps; simplify_eq; split_and!; cbn; done || lia.
Qed.

End terminal_nodes.

(** The theorem at the second transpose of the cancelling pair and at its
    input, reached with an undetermined transpose. *)
Lemma X20_null_transpose_refused_witness :
  let G := Examples.cancelling_pair in
  let history := [TransposeHistory.mk "r" None None None] in
  search_down 4 G Examples.t2_node ∅ VisitedNodes.empty (Examples.edge "t1" "t2")
    history = Raise CantContinueError ∧
  search_up 4 G Examples.t2_node ∅ VisitedNodes.empty (Examples.edge "t2" "out")
    history = Raise CantContinueError.
Proof.
  intros G history.
  destruct (X20_null_transpose_refused 3 G Examples.t2_node ∅ VisitedNodes.empty
              (Examples.edge "t1" "t2") history (TransposeHistory.mk "r" None None None)
              eq_refl eq_refl eq_refl) as [Hdown _].
  destruct (X20_null_transpose_refused 3 G Examples.t2_node ∅ VisitedNodes.empty
              (Examples.edge "t2" "out") history (TransposeHistory.mk "r" None None None)
              eq_refl eq_refl eq_refl) as [_ Hup].
  split.
  - apply Hdown; [|done|by eexists]. unfold needs_transpose_down. set_solver.
  - apply Hup. unfold needs_transpose_up. set_solver.
Defined.

(** The theorem at the convolution of the examples, reached downwards with
    a permutation of its three axes: the transpose is inserted in front of
    it, in the graph of the two chains as in the empty graph. *)
Lemma X21_sensitive_node_ends_search_witness :
  let history := Examples.history_of "t" (py_list [0; 2; 1]) in
  search_down 5 Examples.two_chains Examples.conv_node {["conv"]} VisitedNodes.empty
    (Examples.edge "t" "conv") history =
  Ok ([InsertTransposeAction "conv" "in" 0 None (Some (py_list [0; 2; 1]));
       EndActionDown "conv"],
      VisitedNodes.Visited (VisitedNodes.visit_down VisitedNodes.empty "conv" 0)).
Proof.
  intros history.
  destruct (X21_sensitive_node_ends_search 4 Examples.two_chains
              (Examples.graph_of [] []) Examples.conv_node {["conv"]} ∅
              VisitedNodes.empty VisitedNodes.empty (Examples.edge "t" "conv") history
              eq_refl) as (-> & _).
  reflexivity.
Defined.

Section more_explorer_facts.

Context `{!TransposeHelpers}.

(** X22: requires_reshape never asks for a reshape between two equal
    transposes, whatever the helpers compute: the two shapes it compares
    are then the same.  search_up calls it only when the transpose of the
    node equals the propagated one (as tuples: a list and a tuple of the
    same axes are equal here), so that the DeleteTranspose action of the
    upward explorer never carries a reshape. *)
Theorem X22_upward_delete_has_no_reshape fuel G node exclude_nodes visited_nodes edge
    transpose_history h p (dim : Dim.t) :
  (∀ r, requires_reshape (items (Node.transpose node)) (items (Node.transpose node)) dim
        = Ok r →
        r = None) ∧
  (Node.cls node = TransposeParameters →
   Node.SensitiveToOrder node = false →
   last transpose_history = Some h →
   TransposeHistory.transpose h = Some p →
   items p = items (Node.transpose node) →
   ∀ actions v,
     search_up (S fuel) G node exclude_nodes visited_nodes edge transpose_history
       = Ok (actions, v) →
     actions = [EndActionUp (Node.name node)] ∨
     ∃ before,
       actions = before ++ [DeleteTransposeAction (Node.name node) None;
                            EndActionUp (Node.name node)]).
Proof.
  assert (Hreq : ∀ d r,
            requires_reshape (items (Node.transpose node)) (items (Node.transpose node)) d
            = Ok r →
            r = None).
  { intros d r Hr. unfold requires_reshape in Hr.
    case_bool_decide; [|by simplify_eq].
    destruct (calc_transpose d (items (Node.transpose node))) as [d1| |];
      cbn [mbind Res_bind] in Hr; [|done..].
    destruct (calc_transpose d1 (items (Node.transpose node)));
      cbn [mbind Res_bind] in Hr; [|done..].
    case_bool_decide; [|by simplify_eq].
    rewrite bool_decide_false in Hr by (by intros ?). by simplify_eq. }
  split; [apply Hreq|].
  intros Hcls Hs Hlast Hp Hitems actions v Hres. cbn [search_up] in Hres.
  rewrite (py_last_Some _ _ Hlast) in Hres. cbn [mbind Res_bind] in Hres.
  rewrite Hp, Hs in Hres.
  destruct (is_single_axis (Some p)); [left; by simplify_eq|].
  right. unfold is_linear in Hres. rewrite Hcls in Hres.
  cbn [bool_decide decide_rel orb mbind Res_bind check_for_null_transpose the_perm]
    in Hres. rewrite Hitems in Hres.
  destruct (other_out_edges_with _ _ _ _ _ _ _ _) as [[before cur]| |];
    cbn [mbind Res_bind] in Hres; [|done..].
  rewrite !(bool_decide_false (TransposeParameters = _)) in Hres by done.
  cbn [orb] in Hres. rewrite !bool_decide_true in Hres by done.
  cbn [mbind Res_bind] in Hres.
  destruct (py_nth (Node.out_dims node) 0) as [out0| |]; cbn [mbind Res_bind] in Hres;
    [|done..].
  destruct (requires_reshape _ _ out0) as [r| |] eqn:Hr; cbn [mbind Res_bind] in Hres;
    [|done..].
  apply Hreq in Hr as ->. simplify_eq. by exists before.
Qed.

(** X23: continue_down and continue_up extend what they are given.  The
    actions they return start with the actions collected so far, every
    node of the visited set they were given is a node of the visited set
    they return, and at a node without out-edges (in-edges for
    continue_up) both are returned as they are.  The argument transpose
    has no influence on the result of continue_down. *)
Theorem X23_continue_extends fuel G node exclude_nodes visited_nodes cur_visited_nodes
    cur_actions transpose_history transpose :
  (∀ actions v,
     continue_down fuel G node exclude_nodes visited_nodes cur_visited_nodes
       cur_actions transpose_history transpose = Ok (actions, v) →
     cur_actions `prefix_of` actions ∧
     dom (VisitedNodes.nodes cur_visited_nodes) ⊆ dom (VisitedNodes.nodes v)) ∧
  (∀ actions v,
     continue_up fuel G node exclude_nodes visited_nodes cur_visited_nodes
       cur_actions transpose_history transpose = Ok (actions, v) →
     cur_actions `prefix_of` actions ∧
     dom (VisitedNodes.nodes cur_visited_nodes) ⊆ dom (VisitedNodes.nodes v)) ∧
  (out_edges G (Node.name node) = [] →
   continue_down fuel G node exclude_nodes visited_nodes cur_visited_nodes
     cur_actions transpose_history transpose = Ok (cur_actions, cur_visited_nodes)) ∧
  (in_edges G (Node.name node) = [] →
   continue_up fuel G node exclude_nodes visited_nodes cur_visited_nodes
     cur_actions transpose_history transpose = Ok (cur_actions, cur_visited_nodes)) ∧
  (∀ transpose',
     continue_down fuel G node exclude_nodes visited_nodes cur_visited_nodes
       cur_actions transpose_history transpose' =
     continue_down fuel G node exclude_nodes visited_nodes cur_visited_nodes
       cur_actions transpose_history transpose).
Proof.
  destruct (explorers_clear fuel) as (Hd & Hu & Hv).
  assert (Hior : ∀ (cur : VisitedNodes.t) r start ex,
            result_clear ex start r →
            dom (VisitedNodes.nodes cur) ⊆ dom (VisitedNodes.nodes (VisitedNodes.ior cur r))).
  { intros cur [c|l] start ex Hr; cbn in Hr.
    - unfold VisitedNodes.ior. cbn [VisitedNodes.nodes].
      rewrite dom_or_nodes_visited. set_solver.
    - by subst l. }
  split_and!.
  - intros actions v Hres. unfold continue_down, continue_down_with in Hres.
    apply (for_each_inv
             (λ s, cur_actions `prefix_of` s.1 ∧
                   dom (VisitedNodes.nodes cur_visited_nodes)
                     ⊆ dom (VisitedNodes.nodes s.2))) in Hres; [done|done|].
    intros [a c] e [a' c'] _ [Hpre Hdom] Hb. cbn [fst snd] in *.
    res_steps; simplify_eq; [done|]. split.
    + etrans; [done|]. by apply prefix_app_r.
    + etrans; [done|]. eapply Hior. by eapply Hd.
  - intros actions v Hres. unfold continue_up, continue_up_with in Hres.
    apply (for_each_inv
             (λ s, cur_actions `prefix_of` s.1 ∧
                   dom (VisitedNodes.nodes cur_visited_nodes)
                     ⊆ dom (VisitedNodes.nodes s.2))) in Hres; [done|done|].
    intros [a c] e [a' c'] _ [Hpre Hdom] Hb. cbn [fst snd] in *.
    res_steps; simplify_eq; try done; (split;
      [etrans; [done|]; rewrite <- ?(assoc_L (++)); by apply prefix_app_r
      |etrans; [done|]; eapply Hior; by eapply Hu]).
  - intros Ho. unfold continue_down, continue_down_with. by rewrite Ho.
  - intros Ho. unfold continue_up, continue_up_with. by rewrite Ho.
  - done.
Qed.

(** The two shapes of a broadcasted input are never equal: one is a list,
    the other a tuple. *)
Lemma broadcast_shapes_differ transpose edge_in_shape max_shape t f s b :
  broadcast_shapes transpose edge_in_shape max_shape = Ok (t, f, s, b) → f ≠ s.
Proof.
  unfold broadcast_shapes. intros Hb. res_steps. by simplify_eq.
Qed.

(** X26: continue_up inserts a reshape on every broadcasted input edge it
    passes, whether the two shapes hold the same dimensions or not: it
    compares from_shape, the list that apply_transpose returns, with
    to_shape, the tuple that strip_leading_dim returns, and a list is never
    equal to a tuple.  Stated for the first in-edge of a node that is
    Broadcastable or a PowOp: when the edge is visited and the rank of its
    input shape is not the rank of the output, the actions that continue_up
    returns are the actions it was given, then the InsertReshape on that
    edge, then the rest. *)
Theorem X26_broadcast_always_reshapes fuel G node exclude_nodes visited_nodes
    cur_visited_nodes cur_actions transpose_history transpose edge others from_node
    d out0 actions v :
  in_edges G (Node.name node) = edge :: others →
  get_node G (Edge.from_node edge) = Ok from_node →
  check_continue visited_nodes cur_visited_nodes exclude_nodes from_node "up"
    (Edge.from_idx edge) = Ok false →
  Node.Broadcastable node = true ∨ Node.cls node = PowOpParameters →
  Node.in_dims node !! Edge.to_idx edge = Some d →
  Node.out_dims node !! 0%nat = Some out0 →
  length (Dim.shape d) ≠ Dim.rank out0 →
  continue_up fuel G node exclude_nodes visited_nodes cur_visited_nodes cur_actions
    transpose_history transpose = Ok (actions, v) →
  ∃ from_shape to_shape rest,
    actions =
    cur_actions ++
    InsertReshapeAction (Node.name node) "in" (Edge.to_idx edge) None from_shape to_shape
    :: rest.
Proof.
  intros Hedges Hfrom Hcc Hbroad Hd Hout Hrank Hres.
  unfold continue_up, continue_up_with in Hres. rewrite Hedges in Hres.
  cbn [for_each] in Hres.
  rewrite Hfrom in Hres. cbn [mbind Res_bind] in Hres.
  rewrite Hcc in Hres. cbn [mbind Res_bind] in Hres.
  rewrite (py_nth_Some _ _ _ Hd) in Hres. cbn [mbind Res_bind] in Hres.
  assert (Hb : Node.Broadcastable node || bool_decide (Node.cls node = PowOpParameters)
               = true).
  { destruct Hbroad as [-> | ->]; [done|]. by rewrite bool_decide_true, orb_true_r. }
  rewrite Hb, (py_nth_Some _ _ _ Hout) in Hres. cbn [mbind Res_bind] in Hres.
  rewrite bool_decide_true in Hres by done.
  destruct (broadcast_shapes _ _ _) as [[[[t f] s] b]| |] eqn:Hshapes;
    cbn [mbind Res_bind] in Hres; [|done..].
  rewrite bool_decide_true in Hres by (by eapply broadcast_shapes_differ).
  cbn [mbind Res_bind] in Hres.
  destruct (search_up _ _ _ _ _ _ _) as [[new_actions visited_up_nodes]| |];
    cbn [mbind Res_bind] in Hres; [|done..].
  apply (for_each_inv
           (λ st, ((cur_actions ++
                      [InsertReshapeAction (Node.name node) "in" (Edge.to_idx edge) None
                         (items f) (items s)]) ++ new_actions) `prefix_of` st.1))
    in Hres.
  - cbn [fst] in Hres. destruct Hres as [rest ->].
    exists (items f), (items s), (new_actions ++ rest).
    by rewrite <- !(assoc_L (++)).
  - done.
  - intros [a c] e [a' c'] _ Hpre Hbody. cbn [fst] in *.
    res_steps; simplify_eq; try done;
      (etrans; [done|]; rewrite <- ?(assoc_L (++)); by apply prefix_app_r).
Qed.

End more_explorer_facts.

(** The theorem at the addition of the example, passed upwards with the
    identity of two axes: the input b of shape [2] is broadcasted, and a
    reshape from [2] to (2,) is inserted on its edge. *)
Lemma X26_broadcast_always_reshapes_witness :
  ∃ actions v from_shape to_shape rest,
    continue_up 2 Examples.broadcast_input Examples.add_node ∅ VisitedNodes.empty
      (VisitedNodes.visit_up VisitedNodes.empty "add" 0) []
      (Examples.history_of "t" (py_tuple [0; 1])) (Some (py_tuple [0; 1]))
    = Ok (actions, v) ∧
    actions = [] ++ InsertReshapeAction "add" "in" 0 None from_shape to_shape :: rest ∧
    actions = [InsertReshapeAction "add" "in" 0 None [2] [2]; EndActionUp "b"].
Proof.
  destruct (continue_up 2 Examples.broadcast_input Examples.add_node ∅
              VisitedNodes.empty (VisitedNodes.visit_up VisitedNodes.empty "add" 0) []
              (Examples.history_of "t" (py_tuple [0; 1])) (Some (py_tuple [0; 1])))
    as [[actions v]| |] eqn:Hrun; [|by vm_compute in Hrun..].
  assert (Hedges : in_edges Examples.broadcast_input "add" = [Examples.edge "b" "add"])
    by (by vm_compute).
  assert (Hfrom : get_node Examples.broadcast_input "b" = Ok Examples.b_node)
    by (by vm_compute).
  assert (Hcc : check_continue VisitedNodes.empty
                  (VisitedNodes.visit_up VisitedNodes.empty "add" 0) ∅
                  Examples.b_node "up" 0 = Ok false) by (by vm_compute).
  destruct (X26_broadcast_always_reshapes 2 Examples.broadcast_input Examples.add_node ∅
              VisitedNodes.empty (VisitedNodes.visit_up VisitedNodes.empty "add" 0) []
              (Examples.history_of "t" (py_tuple [0; 1])) (Some (py_tuple [0; 1]))
              (Examples.edge "b" "add") [] Examples.b_node (Dim.mk [2]) (Dim.mk [1; 2])
              actions v Hedges Hfrom Hcc (or_introl eq_refl) eq_refl eq_refl)
    as (from_shape & to_shape & rest & Hactions);
    [unfold Dim.rank; simpl; lia|exact Hrun|].
  exists actions, v, from_shape, to_shape, rest. split; [done|]. split; [exact Hactions|].
  vm_compute in Hrun. by injection Hrun as <- _.
Defined.

(** *** The actions of a result *)

Section names_visited_facts.

Implicit Types (v : VisitedNodes.t) (acts extra : list Action) (start : string).

Lemma names_visited_visit_down start (idx : nat) :
  names_visited start ([], VisitedNodes.visit_down VisitedNodes.empty start idx).
Proof.
  split; [|by intros a Ha; apply elem_of_nil in Ha].
  unfold VisitedNodes.visit_down, VisitedNodes.add_tag. cbn [snd VisitedNodes.nodes].
  rewrite dom_insert_L. set_solver.
Qed.

Lemma names_visited_visit_up start (idx : nat) :
  names_visited start ([], VisitedNodes.visit_up VisitedNodes.empty start idx).
Proof.
  split; [|by intros a Ha; apply elem_of_nil in Ha].
  unfold VisitedNodes.visit_up, VisitedNodes.add_tag. cbn [snd VisitedNodes.nodes].
  rewrite dom_insert_L. set_solver.
Qed.

(** Actions at the start node are added. *)
Lemma names_visited_add start acts extra v :
  names_visited start (acts, v) → Forall (at_start start) extra →
  names_visited start (acts ++ extra, v).
Proof.
  intros [Hin Hall] Hextra. split; [done|]. cbn [fst snd] in *.
  intros a [Ha|Ha]%elem_of_app; [by apply Hall|].
  rewrite Forall_forall in Hextra. destruct (Hextra a Ha) as [?|<-]; [by left|by right].
Qed.

(** The actions are replaced by actions at the start node. *)
Lemma names_visited_only start acts extra v :
  names_visited start (acts, v) → Forall (at_start start) extra →
  names_visited start (extra, v).
Proof.
  intros [Hin _] Hextra.
  apply (names_visited_add start [] extra v); [|done].
  split; [done|]. by intros a Ha; apply elem_of_nil in Ha.
Qed.

(** The result of a search from another node is added. *)
Lemma names_visited_app start sub acts new v (r : VisitedNodes.operand) :
  names_visited start (acts, v) → result_named sub (new, r) →
  names_visited start (acts ++ new, VisitedNodes.ior v r).
Proof.
  intros [Hin Hall] Hr. unfold result_named in Hr. cbn [fst snd] in *.
  destruct r as [c|l].
  - destruct Hr as [_ Hc]. cbn [fst snd] in Hc.
    assert (Hdom : dom (VisitedNodes.nodes (VisitedNodes.ior v (VisitedNodes.Visited c)))
                   = dom (VisitedNodes.nodes v) ∪ dom (VisitedNodes.nodes c))
      by apply dom_or_nodes_visited.
    split; cbn [fst snd]; rewrite Hdom; [set_solver|].
    intros a [Ha|Ha]%elem_of_app.
    + destruct (Hall a Ha); [by left | right; set_solver].
    + destruct (Hc a Ha); [by left | right; set_solver].
  - destruct Hr as [-> Hc]. split; [done|]. cbn [fst snd] in *.
    rewrite Forall_forall in Hc.
    intros a [Ha|Ha]%elem_of_app; [by apply Hall | left; by apply Hc].
Qed.

Lemma transient_action_node (c : NodeClass) f (n : string) (t : perm) (d : string) :
  TRANSIENT_ACTIONS c = Some f → action_node (f n t d) = n.
Proof. destruct c; cbn; intros; by simplify_eq. Qed.

End names_visited_facts.

(** The actions at the start node: each one is an end sentinel or names the
    node. *)
Ltac at_start_solve Htransient :=
  repeat first
    [ apply Forall_nil_2
    | apply Forall_cons_2;
      [first [by left | by right | right; by eapply Htransient
             | by case_bool_decide; right | by repeat case_match; right]|] ].

Section explorer_names.

Context `{!TransposeHelpers}.

Implicit Types (f : explorer) (v cur : VisitedNodes.t).

Lemma continue_down_with_named f G node ex vis cur acts hist t r :
  explorer_named f → names_visited (Node.name node) (acts, cur) →
  continue_down_with f G node ex vis cur acts hist t = Ok r →
  names_visited (Node.name node) r.
Proof.
  intros Hf Hcur Hl. unfold continue_down_with in Hl.
  apply (for_each_inv (names_visited (Node.name node))) in Hl; [done|done|].
  intros [a v] edge [a' v''] _ HP Hb.
  res_steps; simplify_eq; [done|].
  eapply names_visited_app; [done|by eapply Hf].
Qed.

Lemma continue_up_with_named f G node ex vis cur acts hist t r :
  explorer_named f → names_visited (Node.name node) (acts, cur) →
  continue_up_with f G node ex vis cur acts hist t = Ok r →
  names_visited (Node.name node) r.
Proof.
  intros Hf Hcur Hl. unfold continue_up_with in Hl.
  apply (for_each_inv (names_visited (Node.name node))) in Hl; [done|done|].
  intros [a v] edge [a' v''] _ HP Hb.
  res_steps; simplify_eq; try done;
    (eapply names_visited_app;
     [first [exact HP
            |apply names_visited_add; [exact HP|at_start_solve transient_action_node]]
     |by eapply Hf]).
Qed.

Lemma other_out_edges_with_named f G node ex vis cur out_edge t r :
  explorer_named f → names_visited (Node.name node) ([], cur) →
  other_out_edges_with f G node ex vis cur out_edge t = Ok r →
  names_visited (Node.name node) r.
Proof.
  intros Hf Hcur Hl. unfold other_out_edges_with in Hl.
  apply (for_each_inv (names_visited (Node.name node))) in Hl; [done|done|].
  intros [a v] edge [a' v''] _ HP Hb.
  res_steps; simplify_eq; try done.
  eapply names_visited_app; [done|by eapply Hf].
Qed.

End explorer_names.

Section explorer_names_main.

Context `{!TransposeHelpers}.

(** The loops keep the invariant: as [loop_clear], for the actions. *)
Ltac loop_named name init Hinv Hadd Happ Htransient Hother Hdown Hup IHd IHu :=
  repeat match goal with
    | E : for_each _ _ (_, _) = Ok (_, _) |- _ =>
        apply (Hinv _ _ (names_visited name)) in E;
          [|first [assumption | apply init]
           |let HP := fresh "HP" in let Hb := fresh "Hb" in
            intros [? ?] ? [? ?] _ HP Hb; res_steps; simplify_eq; try done;
            repeat match goal with
              | |- context [if ?b then _ else _] => destruct b
              end;
            (eapply Happ;
             [first [exact HP
                    |apply Hadd; [exact HP|at_start_solve Htransient]]
             |first [by eapply IHu | by eapply IHd]])]
    | E : other_out_edges_with _ _ _ _ _ _ _ _ = Ok _ |- _ =>
        apply Hother in E; [|exact IHd|first [assumption | apply init]]
    | E : continue_down_with _ _ _ _ _ ?cur ?acts _ _ = Ok _ |- _ =>
        apply Hdown in E;
          [|exact IHd
           |first [assumption | apply init
                  |apply Hadd; [first [assumption | apply init]
                               |at_start_solve Htransient]]]
    | E : continue_up_with _ _ _ _ _ ?cur ?acts _ _ = Ok _ |- _ =>
        apply Hup in E;
          [|exact IHu
           |first [assumption | apply init
                  |apply Hadd; [first [assumption | apply init]
                               |at_start_solve Htransient]]]
    end.

(** The result at a return of an explorer. *)
Ltac leaf_named init Hadd Honly Htransient :=
  lazymatch goal with
  | |- names_visited _ ((_ ++ _) ++ _, _) =>
      apply Hadd;
        [apply Hadd; [first [assumption | apply init]|at_start_solve Htransient]
        |at_start_solve Htransient]
  | |- names_visited _ (_ ++ _, _) =>
      apply Hadd; [first [assumption | apply init]|at_start_solve Htransient]
  | |- names_visited _ (_, _) =>
      first [assumption
            |eapply Honly;
               [first [eassumption | apply init]|at_start_solve Htransient]]
  | |- _ ∧ _ => split; [done|by repeat constructor]
  end.

Lemma explorers_named (fuel : nat) :
  explorer_named (search_down fuel) ∧ explorer_named (search_up fuel).
Proof.
  induction fuel as [|fuel (IHd & IHu)]; [by split|].
  split.
  - intros G node ex vis edge hist acts v Hres. cbn [search_down] in Hres.
    res_steps; simplify_eq.
    all: loop_named (Node.name node) names_visited_visit_down
         @for_each_inv names_visited_add names_visited_app transient_action_node
         other_out_edges_with_named continue_down_with_named continue_up_with_named
         IHd IHu.
    all: unfold result_named; cbn [fst snd].
    all: try (leaf_named names_visited_visit_down names_visited_add names_visited_only
                transient_action_node).
  - intros G node ex vis edge hist acts v Hres. cbn [search_up] in Hres.
    res_steps; simplify_eq.
    all: loop_named (Node.name node) names_visited_visit_up
         @for_each_inv names_visited_add names_visited_app transient_action_node
         other_out_edges_with_named continue_down_with_named continue_up_with_named
         IHd IHu.
    all: unfold result_named; cbn [fst snd].
    all: try (leaf_named names_visited_visit_up names_visited_add names_visited_only
                transient_action_node).
Qed.

(** X25: the actions an explorer returns work on the nodes it has visited:
    every action of a result that is no end sentinel names a node of the
    visited set returned with it, and that node is the node the explorer
    was entered at or a node outside exclude_nodes.  So no action is
    scheduled at a node that the search was told to keep away from. *)
Theorem X25_actions_name_visited fuel G node exclude_nodes visited_nodes edge
    transpose_history actions v a :
  search_down fuel G node exclude_nodes visited_nodes edge transpose_history
    = Ok (actions, v) ∨
  search_up fuel G node exclude_nodes visited_nodes edge transpose_history
    = Ok (actions, v) →
  a ∈ actions →
  is_end_action a = false →
  ∃ v', v = VisitedNodes.Visited v' ∧
        action_node a ∈ dom (VisitedNodes.nodes v') ∧
        (action_node a = Node.name node ∨ action_node a ∉ exclude_nodes).
Proof.
  intros Hres Ha Hend.
  destruct (explorers_named fuel) as [Nd Nu].
  destruct (explorers_clear fuel) as (Cd & Cu & _).
  assert (result_named (Node.name node) (actions, v) ∧
          result_clear exclude_nodes (Node.name node) v) as [Hn Hc].
  { destruct Hres as [Hres|Hres]; split;
      [exact (Nd _ _ _ _ _ _ _ _ Hres)|exact (Cd _ _ _ _ _ _ _ _ Hres)
      |exact (Nu _ _ _ _ _ _ _ _ Hres)|exact (Cu _ _ _ _ _ _ _ _ Hres)]. }
  unfold result_named in Hn. cbn [fst snd] in Hn. destruct v as [v|l].
  - exists v. split; [done|]. destruct Hn as [_ Hn], Hc as [_ Hc].
    destruct (Hn a Ha) as [He|Hin]; [congruence|]. split; [done|]. by apply Hc.
  - destruct Hn as [_ Hn]. rewrite Forall_forall in Hn.
    specialize (Hn a Ha). cbn in Hn. congruence.
Qed.

End explorer_names_main.

(** The theorem at the linear layer of the example, entered upwards while
    the input x is excluded: the actions reorder the linear layer fc. *)
Lemma X25_actions_name_visited_witness :
  ∃ actions v,
    search_up 3 Examples.batched_linear Examples.fc_node {["x"]} VisitedNodes.empty
      (Examples.edge "fc" "t") (Examples.history_of "t" (py_tuple [1; 0]))
    = Ok (actions, VisitedNodes.Visited v) ∧
    SwitchBatchLinearAction "fc" ∈ actions ∧
    "fc" ∈ dom (VisitedNodes.nodes v).
Proof.
  destruct (search_up 3 Examples.batched_linear Examples.fc_node {["x"]}
              VisitedNodes.empty (Examples.edge "fc" "t")
              (Examples.history_of "t" (py_tuple [1; 0]))) as [[actions v]| |] eqn:Hrun;
    [|by vm_compute in Hrun..].
  assert (SwitchBatchLinearAction "fc" ∈ actions) as Ha.
  { vm_compute in Hrun. injection Hrun as <- _.
    apply list_elem_of_further, list_elem_of_here. }
  destruct (X25_actions_name_visited 3 Examples.batched_linear Examples.fc_node {["x"]}
              VisitedNodes.empty (Examples.edge "fc" "t")
              (Examples.history_of "t" (py_tuple [1; 0])) actions v
              (SwitchBatchLinearAction "fc") (or_intror Hrun) Ha eq_refl)
    as (v' & -> & Hin & _).
  exists actions, v'. split_and!; [reflexivity|exact Ha|exact Hin].
Defined.

(** ** The scoring *)

(** X12: count_eliminated is additive over the concatenation of action
    lists, only DeleteTranspose and InsertTranspose actions count, and the
    score of a list lies between minus its length and its length.  A
    failed direction scores -1, below the empty list of actions. *)
Theorem X12_count_eliminated (a b : list Action) :
  count_eliminated (Some (a ++ b)) =
    count_eliminated (Some a) + count_eliminated (Some b) ∧
  (∀ x, is_DeleteTransposeAction x = false → is_InsertTransposeAction x = false →
        count_eliminated (Some (x :: a)) = count_eliminated (Some a)) ∧
  (∀ x, is_DeleteTransposeAction x = true →
        count_eliminated (Some (x :: a)) = count_eliminated (Some a) + 1) ∧
  (∀ x, is_InsertTransposeAction x = true →
        count_eliminated (Some (x :: a)) = count_eliminated (Some a) - 1) ∧
  - Z.of_nat (length a) ≤ count_eliminated (Some a) ≤ Z.of_nat (length a) ∧
  count_eliminated None < count_eliminated (Some []).
Proof.
  assert (Hbound : ∀ l, - Z.of_nat (length l) ≤ score (Some l) ≤ Z.of_nat (length l)).
  { intros l. unfold score. induction l as [|y l IH]; cbn [count_actions length]; [lia|].
    destruct y; cbn; lia. }
  split_and!.
  - rewrite !count_eliminated_score. unfold score.
    induction a as [|y a IH]; cbn [app count_actions]; lia.
  - intros x Hd Hi. rewrite !count_eliminated_score. unfold score.
    cbn [count_actions]. rewrite Hd, Hi. lia.
  - intros x Hd. rewrite !count_eliminated_score. unfold score.
    cbn [count_actions]. rewrite Hd. destruct x; try done; cbn; lia.
  - intros x Hi. rewrite !count_eliminated_score. unfold score.
    cbn [count_actions]. rewrite Hi. destruct x; try done; cbn; lia.
  - rewrite count_eliminated_score. apply Hbound.
  - rewrite count_eliminated_score. apply Hbound.
  - done.
Qed.

Lemma get_node_Some (G : Graph) (n : string) (node : Node.t) :
  nodes G !! n = Some node → get_node G n = Ok node.
Proof. unfold get_node. by intros ->. Qed.

(** X13: a transpose that is deleted and inserted again on the in-edge of
    its own consumer has not moved.  When the producer of the deleted
    transpose is no transpose itself and the one InsertTranspose action
    names the edge that leaves the deleted transpose, insert_step_idx skips
    back over the transpose to its producer, the two sums are equal, and
    transpose_moved answers false: the driver commits nothing for such a
    downward result when the upward result has no positive score. *)
Theorem X13_reinserted_transpose_has_not_moved (G : Graph) (t consumer : string)
    (idx : nat) (transpose_node producer : Node.t) (in_edge edge : Edge.t)
    (rest : list Edge.t) (reshape : option (list Z * list Z))
    (out_edge : option Edge.t) (transpose : perm) (others : list Action)
    (up : option (list Action)) :
  nodes G !! t = Some transpose_node →
  Node.cls transpose_node = TransposeParameters →
  in_edges G t = in_edge :: rest →
  nodes G !! Edge.from_node in_edge = Some producer →
  Node.cls producer ≠ TransposeParameters →
  indexed_in_edges G consumer idx = Ok edge →
  Edge.from_node edge = t →
  Forall (λ a, is_DeleteTransposeAction a = false ∧ is_InsertTransposeAction a = false)
    others →
  count_eliminated up ≤ 0 →
  let actions :=
    DeleteTransposeAction t reshape ::
    InsertTransposeAction consumer "in" idx out_edge transpose :: others in
  insert_step_idx G (InsertTransposeAction consumer "in" idx out_edge transpose)
    = Ok (Node.step_idx producer) ∧
  delete_step_idx G (DeleteTransposeAction t reshape) = Ok (Node.step_idx producer) ∧
  count_eliminated (Some actions) = 0 ∧
  transpose_moved G (Some actions) = Ok false ∧
  evaluate_results G up (Some actions) = Ok CommitNothing.
Proof.
  intros Ht Hcls Hin Hprod Hpcls Hedge Hfrom Hothers Hup actions.
  assert (Hfd : filter is_DeleteTransposeAction others = []).
  { apply filter_none, (Forall_impl _ _ _ Hothers). intros a [Ha _]. simpl.
    rewrite Ha. by intros []. }
  assert (Hfi : filter is_InsertTransposeAction others = []).
  { apply filter_none, (Forall_impl _ _ _ Hothers). intros a [_ Ha]. simpl.
    rewrite Ha. by intros []. }
  assert (Hsize : size (nodes G) ≠ 0%nat).
  { intros Hz. apply map_size_empty_inv in Hz. by rewrite Hz in Ht. }
  assert (Hins :
    insert_step_idx G (InsertTransposeAction consumer "in" idx out_edge transpose)
    = Ok (Node.step_idx producer)).
  { cbn [insert_step_idx]. rewrite bool_decide_true by done. rewrite Hedge.
    cbn [mbind Res_bind]. destruct (size (nodes G)) as [|fuel]; [done|].
    assert (Hskip : skip_transposes fuel G in_edge = Ok in_edge).
    { destruct fuel; cbn [skip_transposes]; rewrite (get_node_Some _ _ _ Hprod);
        cbn [mbind Res_bind]; by rewrite bool_decide_false. }
    cbn [skip_transposes]. rewrite Hfrom, (get_node_Some _ _ _ Ht).
    cbn [mbind Res_bind]. rewrite bool_decide_true by done.
    rewrite Hin. cbn [py_nth lookup list_lookup mbind Res_bind].
    rewrite Hskip. cbn [mbind Res_bind]. by rewrite (get_node_Some _ _ _ Hprod). }
  assert (Hdel :
    delete_step_idx G (DeleteTransposeAction t reshape) = Ok (Node.step_idx producer)).
  { cbn [delete_step_idx]. rewrite Hin. cbn [py_nth lookup list_lookup mbind Res_bind].
    by rewrite (get_node_Some _ _ _ Hprod). }
  assert (Hcount : count_eliminated (Some actions) = 0).
  { unfold count_eliminated, actions.
    rewrite (filter_cons_True is_DeleteTransposeAction) by done.
    rewrite (filter_cons_False is_DeleteTransposeAction) by (by intros []).
    rewrite (filter_cons_False is_InsertTransposeAction) by (by intros []).
    rewrite (filter_cons_True is_InsertTransposeAction) by done.
    rewrite Hfd, Hfi. done. }
  assert (Hmoved : transpose_moved G (Some actions) = Ok false).
  { unfold transpose_moved, actions.
    rewrite (filter_cons_True is_DeleteTransposeAction) by done.
    rewrite (filter_cons_False is_DeleteTransposeAction) by (by intros []).
    rewrite (filter_cons_False is_InsertTransposeAction) by (by intros []).
    rewrite (filter_cons_True is_InsertTransposeAction) by done.
    rewrite Hfd, Hfi. unfold sum_steps. cbn [for_each]. rewrite Hins, Hdel.
    cbn [mbind Res_bind]. by rewrite bool_decide_false by lia. }
  split_and!; [done..|].
  unfold evaluate_results. rewrite Hcount, Hmoved.
  rewrite (bool_decide_false (count_eliminated up > 0)) by lia.
  cbn [andb]. rewrite bool_decide_false by lia. by rewrite bool_decide_true by done.
Qed.

(** The theorem at the transpose t of the example, whose consumer is taken
    to be the activation a: deleted and inserted again in front of a, it
    has not moved from its producer x. *)
Lemma X13_reinserted_transpose_has_not_moved_witness :
  let G := Examples.fan_out in
  let actions :=
    [DeleteTransposeAction "t" None;
     InsertTransposeAction "a" "in" 0 None (Some (py_list [1; 0]));
     EndActionDown "a"] in
  transpose_moved G (Some actions) = Ok false ∧
  evaluate_results G None (Some actions) = Ok CommitNothing.
Proof.
  intros G actions.
  destruct (nodes G !! "t") as [tn|] eqn:Ht; [|by vm_compute in Ht].
  destruct (nodes G !! "x") as [xn|] eqn:Hx; [|by vm_compute in Hx].
  destruct (X13_reinserted_transpose_has_not_moved G "t" "a" 0 tn xn
              (Examples.edge "x" "t") (Examples.edge "t" "a") [] None None
              (Some (py_list [1; 0])) [EndActionDown "a"] None Ht)
    as (_ & _ & _ & Hmoved & Hchoice).
  - vm_compute in Ht. by simplify_eq.
  - by vm_compute.
  - exact Hx.
  - vm_compute in Hx. by simplify_eq.
  - by vm_compute.
  - done.
  - by repeat constructor.
  - by vm_compute.
  - by split.
Defined.

(** ** The driver *)

Lemma M_bind_run {A B} (m : M A) (f : A → M B) (st st' : DriverState) (a : A) :
  m st = (Ok a, st') → (m ≫= f) st = f a st'.
Proof. unfold mbind, M_bind. by intros ->. Qed.

Lemma M_bind_raise {A B} (m : M A) (f : A → M B) (st st' : DriverState) (e : exn) :
  m st = (Raise e, st') → (m ≫= f) st = (Raise e, st').
Proof. unfold mbind, M_bind. by intros ->. Qed.

Section driver_edge_cases.

Context `{!TransposeHelpers} `{!GraphBackend}.

Lemma first_pass (pass : Z → M bool) (steps : option Z) (loop_fuel : nat)
    (st : DriverState) :
  0 < pass_limit steps →
  while_found_results pass steps (S loop_fuel) true 0 st =
  (found_results ← pass 1; while_found_results pass steps loop_fuel found_results 1) st.
Proof.
  intros Hlimit. cbn [while_found_results].
  destruct steps as [n|]; cbn in Hlimit; by rewrite bool_decide_false by lia.
Qed.

Lemma loop_ends (pass : Z → M bool) (steps : option Z) (loop_fuel : nat)
    (pass_count : Z) (st : DriverState) :
  while_found_results pass steps loop_fuel false pass_count st = (Ok pass_count, st).
Proof. by destruct loop_fuel. Qed.

(** X14: a Transpose node without an in-edge stops the whole call.  When
    the transpose that comes first in the order of the names has no
    in-edge, the upward search of the first pass raises IndexError, which
    the try block of the driver does not catch: eliminate_transposes raises
    IndexError after it has logged the step and the transpose, and the
    graph is as it was. *)
Theorem X14_transpose_without_input fuel opts loop_fuel st t rest :
  merge_sort name_le (nodes_of_class (graph st) TransposeParameters) = t :: rest →
  in_edges (graph st) (Node.name t) = [] →
  0 < pass_limit (steps opts) →
  eliminate_transposes fuel opts (S loop_fuel) st =
  (Raise IndexError,
   mkState (graph st) (log st ++ [LogStep 1; LogTrying (Node.name t)])).
Proof.
  intros Hsorted Hin Hlimit.
  assert (Hpass : driver_pass fuel opts 1 st =
                  (Raise IndexError,
                   mkState (graph st) (log st ++ [LogStep 1; LogTrying (Node.name t)]))).
  { unfold driver_pass. rewrite M_bind_info, M_bind_get. cbn [graph].
    rewrite Hsorted. apply M_bind_raise.
    cbn [examine_transposes]. rewrite bool_decide_false by set_solver.
    rewrite M_bind_info, M_bind_get. cbn [graph log].
    unfold search_upwards. rewrite Hin. cbn [py_nth lookup list_lookup mbind Res_bind].
    cbn [try_except]. rewrite M_bind_lift. by rewrite <- (assoc_L (++)). }
  unfold eliminate_transposes. apply M_bind_raise.
  rewrite first_pass by done. by apply M_bind_raise.
Qed.

(** X15: on a graph without a Transpose node the call makes one pass,
    selects and executes nothing, and returns; when do_silly is off, or the
    graph has no Reshape node either, the graph it leaves is the one that
    add_dimensions returns for the graph it was given. *)
Theorem X15_no_transposes fuel opts loop_fuel st G' :
  nodes_of_class (graph st) TransposeParameters = [] →
  do_silly opts = false ∨ nodes_of_class (graph st) ReshapeParameters = [] →
  add_dimensions (graph st) = Ok G' →
  0 < pass_limit (steps opts) →
  eliminate_transposes fuel opts (S loop_fuel) st =
  (Ok 1,
   mkState G'
     (log st ++ [LogStep 1; LogNothingFound] ++
      (if debug_function opts then [LogDebug] else []) ++ [LogFinished])).
Proof.
  intros Hnone Hsilly Hdims Hlimit.
  assert (Hseq : ∀ c, nodes_of_class (graph st) c = [] → sequences_of (graph st) c = Ok []).
  { intros c Hc. unfold sequences_of. by rewrite Hc. }
  assert (Hclean :
    ∀ l,
      (if do_silly opts
       then G ← get_graph; _ ← put_graph (remove_silly_reshapes G);
            _ ← combine_reshapes; combine_transposes
       else (mret () : M unit)) (mkState (graph st) l) = (Ok (), mkState (graph st) l)).
  { intros l. destruct Hsilly as [Hoff|Hreshape]; [by rewrite Hoff|].
    destruct (do_silly opts); [cbv iota|done].
    assert (Hr : combine_reshapes (mkState (graph st) l) = (Ok (), mkState (graph st) l)).
    { unfold combine_reshapes. rewrite M_bind_get. cbn [graph].
      by rewrite (M_bind_lift_Ok _ _ _ _ (Hseq _ Hreshape)). }
    assert (Ht : combine_transposes (mkState (graph st) l) = (Ok (), mkState (graph st) l)).
    { unfold combine_transposes. rewrite M_bind_get. cbn [graph].
      by rewrite (M_bind_lift_Ok _ _ _ _ (Hseq _ Hnone)). }
    rewrite M_bind_get. cbn [graph]. unfold remove_silly_reshapes.
    rewrite Hreshape. cbn [filter list_filter foldl].
    rewrite M_bind_put. cbn [log]. by rewrite (M_bind_run _ _ _ _ _ Hr). }
  assert (Hpass : driver_pass fuel opts 1 st =
                  (Ok false,
                   mkState G'
                     (log st ++ [LogStep 1; LogNothingFound] ++
                      (if debug_function opts then [LogDebug] else [])))).
  { unfold driver_pass. rewrite M_bind_info, M_bind_get. cbn [graph].
    rewrite Hnone. change (merge_sort name_le []) with (@nil Node.t).
    cbn [examine_transposes]. rewrite M_bind_ret, M_bind_info. cbn [graph log].
    rewrite (M_bind_run _ _ _ _ _ (Hclean _)). rewrite M_bind_get. cbn [graph].
    rewrite (M_bind_lift_Ok _ _ _ _ Hdims), M_bind_put. cbn [log].
    destruct (debug_function opts).
    - rewrite M_bind_info. cbn [graph log]. unfold mret, M_ret.
      by rewrite <- !(assoc_L (++)).
    - rewrite M_bind_ret. unfold mret, M_ret. by rewrite <- !(assoc_L (++)). }
  unfold eliminate_transposes.
  assert (Hloop :
    while_found_results (driver_pass fuel opts) (steps opts) (S loop_fuel) true 0 st =
    (Ok 1, mkState G'
             (log st ++ [LogStep 1; LogNothingFound] ++
              (if debug_function opts then [LogDebug] else [])))).
  { rewrite first_pass by done. rewrite (M_bind_run _ _ _ _ _ Hpass). apply loop_ends. }
  rewrite (M_bind_run _ _ _ _ _ Hloop), M_bind_info. cbn [graph log].
  unfold mret, M_ret. by rewrite <- !(assoc_L (++)).
Qed.

End driver_edge_cases.

Section never_logs_facts.

Variable q : event → bool.

Lemma never_logs_ret {A} (a : A) : never_logs q (mret a).
Proof. intros st. exists []. by rewrite app_nil_r. Qed.

Lemma never_logs_lift {A} (r : Res A) : never_logs q (lift r).
Proof. intros st. exists []. by rewrite app_nil_r. Qed.

Lemma never_logs_get : never_logs q get_graph.
Proof. intros st. exists []. by rewrite app_nil_r. Qed.

Lemma never_logs_put (G : Graph) : never_logs q (put_graph G).
Proof. intros st. exists []. by rewrite app_nil_r. Qed.

Lemma never_logs_in_place (f : Graph → Res unit * Graph) : never_logs q (in_place f).
Proof.
  intros st. exists []. unfold in_place. destruct (f (graph st)).
  by rewrite app_nil_r.
Qed.

Lemma never_logs_info (e : event) : q e = false → never_logs q (info e).
Proof. intros He st. exists [e]. split; [done|]. by constructor. Qed.

Lemma never_logs_bind {A B} (m : M A) (f : A → M B) :
  never_logs q m → (∀ a, never_logs q (f a)) → never_logs q (m ≫= f).
Proof.
  intros Hm Hf st. unfold mbind, M_bind.
  destruct (Hm st) as (l1 & Hl1 & Hq1).
  destruct (m st) as [[a|e|] st1]; simpl in *; [|by exists l1..].
  destruct (Hf a st1) as (l2 & Hl2 & Hq2).
  exists (l1 ++ l2). rewrite Hl2, Hl1. split; [by rewrite (assoc_L (++))|].
  by apply Forall_app.
Qed.

Lemma never_logs_for_each_M {A} (l : list A) (body : A → M unit) :
  (∀ a, never_logs q (body a)) → never_logs q (for_each_M l body).
Proof.
  intros Hbody. induction l as [|a l IH]; simpl.
  - apply never_logs_ret.
  - apply never_logs_bind; [apply Hbody | intros _; apply IH].
Qed.

End never_logs_facts.

(** The steps of a proof that a computation of the driver writes no event
    of some kind, over the lemmas of the monad: [ret], [lift], [get], [put],
    [place], [info], [bind] and [each]. *)
Ltac log_steps ret lift get put place info bind each :=
  repeat first
    [ apply ret | apply lift | apply get | apply put | apply place
    | apply info; reflexivity
    | apply bind; [|intros]
    | apply each; intros
    | assumption
    | match goal with
      | |- _ _ (if ?b then _ else _) => destruct b
      | |- _ _ (match ?x with (_, _) => _ end) => destruct x
      end ].

Section only_up_facts.

Context `{!TransposeHelpers} `{!GraphBackend}.
Variable fuel : nat.
Variable opts : Options.
Hypothesis only_up_set : only_up opts = true.

Lemma search_downwards_only_up G transpose_node visited_nodes :
  search_downwards fuel opts G transpose_node visited_nodes = Ok None.
Proof. unfold search_downwards. by rewrite only_up_set. Qed.

Lemma evaluate_results_no_down G up c :
  evaluate_results G up None = Ok c → c ≠ CommitDown.
Proof.
  unfold evaluate_results. cbn [count_eliminated transpose_moved].
  repeat case_bool_decide; cbn; intros; simplify_eq; done || lia.
Qed.

Lemma examine_transposes_only_up transposes found_results actions visited_nodes :
  never_logs is_LogFoundDown
    (examine_transposes fuel opts transposes found_results actions visited_nodes).
Proof.
  revert found_results actions visited_nodes.
  induction transposes as [|t transposes IH]; intros found_results actions visited_nodes;
    cbn [examine_transposes].
  - apply never_logs_ret.
  - case_bool_decide; [apply IH|].
    apply never_logs_bind; [by apply never_logs_info|intros].
    apply never_logs_bind; [apply never_logs_get|intros].
    apply never_logs_bind; [apply never_logs_lift|intros].
    rewrite search_downwards_only_up. intros st.
    rewrite M_bind_lift_Ok with (a := None) by done. rewrite M_bind_lift.
    cbn [fmap option_fmap option_map].
    destruct (evaluate_results _ _ None) as [c| |] eqn:Hc;
      [|exists []; by rewrite app_nil_r..].
    assert (Hcommit : ∀ result : option (list Action * VisitedNodes.t),
      never_logs is_LogFoundDown
        ('(cur_actions, cur_visited) ←
           lift (match result with Some r => Ok r | None => Raise TypeError end);
         if single_step opts || bool_decide (steps opts ≠ None)
         then mret (true, actions ++ cur_actions)
         else examine_transposes fuel opts transposes true (actions ++ cur_actions)
                (visited_nodes ∪ dom (VisitedNodes.nodes cur_visited)
                   ∪ {[Node.name t]}))).
    { intros result. apply never_logs_bind; [apply never_logs_lift|].
      intros [cur_actions cur_visited].
      destruct (single_step opts || _); [apply never_logs_ret | apply IH]. }
    destruct c.
    + revert st.
      apply never_logs_bind; [by apply never_logs_info|intros; apply Hcommit].
    + by apply evaluate_results_no_down in Hc.
    + revert st. apply never_logs_bind; [by apply never_logs_info|intros; apply IH].
Qed.

Lemma driver_pass_only_up (pass_count : Z) :
  never_logs is_LogFoundDown (driver_pass fuel opts pass_count).
Proof.
  unfold driver_pass, apply_actions, combine_reshapes, combine_transposes.
  log_steps @never_logs_ret @never_logs_lift @never_logs_get @never_logs_put
    @never_logs_in_place @never_logs_info @never_logs_bind @never_logs_for_each_M;
    apply examine_transposes_only_up.
Qed.

Lemma while_found_results_only_up (loop_fuel : nat) (found_results : bool)
    (pass_count : Z) :
  never_logs is_LogFoundDown
    (while_found_results (driver_pass fuel opts) (steps opts) loop_fuel found_results
       pass_count).
Proof.
  revert found_results pass_count.
  induction loop_fuel as [|loop_fuel IH]; intros found_results pass_count;
    cbn [while_found_results]; destruct found_results; try apply never_logs_ret;
    destruct (steps opts); case_bool_decide;
    try apply never_logs_ret; try apply never_logs_lift.
  - apply never_logs_bind; [apply driver_pass_only_up | intros; apply IH].
  - apply never_logs_bind; [apply driver_pass_only_up | intros; apply IH].
Qed.

(** X16: with only_up the driver never selects a downward result.  The
    downward search of every transpose is given up before it starts, its
    score is -1, and no line "found elimination ... downwards" is written
    to the log, in any pass, whether the call returns or raises. *)
Theorem X16_only_up_never_commits_down (loop_fuel : nat) (st : DriverState) :
  (∀ G transpose_node visited_nodes,
     search_downwards fuel opts G transpose_node visited_nodes = Ok None) ∧
  (∀ G up c, evaluate_results G up None = Ok c → c ≠ CommitDown) ∧
  ∃ l, log (eliminate_transposes fuel opts loop_fuel st).2 = log st ++ l ∧
       Forall (λ e, is_LogFoundDown e = false) l.
Proof.
  split; [exact search_downwards_only_up|]. split; [exact evaluate_results_no_down|].
  revert st. unfold eliminate_transposes.
  apply never_logs_bind; [apply while_found_results_only_up|].
  intros. apply never_logs_bind; [by apply never_logs_info|].
  intros. apply never_logs_ret.
Qed.

End only_up_facts.

(** The theorem at a transpose that nothing feeds. *)
Lemma X14_transpose_without_input_witness :
  @eliminate_transposes SpecModel.helpers SpecBackend.backend 8
    Examples.default_options 1 (mkState Examples.dangling []) =
  (Raise IndexError, mkState Examples.dangling [LogStep 1; LogTrying "t"]).
Proof.
  apply (@X14_transpose_without_input SpecModel.helpers SpecBackend.backend 8
           Examples.default_options 0 (mkState Examples.dangling [])
           (Examples.node "t" TransposeParameters false [[2; 3]] [[3; 2]] 0 [1; 0] false 0)
           []).
  - by vm_compute.
  - by vm_compute.
  - by vm_compute.
Defined.

(** The theorem at the chain of reshapes, with a debug function and
    without the cleanup: one pass, nothing found, the hook is called. *)
Lemma X15_no_transposes_witness :
  @eliminate_transposes SpecModel.helpers SpecBackend.backend 8
    Examples.debug_options 1 (mkState Examples.reshape_chain []) =
  (Ok 1, mkState Examples.reshape_chain
           [LogStep 1; LogNothingFound; LogDebug; LogFinished]).
Proof.
  apply (@X15_no_transposes SpecModel.helpers SpecBackend.backend 8
           Examples.debug_options 0 (mkState Examples.reshape_chain [])
           Examples.reshape_chain).
  - by vm_compute.
  - by left.
  - done.
  - by vm_compute.
Defined.

(** The theorem at the two chains: with only_up both transposes are
    eliminated upwards, and the log has no downward selection. *)
Lemma X16_only_up_never_commits_down_witness :
  let run :=
    @eliminate_transposes SpecModel.helpers SpecBackend.backend 8
      Examples.only_up_options 5 (mkState Examples.two_chains []) in
  run.1 = Ok 2 ∧ Forall (λ e, is_LogFoundDown e = false) (log run.2).
Proof.
  intros run.
  destruct (@X16_only_up_never_commits_down SpecModel.helpers SpecBackend.backend 8
              Examples.only_up_options eq_refl 5 (mkState Examples.two_chains []))
    as (_ & _ & l & Hl & Hq).
  split; [by vm_compute|]. fold run in Hl. rewrite Hl. exact Hq.
Defined.

(** ** The search for sequences *)

Section sequences.

Implicit Types (G : Graph) (c : NodeClass) (edge : Edge.t) (n : string).

Lemma leads_to_unique G c edge n n' :
  leads_to G c edge n → leads_to G c edge n' → n = n'.
Proof.
  intros Hn. revert n'.
  induction Hn as [edge node Hl Hc|edge node edge' n Hl Hc Hp Ho Hn IH];
    intros n' Hn'; inversion Hn' as [? node' Hl' Hc'|? node' edge'' ? Hl' Hc' Hp' Ho' Hn''];
    subst; rewrite Hl in Hl'; injection Hl' as <-; try done.
  rewrite Ho in Ho'. injection Ho' as <-. by apply IH.
Qed.

Lemma search_edge_down_sound fuel G edge c n :
  search_edge_down fuel G edge c = Ok (Some n) → leads_to G c edge n.
Proof.
  revert edge. induction fuel as [|fuel IH]; intros edge Hs; [done|].
  cbn [search_edge_down] in Hs. unfold get_node in Hs.
  destruct (nodes G !! Edge.to_node edge) as [node|] eqn:Hl; [|done].
  cbn [mbind Res_bind] in Hs. case_bool_decide as Hc.
  - simplify_eq. by apply leads_to_stop.
  - destruct (is_pass_class (Node.cls node)) eqn:Hp; [|done].
    destruct (out_edges G (Node.name node)) as [|edge' [|? ?]] eqn:Ho; [done| |done].
    eapply leads_to_pass; [done..|]. by apply IH.
Qed.

Lemma search_edge_down_None fuel G edge c n :
  search_edge_down fuel G edge c = Ok None → ¬ leads_to G c edge n.
Proof.
  revert edge. induction fuel as [|fuel IH]; intros edge Hs Hn; [done|].
  cbn [search_edge_down] in Hs. unfold get_node in Hs.
  inversion Hn as [? node Hl Hc|? node edge' ? Hl Hc Hp Ho Hn']; simplify_eq;
    rewrite Hl in Hs; cbn [mbind Res_bind] in Hs.
  - by rewrite bool_decide_true in Hs.
  - rewrite bool_decide_false, Hp, Ho in Hs by done. by eapply IH.
Qed.

Lemma search_edge_down_complete G c edge n :
  leads_to G c edge n →
  ∃ fuel0, ∀ fuel, (fuel0 ≤ fuel)%nat → search_edge_down fuel G edge c = Ok (Some n).
Proof.
  induction 1 as [edge node Hl Hc|edge node edge' n Hl Hc Hp Ho Hn [fuel0 IH]].
  - exists 1%nat. intros [|fuel] Hf; [lia|]. cbn [search_edge_down].
    unfold get_node. rewrite Hl. cbn [mbind Res_bind]. by rewrite bool_decide_true.
  - exists (S fuel0). intros [|fuel] Hf; [lia|]. cbn [search_edge_down].
    unfold get_node. rewrite Hl. cbn [mbind Res_bind].
    rewrite bool_decide_false, Hp, Ho by done. apply IH. lia.
Qed.

(** X18: search_edge_down finds the end of a sequence exactly when the
    edge leads to a node of the end class through middle nodes with a
    single out-edge each: a result names that node, the node is found with
    enough depth, and the answer None means that there is no such node. *)
Theorem X18_search_edge_down G c edge n :
  (∀ fuel, search_edge_down fuel G edge c = Ok (Some n) → leads_to G c edge n) ∧
  (leads_to G c edge n →
     ∃ fuel0, ∀ fuel, (fuel0 ≤ fuel)%nat →
       search_edge_down fuel G edge c = Ok (Some n)) ∧
  (∀ fuel, search_edge_down fuel G edge c = Ok None → ¬ leads_to G c edge n) ∧
  (∀ n', leads_to G c edge n → leads_to G c edge n' → n = n').
Proof.
  split_and!.
  - intros fuel. apply search_edge_down_sound.
  - apply search_edge_down_complete.
  - intros fuel. apply search_edge_down_None.
  - intros n'. apply leads_to_unique.
Qed.

Lemma find_sequences_starts fuel G c todo pairs a b :
  find_sequences fuel G c todo = Ok pairs → (a, b) ∈ pairs →
  a ∈ todo ∧ ∃ edge, out_edges G a = [edge] ∧ leads_to G c edge b.
Proof.
  revert todo pairs. induction fuel as [|fuel IH]; intros todo pairs Hf Hin.
  { destruct todo; cbn in Hf; simplify_eq. by apply elem_of_nil in Hin. }
  destruct todo as [|node todo]; cbn [find_sequences] in Hf.
  { simplify_eq. by apply elem_of_nil in Hin. }
  assert (Hrest : ∀ todo', todo' ⊆ todo →
            find_sequences fuel G c todo' = Ok pairs →
            a ∈ node :: todo ∧ ∃ edge, out_edges G a = [edge] ∧ leads_to G c edge b).
  { intros todo' Hsub Hf'. destruct (IH _ _ Hf' Hin) as [Ha He].
    split; [|done]. apply elem_of_cons. right. by apply Hsub. }
  destruct (out_edges G node) as [|edge [|? ?]] eqn:Ho; try by apply (Hrest todo).
  destruct (search_edge_down _ G edge c) as [[end_node|]| |] eqn:Hs;
    cbn [mbind Res_bind] in Hf; try done; [|by apply (Hrest todo)].
  apply bind_Ok in Hf as (pairs' & Hf & [= <-]).
  apply elem_of_cons in Hin as [[= -> ->]|Hin].
  - split; [by apply elem_of_cons; left|]. exists edge. split; [done|].
    by eapply search_edge_down_sound.
  - destruct (IH _ _ Hf Hin) as [Ha He]. split; [|done].
    apply elem_of_cons. right. by apply list_elem_of_filter in Ha as [_ Ha].
Qed.

Lemma find_sequences_order fuel G c todo pairs :
  NoDup todo →
  find_sequences fuel G c todo = Ok pairs →
  NoDup pairs.*1 ∧
  ∀ (i j : nat) a b a' b', pairs !! i = Some (a, b) → pairs !! j = Some (a', b') →
                           (i < j)%nat → a' ≠ b.
Proof.
  revert todo pairs. induction fuel as [|fuel IH]; intros todo pairs Hnd Hf.
  { destruct todo; cbn in Hf; simplify_eq. split; [constructor|]. by intros []. }
  destruct todo as [|node todo]; cbn [find_sequences] in Hf.
  { simplify_eq. split; [constructor|]. by intros []. }
  apply NoDup_cons in Hnd as [Hnode Hnd].
  destruct (out_edges G node) as [|edge [|? ?]] eqn:Ho; try by apply (IH todo).
  destruct (search_edge_down _ G edge c) as [[end_node|]| |] eqn:Hs;
    cbn [mbind Res_bind] in Hf; try done; [|by apply (IH todo)].
  apply bind_Ok in Hf as (pairs' & Hf & [= <-]).
  destruct (IH _ _ (NoDup_filter _ _ Hnd) Hf) as [Hfirst Horder].
  assert (Hin : ∀ a b, (a, b) ∈ pairs' → a ∈ todo ∧ a ≠ end_node).
  { intros a b Hab. destruct (find_sequences_starts _ _ _ _ _ _ _ Hf Hab) as [Ha _].
    by apply list_elem_of_filter in Ha as [? ?]. }
  split.
  - cbn [fmap list_fmap fst]. apply NoDup_cons. split; [|done].
    intros Hn. apply list_elem_of_fmap in Hn as ([a b] & -> & Hab).
    apply Hin in Hab as [? _]. done.
  - intros [|i] [|j] a b a' b' Hi Hj Hij; try lia; cbn in Hi, Hj; simplify_eq.
    + apply list_elem_of_lookup_2 in Hj. by apply Hin in Hj as [_ ?].
    + eapply Horder; [done..|lia].
Qed.

(** X19: the pairs that find_sequences returns.  Every pair starts at a
    node of the work list that has a single out-edge, and this edge leads
    to the end of the pair through middle nodes; no node starts two pairs;
    and the end of a pair does not start a later pair, so that a chain of
    three end nodes gives one pair in a call. *)
Theorem X19_find_sequences fuel G c todo pairs :
  NoDup todo →
  find_sequences fuel G c todo = Ok pairs →
  (∀ a b, (a, b) ∈ pairs →
     a ∈ todo ∧ ∃ edge, out_edges G a = [edge] ∧ leads_to G c edge b) ∧
  NoDup pairs.*1 ∧
  (∀ (i j : nat) a b a' b', pairs !! i = Some (a, b) → pairs !! j = Some (a', b') →
                            (i < j)%nat → a' ≠ b).
Proof.
  intros Hnd Hf. split.
  - intros a b. by apply (find_sequences_starts fuel).
  - by apply (find_sequences_order fuel G c todo).
Qed.

End sequences.

(** The theorem at the chain of reshapes: r1 leads to r2, which is taken
    from the work list and starts no pair of its own. *)
Lemma X19_find_sequences_witness :
  let G := Examples.reshape_chain in
  find_sequences 2 G ReshapeParameters ["r1"; "r2"] = Ok [("r1", "r2")] ∧
  ∃ edge, out_edges G "r1" = [edge] ∧ leads_to G ReshapeParameters edge "r2".
Proof.
  intros G.
  assert (Hnd : NoDup ["r1"; "r2"]) by (apply (bool_decide_unpack _); by vm_compute).
  assert (Hrun : find_sequences 2 G ReshapeParameters ["r1"; "r2"] = Ok [("r1", "r2")])
    by (by vm_compute).
  destruct (X19_find_sequences 2 G ReshapeParameters ["r1"; "r2"] [("r1", "r2")]
              Hnd Hrun) as (Hstart & _ & _).
  split; [exact Hrun|].
  destruct (Hstart "r1" "r2") as [_ Hedge]; [set_solver | exact Hedge].
Defined.
